(** * Teqpod site scripts: a shallow embedding and its checked properties

    The development follows the classes of the site's scripts:
    - [DOMManager]      (element helper: classes, observer registry, debounce, throttle),
    - [ComponentSystem] (template cache and the five render functions),
    - [AnimationSystem] (scroll reveal, counter, fade / slide / scale),
    - [TeqpodApp]       (form field validation),
    and, for the parts of these classes that come after,
    - [ElementHelper]    (rest of [DOMManager]: class toggle, template cache, viewport test),
    - [MotionController] (rest of [AnimationSystem]: smooth scroll, frames, stagger, cursor),
    - [PageController]   (rest of [TeqpodApp]: rendering, mobile menu, active link),
    - [TemplateRenderer] (rest of [ComponentSystem]: counters that start in view).

    JavaScript values are modelled as follows.  Strings are [string]; an
    absent ([undefined] / [null]) value is [None]; a DOM subtree is a value
    of type [Dom.Node] and a reference into a subtree is a path of child
    indices; objects shared through the page (attached elements, the
    observer registry, pending timers) live in explicit stores that are
    threaded through the calls.  A thrown exception is [Throw]. *)

From Stdlib Require Import ZArith QArith Qround Qminmax Qpower Lia Lqa String Ascii.
From Stdlib Require Import DecimalString DecimalPos DecimalN.
From stdpp Require Import base option list gmap strings.

Set Warnings "-register-all".

Local Open Scope string_scope.
Local Open Scope list_scope.

(** ** Results of calls that may throw *)

Inductive Result (A : Type) : Type :=
| Ok (a : A)
| Throw (msg : string).
Arguments Ok {A} a.
Arguments Throw {A} msg.

Definition bindR {A B} (r : Result A) (k : A -> Result B) : Result B :=
  match r with
  | Ok a => k a
  | Throw e => Throw e
  end.

Notation "x <-r c ; k" := (bindR c (fun x => k))
  (at level 100, c at next level, right associativity).

(** ** JavaScript primitives used by the scripts *)

Module JS.

(** [String(n)] for a non-negative integer: its decimal digits. *)
Definition showN (n : N) : string := NilEmpty.string_of_uint (N.to_uint n).

Definition showNat (n : nat) : string := showN (N.of_nat n).

(** [String(z)] for an integer. *)
Definition showZ (z : Z) : string :=
  if (z <? 0)%Z then "-" +:+ showN (Z.to_N (- z)) else showN (Z.to_N z).

(** [x || ''] on an optional string: [undefined] and [''] both give ['']. *)
Definition orEmpty (x : option string) : string := default "" x.

(** Truthiness of an optional string: [undefined] and [''] are falsy. *)
Definition truthy (x : option string) : bool :=
  match x with
  | None => false
  | Some s => negb (String.eqb s "")
  end.

Definition isDigit (c : ascii) : bool :=
  let n := nat_of_ascii c in ((48 <=? n) && (n <=? 57))%nat.

Definition digitValue (c : ascii) : Z := Z.of_nat (nat_of_ascii c) - 48.

(** White space among the one-byte characters: TAB, LF, VT, FF, CR, SP. *)
Definition isSpace (c : ascii) : bool :=
  let n := nat_of_ascii c in (((9 <=? n) && (n <=? 13)) || (n =? 32))%nat.

(** Strings made of decimal digits only. *)
Fixpoint allDigits (s : string) : bool :=
  match s with
  | EmptyString => true
  | String c s' => isDigit c && allDigits s'
  end.

(** [s.replace(/\D/g, '')]: keep the decimal digits only. *)
Fixpoint stripNonDigits (s : string) : string :=
  match s with
  | EmptyString => EmptyString
  | String c s' => if isDigit c then String c (stripNonDigits s') else stripNonDigits s'
  end.

(** The digits read by [parseInt] after white space and sign: the longest
    prefix of decimal digits, [None] when there is none. *)
Fixpoint parseDigits (acc : option Z) (s : string) : option Z :=
  match s with
  | EmptyString => acc
  | String c s' =>
      if isDigit c
      then parseDigits (Some (10 * default 0%Z acc + digitValue c)%Z) s'
      else acc
  end.

Fixpoint skipSpaces (s : string) : string :=
  match s with
  | String c s' => if isSpace c then skipSpaces s' else s
  | EmptyString => EmptyString
  end.

Definition isHexDigit (c : ascii) : bool :=
  let n := nat_of_ascii c in
  isDigit c || ((65 <=? n) && (n <=? 70))%nat || ((97 <=? n) && (n <=? 102))%nat.

Definition hexValue (c : ascii) : Z :=
  let n := Z.of_nat (nat_of_ascii c) in
  if isDigit c then n - 48 else if (n <=? 70)%Z then n - 55 else n - 87.

Fixpoint parseHexDigits (acc : option Z) (s : string) : option Z :=
  match s with
  | EmptyString => acc
  | String c s' =>
      if isHexDigit c
      then parseHexDigits (Some (16 * default 0%Z acc + hexValue c)%Z) s'
      else acc
  end.

(** The unsigned part: a [0x] / [0X] prefix selects radix 16. *)
Definition parseMagnitude (s : string) : option Z :=
  match s with
  | String "0" (String "x" s') => parseHexDigits None s'
  | String "0" (String "X" s') => parseHexDigits None s'
  | _ => parseDigits None s
  end.

(** [parseInt(s)] without a radix; [None] is [NaN]. *)
Definition parseInt (s : string) : option Z :=
  match skipSpaces s with
  | String "-" s' => Z.opp <$> parseMagnitude s'
  | String "+" s' => parseMagnitude s'
  | s' => parseMagnitude s'
  end.

(** [String(x)] for the result of integer arithmetic that may be [NaN]. *)
Definition showNumber (x : option Z) : string :=
  match x with
  | Some z => showZ z
  | None => "NaN"
  end.

End JS.

(** ** DOM subtrees *)

Module Dom.

Inductive Node : Type :=
| Text (data : string)
| Element (tagName : string)
          (classList : list string)
          (attributes : list (string * string))
          (style : list (string * string))
          (childNodes : list Node).

(** A reference to a node inside a subtree: the child indices from the
    root of the subtree. *)
Definition Path : Type := list nat.

(** [className = s]: the class list is the white-space separated tokens. *)
Fixpoint tokensFrom (cur : string) (s : string) : list string :=
  match s with
  | EmptyString => if String.eqb cur "" then [] else [cur]
  | String c s' =>
      if JS.isSpace c
      then (if String.eqb cur "" then tokensFrom "" s' else cur :: tokensFrom "" s')
      else tokensFrom (cur +:+ String c "") s'
  end.

Definition tokens (s : string) : list string := tokensFrom "" s.

Definition hasClass (c : string) (n : Node) : bool :=
  match n with
  | Text _ => false
  | Element _ cl _ _ _ => bool_decide (c ∈ cl)
  end.

Definition isElement (n : Node) : bool :=
  match n with
  | Text _ => false
  | Element _ _ _ _ _ => true
  end.

Definition childNodesOf (n : Node) : list Node :=
  match n with
  | Text _ => []
  | Element _ _ _ _ ch => ch
  end.

(** Keyed stores ([attributes], [style]): assignment replaces the first
    binding of the key or adds one at the end. *)
Fixpoint assign (k v : string) (l : list (string * string)) : list (string * string) :=
  match l with
  | [] => [(k, v)]
  | (k', v') :: l' => if String.eqb k k' then (k, v) :: l' else (k', v') :: assign k v l'
  end.

Fixpoint lookupKey (k : string) (l : list (string * string)) : option string :=
  match l with
  | [] => None
  | (k', v') :: l' => if String.eqb k k' then Some v' else lookupKey k l'
  end.

Definition getAttribute (k : string) (n : Node) : option string :=
  match n with
  | Text _ => None
  | Element _ _ a _ _ => lookupKey k a
  end.

Definition setAttribute (k v : string) (n : Node) : Node :=
  match n with
  | Text _ => n
  | Element t cl a st ch => Element t cl (assign k v a) st ch
  end.

(** [el.dataset.name]: the attribute [data-name]. *)
Definition dataset (name : string) (n : Node) : option string :=
  getAttribute ("data-" +:+ name) n.

Definition setDataset (name v : string) (n : Node) : Node :=
  setAttribute ("data-" +:+ name) v n.

Definition getStyle (prop : string) (n : Node) : option string :=
  match n with
  | Text _ => None
  | Element _ _ _ st _ => lookupKey prop st
  end.

Definition setStyle (prop v : string) (n : Node) : Node :=
  match n with
  | Text _ => n
  | Element t cl a st ch => Element t cl a (assign prop v st) ch
  end.

(** [classList.add] and [classList.remove]. *)
Definition classListAdd (c : string) (n : Node) : Node :=
  match n with
  | Text _ => n
  | Element t cl a st ch =>
      Element t (if bool_decide (c ∈ cl) then cl else cl ++ [c]) a st ch
  end.

Definition classListRemove (c : string) (n : Node) : Node :=
  match n with
  | Text _ => n
  | Element t cl a st ch =>
      Element t (filter (fun c' => c' ≠ c) cl) a st ch
  end.

(** [el.textContent = s] replaces the children by one text node (none
    for the empty string); reading concatenates the text below. *)
Definition setTextContent (s : string) (n : Node) : Node :=
  match n with
  | Text _ => Text s
  | Element t cl a st _ =>
      Element t cl a st (if String.eqb s "" then [] else [Text s])
  end.

Fixpoint textContent (n : Node) : string :=
  match n with
  | Text s => s
  | Element _ _ _ _ ch => fold_right (fun c acc => textContent c +:+ acc) "" ch
  end.

(** The two selector forms the scripts use: [.class] and a tag name. *)
Inductive Selector : Type :=
| ByClass (c : string)
| ByTag (t : string).

Definition parseSelector (s : string) : Selector :=
  match s with
  | String "." c => ByClass c
  | _ => ByTag s
  end.

Definition matchesSelector (sel : Selector) (n : Node) : bool :=
  match sel, n with
  | _, Text _ => false
  | ByClass c, Element _ cl _ _ _ => bool_decide (c ∈ cl)
  | ByTag t, Element t' _ _ _ _ => String.eqb t t'
  end.

(** First hit of [f] among the nodes [l], numbered from [i]. *)
Fixpoint firstIn (f : Node -> option Path) (i : nat) (l : list Node) : option Path :=
  match l with
  | [] => None
  | c :: l' =>
      match f c with
      | Some p => Some (i :: p)
      | None => firstIn f (S i) l'
      end
  end.

(** Document order: a node before its descendants, children left to right. *)
Fixpoint firstMatch (sel : Selector) (n : Node) : option Path :=
  match n with
  | Text _ => None
  | Element _ _ _ _ ch =>
      if matchesSelector sel n then Some [] else firstIn (firstMatch sel) 0 ch
  end.

(** [root.querySelector(s)]: the first matching descendant, [None] for [null]. *)
Definition querySelector (s : string) (root : Node) : option Path :=
  firstIn (firstMatch (parseSelector s)) 0 (childNodesOf root).

Fixpoint nodeAt (p : Path) (n : Node) : option Node :=
  match p with
  | [] => Some n
  | i :: p' => childNodesOf n !! i ≫= nodeAt p'
  end.

(** Mutation through a reference: apply [f] to the node at [p]. *)
Fixpoint updateAt (p : Path) (f : Node -> Node) (n : Node) : Node :=
  match p with
  | [] => f n
  | i :: p' =>
      match n with
      | Text _ => n
      | Element t cl a st ch => Element t cl a st (alter (updateAt p' f) i ch)
      end
  end.

(** [parent.appendChild(child)]; a text node takes no children. *)
Definition appendChild (child : Node) (parent : Node) : Result Node :=
  match parent with
  | Text _ => Throw "HierarchyRequestError"
  | Element t cl a st ch => Ok (Element t cl a st (ch ++ [child]))
  end.

(** [parent.appendChild(fragment)] moves every child of the fragment. *)
Definition appendFragment (fragment : list Node) (parent : Node) : Result Node :=
  match parent with
  | Text _ => Throw "HierarchyRequestError"
  | Element t cl a st ch => Ok (Element t cl a st (ch ++ fragment))
  end.

(** [ref.appendChild(child)] for a reference [ref] obtained from
    [querySelector] on [root]; a [null] reference throws. *)
Definition appendChildAt (ref : option Path) (child : Node) (root : Node) : Result Node :=
  match ref with
  | None => Throw "TypeError: null reference"
  | Some p =>
      match nodeAt p root with
      | Some (Element _ _ _ _ _) =>
          Ok (updateAt p (fun n => match appendChild child n with Ok n' => n' | Throw _ => n end) root)
      | _ => Throw "HierarchyRequestError"
      end
  end.

(** [ref.dataset.name = v] through a reference. *)
Definition setDatasetAt (ref : option Path) (name v : string) (root : Node) : Result Node :=
  match ref with
  | None => Throw "TypeError: null reference"
  | Some p => Ok (updateAt p (setDataset name v) root)
  end.

End Dom.

(** ** Calls that read and write a shared store and may throw *)

Definition M (St A : Type) : Type := St -> Result A * St.

Definition ret {St A} (a : A) : M St A := fun s => (Ok a, s).

Definition bind {St A B} (m : M St A) (k : A -> M St B) : M St B :=
  fun s =>
    match m s with
    | (Ok a, s') => k a s'
    | (Throw e, s') => (Throw e, s')
    end.

Definition liftR {St A} (r : Result A) : M St A := fun s => (r, s).

Notation "x <- c ;; k" := (bind c (fun x => k))
  (at level 100, c at next level, right associativity).

(** [l.forEach((x, index) => ...)] for a body that threads a local
    accumulator [acc] next to the shared store. *)
Fixpoint forEachFrom {St A B} (body : A -> nat -> B -> M St B)
    (l : list A) (index : nat) (acc : B) : M St B :=
  match l with
  | [] => ret acc
  | x :: l' => acc' <- body x index acc ;; forEachFrom body l' (S index) acc'
  end.

Definition forEach {St A B} (body : A -> nat -> B -> M St B) (l : list A) (acc : B) : M St B :=
  forEachFrom body l 0 acc.

(** ** DOMManager: element helper *)

Module DOMManager.
Import Dom.

(** [createElement(tagName, className = '', attributes = {})]. *)
Definition createElement (tagName className : string)
    (attributes : list (string * string)) : Node :=
  fold_left (fun el kv => setAttribute kv.1 kv.2 el) attributes
    (Element tagName (tokens className) [] [] []).

Definition createTextNode (text : string) : Node := Text text.

(** [cloneNode(node, deep = true)]: a deep copy; subtrees are values. *)
Definition cloneNode (node : Node) : Node := node.

(** [appendChildren(parent, ...children)] with node children. *)
Definition appendChildren (parent : Node) (children : list Node) : Result Node :=
  appendFragment children parent.

(** [addClass], [removeClass] on an element of the page, given by
    reference: nothing happens for [null] or an empty class name. *)
Definition addClass (element : option nat) (className : string)
    (elements : gmap nat Node) : gmap nat Node :=
  match element with
  | Some el =>
      if String.eqb className "" then elements
      else alter (classListAdd className) el elements
  | None => elements
  end.

Definition removeClass (element : option nat) (className : string)
    (elements : gmap nat Node) : gmap nat Node :=
  match element with
  | Some el =>
      if String.eqb className "" then elements
      else alter (classListRemove className) el elements
  | None => elements
  end.

(** [querySelectorAll('.c')] over the elements of the page. *)
Definition querySelectorAllClass (c : string) (elements : gmap nat Node) : list nat :=
  (map_to_list (filter (fun kv => hasClass c kv.2 = true) elements)).*1.

(** *** Intersection observers and their registry *)

Section Observers.
(** The callbacks handed to observers are closures of the callers. *)
Variable Callback : Type.

(** An options literal; a key that is not written is [None]. *)
Record Options : Type := { threshold : option Q; rootMargin : option string }.

(** [{ ...defaultOptions, ...options }]. *)
Definition spread (defaults options : Options) : Options :=
  {| threshold := match threshold options with Some t => Some t | None => threshold defaults end;
     rootMargin := match rootMargin options with Some m => Some m | None => rootMargin defaults end |}.

(** The browser's observer object: its callback and options, the
    targets it watches, and how often [disconnect] ran on it. *)
Record IntersectionObserver : Type := {
  callback : Callback;
  options : Options;
  targets : list nat;
  disconnects : nat
}.

(** [this.observers] maps identifiers to observer objects (references
    into [heap]); [this.templates] is the manager's own template map. *)
Record World : Type := {
  heap : list IntersectionObserver;
  observers : gmap string nat;
  templates : gmap string Node
}.

(** [new DOMManager()] on a page without observers. *)
Definition new : World := {| heap := []; observers := ∅; templates := ∅ |}.

Record Handle : Type := { observer : nat; id : string }.

Definition defaultOptions : Options :=
  {| threshold := Some (1 # 10); rootMargin := Some "0px 0px -50px 0px" |}.

(** [createIntersectionObserver(callback, options = {})].  [now] is what
    [Date.now()] returns and [random] what
    [Math.random().toString(36).substr(2, 9)] returns at the call. *)
Definition createIntersectionObserver (cb : Callback) (opts : Options)
    (now : Z) (random : string) (w : World) : Handle * World :=
  let observer := length (heap w) in
  let object := {| callback := cb; options := spread defaultOptions opts;
                   targets := []; disconnects := 0 |} in
  let observerId := "observer_" +:+ JS.showZ now +:+ "_" +:+ random in
  ({| observer := observer; id := observerId |},
   {| heap := heap w ++ [object];
      observers := <[observerId := observer]> (observers w);
      templates := templates w |}).

(** The browser's [observe], [unobserve] and [disconnect]. *)
Definition observeObject (element : nat) (o : IntersectionObserver) : IntersectionObserver :=
  {| callback := callback o; options := options o;
     targets := if bool_decide (element ∈ targets o) then targets o else targets o ++ [element];
     disconnects := disconnects o |}.

Definition unobserveObject (element : nat) (o : IntersectionObserver) : IntersectionObserver :=
  {| callback := callback o; options := options o;
     targets := filter (fun e => e ≠ element) (targets o);
     disconnects := disconnects o |}.

Definition disconnectObject (o : IntersectionObserver) : IntersectionObserver :=
  {| callback := callback o; options := options o;
     targets := [];
     disconnects := S (disconnects o) |}.

Definition onHeap (f : IntersectionObserver -> IntersectionObserver) (observer : nat)
    (w : World) : World :=
  {| heap := alter f observer (heap w); observers := observers w; templates := templates w |}.

(** The methods of a handle. *)
Definition observe (h : Handle) (element : nat) (w : World) : World :=
  onHeap (observeObject element) (observer h) w.

Definition unobserve (h : Handle) (element : nat) (w : World) : World :=
  onHeap (unobserveObject element) (observer h) w.

Definition disconnect (h : Handle) (w : World) : World :=
  let w := onHeap disconnectObject (observer h) w in
  {| heap := heap w; observers := delete (id h) (observers w); templates := templates w |}.

(** [cleanup()]: disconnect every registered observer, then clear both maps. *)
Definition cleanup (w : World) : World :=
  let w := foldr (fun entry w => onHeap disconnectObject entry.2 w) w
                 (map_to_list (observers w)) in
  {| heap := heap w; observers := ∅; templates := ∅ |}.




End Observers.

Arguments threshold : clear implicits.
Arguments rootMargin : clear implicits.

(** *** Timers: [setTimeout], [clearTimeout] and the event loop *)

(** Pending timers in registration order: identifier, due time, task. *)
Record Timers (T : Type) : Type := {
  now : Z;
  nextId : nat;
  pending : list (nat * Z * T)
}.
Arguments now {T} _.
Arguments nextId {T} _.
Arguments pending {T} _.

Definition setTimeout {T} (task : T) (delay : Z) (q : Timers T) : nat * Timers T :=
  (nextId q,
   {| now := now q; nextId := S (nextId q);
      pending := pending q ++ [(nextId q, (now q + Z.max 0 delay)%Z, task)] |}).

(** [clearTimeout(id)]; [undefined] clears nothing. *)
Definition clearTimeout {T} (id : option nat) (q : Timers T) : Timers T :=
  match id with
  | None => q
  | Some i =>
      {| now := now q; nextId := nextId q;
         pending := filter (fun t => t.1.1 ≠ i) (pending q) |}
  end.

(** The timer that fires next: least due time, first registered on a tie. *)
Fixpoint earliest {T} (l : list (nat * Z * T)) : option (nat * Z * T) :=
  match l with
  | [] => None
  | x :: l' =>
      match earliest l' with
      | Some y => if (y.1.2 <? x.1.2)%Z then Some y else Some x
      | None => Some x
      end
  end.

Section Event_loop.
(** A system is its timers and the variables [V] its closures share;
    [run] is the body of a timer callback. *)
Context {T V : Type}.
Variable run : T -> Timers T * V -> Timers T * V.

(** Fire one timer: the clock moves to its due time, the timer leaves
    the queue, its callback runs. *)
Definition fire (t : nat * Z * T) (s : Timers T * V) : Timers T * V :=
  let q := s.1 in
  run t.2 ({| now := Z.max (now q) t.1.2; nextId := nextId q;
              pending := filter (fun t' => t'.1.1 ≠ t.1.1) (pending q) |}, s.2).

(** Fire, in order, the timers due at or before [time]. *)
Fixpoint fireDue (fuel : nat) (time : Z) (s : Timers T * V) : Timers T * V :=
  match fuel with
  | O => s
  | S fuel' =>
      match earliest (pending s.1) with
      | Some t => if (t.1.2 <=? time)%Z then fireDue fuel' time (fire t s) else s
      | None => s
      end
  end.

(** Let the clock reach [time]: timers due by then fire first. *)
Definition advanceTo (time : Z) (s : Timers T * V) : Timers T * V :=
  let s := fireDue (length (pending s.1)) time s in
  ({| now := Z.max (now s.1) time; nextId := nextId s.1; pending := pending s.1 |}, s.2).

(** Let every pending timer fire. *)
Fixpoint settle (fuel : nat) (s : Timers T * V) : Timers T * V :=
  match fuel with
  | O => s
  | S fuel' =>
      match earliest (pending s.1) with
      | Some t => settle fuel' (fire t s)
      | None => s
      end
  end.
End Event_loop.

(** *** Debounce *)

Section Debounce.
Variable Args : Type.
Variable wait : Z.

(** The closure [later] of one invocation keeps its arguments. *)
Inductive DebounceTask : Type := later (args : Args).

(** The variable [timeout] of the closure and the calls of [func]
    made so far (time, arguments). *)
Record DebounceVars : Type := { timeout : option nat; debounceCalls : list (Z * Args) }.

Definition Debounced : Type := (Timers DebounceTask * DebounceVars)%type.

Definition debounce : Debounced :=
  ({| now := 0; nextId := 1; pending := [] |}, {| timeout := None; debounceCalls := [] |}).

(** [later]: [clearTimeout(timeout); func(...args)]. *)
Definition runLater (task : DebounceTask) (s : Debounced) : Debounced :=
  match task with
  | later args =>
      let q := clearTimeout (timeout s.2) s.1 in
      (q, {| timeout := timeout s.2;
             debounceCalls := debounceCalls s.2 ++ [(now q, args)] |})
  end.

(** [executedFunction(...args)]. *)
Definition debouncedCall (args : Args) (s : Debounced) : Debounced :=
  let q := clearTimeout (timeout s.2) s.1 in
  let (id, q) := setTimeout (later args) wait q in
  (q, {| timeout := Some id; debounceCalls := debounceCalls s.2 |}).

(** An invocation at time [time]. *)
Definition debounceAt (s : Debounced) (call : Z * Args) : Debounced :=
  debouncedCall call.2 (advanceTo runLater call.1 s).

(** Invocations at the given times, then every timer left fires. *)
Definition debounceRun (calls : list (Z * Args)) : list (Z * Args) :=
  let s := fold_left debounceAt calls debounce in
  debounceCalls (settle runLater (length (pending s.1)) s).2.

(** At most one timer is pending, and the closure variable [timeout]
    holds its identifier. *)
Definition onePending (s : Debounced) : Prop :=
  pending s.1 = [] \/
  exists i d a, pending s.1 = [(i, d, later a)] /\ timeout s.2 = Some i.
End Debounce.

(** *** Throttle *)

Section Throttle.
Variable Args : Type.
Variable limit : Z.

(** The timer callback [() => inThrottle = false]. *)
Inductive ThrottleTask : Type := reset.

Record ThrottleVars : Type := { inThrottle : bool; throttleCalls : list (Z * Args) }.

Definition Throttled : Type := (Timers ThrottleTask * ThrottleVars)%type.

Definition throttle : Throttled :=
  ({| now := 0; nextId := 1; pending := [] |}, {| inThrottle := false; throttleCalls := [] |}).

Definition runReset (task : ThrottleTask) (s : Throttled) : Throttled :=
  (s.1, {| inThrottle := false; throttleCalls := throttleCalls s.2 |}).

(** [executedFunction(...args)]. *)
Definition throttledCall (args : Args) (s : Throttled) : Throttled :=
  if inThrottle s.2 then s
  else
    let calls := throttleCalls s.2 ++ [(now s.1, args)] in
    let (_, q) := setTimeout reset limit s.1 in
    (q, {| inThrottle := true; throttleCalls := calls |}).

Definition throttleAt (s : Throttled) (call : Z * Args) : Throttled :=
  throttledCall call.2 (advanceTo runReset call.1 s).

Definition throttleRun (calls : list (Z * Args)) : list (Z * Args) :=
  let s := fold_left throttleAt calls throttle in
  throttleCalls (settle runReset (length (pending s.1)) s).2.

(** Consecutive calls of [func] in a log are at least one window apart. *)
Fixpoint spaced (log : list (Z * Args)) : Prop :=
  match log with
  | call :: rest =>
      match rest with
      | next :: _ => (call.1 + Z.max 0 limit <= next.1)%Z
      | [] => True
      end /\ spaced rest
  | [] => True
  end.

(** While the window is open exactly one timer is pending, the one that
    closes it; once it is closed the last call lies a whole window back. *)
Definition windowInvariant (s : Throttled) : Prop :=
  spaced (throttleCalls s.2)
  /\ if inThrottle s.2
     then exists i call, last (throttleCalls s.2) = Some call
                         /\ pending s.1 = [(i, (call.1 + Z.max 0 limit)%Z, reset)]
     else pending s.1 = []
          /\ forall call, last (throttleCalls s.2) = Some call ->
                          (call.1 + Z.max 0 limit <= now s.1)%Z.
End Throttle.

End DOMManager.

(** ** ComponentSystem: template cache and render functions *)

Module Feature.
Record t : Type := { icon : string; title : string; description : string }.
End Feature.

Module Stat.
(** [suffix] may be missing from a record. *)
Record t : Type := { number : string; suffix : option string; label : string }.
End Stat.

Module Event.
Record t : Type := { type : string; title : string; description : string; date : string }.
End Event.

Module Contact.
Record t : Type := { icon : string; title : string; value : string; description : string }.
End Contact.

Module Link.
Record t : Type := { text : string; url : string }.
End Link.

Module FooterSection.
Record t : Type := { title : string; links : list Link.t }.
End FooterSection.

Module ComponentSystem.
Import Dom DOMManager.

(** The callbacks handed to [setTimeout] by the render functions: the
    closure of [renderStats] keeps the number element (child [child] of
    the container, then [numberEl] inside the card) and the target text. *)
Inductive Task : Type :=
| SetupCounterAnimation (container child : nat) (numberEl : Path) (target : string).

(** The part of the page the render functions touch: attached elements
    by reference and the timers registered so far (callback, delay). *)
Record Browser : Type := {
  elements : gmap nat Node;
  timeouts : list (Task * nat)
}.

Record ComponentSystem : Type := { templates : gmap string Node }.

Definition createTemplates : Result (gmap string Node) :=
  let templates : gmap string Node := ∅ in
  (* Feature Card Template *)
  let featureCard := createElement "div" "feature-card reveal" [] in
  let featureIcon := createElement "div" "feature-icon" [] in
  let featureTitle := createElement "h3" "feature-title" [] in
  let featureDesc := createElement "p" "feature-description" [] in
  featureCard <-r appendChildren featureCard [featureIcon; featureTitle; featureDesc];
  let templates := <["feature-card" := featureCard]> templates in
  (* Stat Card Template *)
  let statCard := createElement "div" "stat-card reveal" [] in
  let statNumber := createElement "div" "stat-number" [] in
  let statLabel := createElement "div" "stat-label" [] in
  statCard <-r appendChildren statCard [statNumber; statLabel];
  let templates := <["stat-card" := statCard]> templates in
  (* Event Item Template *)
  let eventItem := createElement "div" "event-item reveal" [] in
  let eventContent := createElement "div" "event-content" [] in
  let eventCard := createElement "div" "event-card" [] in
  let eventType := createElement "div" "event-type" [] in
  let eventTitle := createElement "h3" "event-title" [] in
  let eventDesc := createElement "p" "event-description" [] in
  let eventDate := createElement "div" "event-date" [] in
  let eventDay := createElement "div" "event-day" [] in
  let eventMonth := createElement "div" "event-month" [] in
  eventCard <-r appendChildren eventCard [eventType; eventTitle; eventDesc];
  eventContent <-r appendChildren eventContent [eventCard];
  eventDate <-r appendChildren eventDate [eventDay; eventMonth];
  eventItem <-r appendChildren eventItem [eventContent; eventDate];
  let templates := <["event-item" := eventItem]> templates in
  (* Contact Item Template *)
  let contactItem := createElement "div" "contact-item reveal" [] in
  let contactIcon := createElement "div" "contact-icon" [] in
  let contactDetails := createElement "div" "contact-details" [] in
  let contactTitle := createElement "h4" "" [] in
  let contactValue := createElement "div" "contact-value" [] in
  let contactDesc := createElement "div" "contact-description" [] in
  contactDetails <-r appendChildren contactDetails [contactTitle; contactValue; contactDesc];
  contactItem <-r appendChildren contactItem [contactIcon; contactDetails];
  let templates := <["contact-item" := contactItem]> templates in
  (* Footer Section Template *)
  let footerSection := createElement "div" "footer-section" [] in
  let footerTitle := createElement "h3" "" [] in
  let footerNav := createElement "div" "footer-nav" [] in
  footerSection <-r appendChildren footerSection [footerTitle; footerNav];
  let templates := <["footer-section" := footerSection]> templates in
  Ok templates.

(** [new ComponentSystem()]. *)
Definition new : Result ComponentSystem :=
  templates <-r createTemplates; Ok {| templates := templates |}.

(** The global instance [window.componentSystem]. *)
Definition componentSystem : ComponentSystem :=
  match new with
  | Ok self => self
  | Throw _ => {| templates := ∅ |}
  end.

(** [domManager.cloneNode(this.templates.get(name))]; cloning
    [undefined] throws. *)
Definition cloneTemplate (self : ComponentSystem) (name : string) : Result Node :=
  match templates self !! name with
  | Some node => Ok (cloneNode node)
  | None => Throw "TypeError: undefined template"
  end.

Definition setTimeout (task : Task) (delay : nat) : M Browser unit :=
  fun b => (Ok tt, {| elements := elements b; timeouts := timeouts b ++ [(task, delay)] |}).

(** [container.appendChild(fragment)] on an attached element. *)
Definition appendToContainer (container : nat) (fragment : list Node) : M Browser unit :=
  fun b =>
    match elements b !! container with
    | None => (Throw "TypeError: not a node", b)
    | Some el =>
        match appendFragment fragment el with
        | Ok el' => (Ok tt, {| elements := <[container := el']> (elements b);
                               timeouts := timeouts b |})
        | Throw e => (Throw e, b)
        end
    end.

(** Number of children the container has when the call starts: the
    cards of this call are appended after them. *)
Definition childCount (container : nat) : M Browser nat :=
  fun b => (Ok (length (default [] (childNodesOf <$> elements b !! container))), b).

(** The body of the loop in [renderFeatures]: one populated clone. *)
Definition featureCard (self : ComponentSystem) (feature : Feature.t) (index : nat) : Result Node :=
  card <-r cloneTemplate self "feature-card";
  let icon := querySelector ".feature-icon" card in
  let title := querySelector ".feature-title" card in
  let description := querySelector ".feature-description" card in
  card <-r appendChildAt icon (createTextNode (Feature.icon feature)) card;
  card <-r appendChildAt title (createTextNode (Feature.title feature)) card;
  card <-r appendChildAt description (createTextNode (Feature.description feature)) card;
  Ok (setDataset "stagger" (JS.showNat index) card).

Definition renderFeatures (self : ComponentSystem)
    (features : option (list Feature.t)) (container : option nat) : M Browser unit :=
  match container, features with
  | Some container, Some features =>
      fragment <- forEach (fun feature index fragment =>
                    card <- liftR (featureCard self feature index) ;;
                    ret (fragment ++ [card])) features [] ;;
      appendToContainer container fragment
  | _, _ => ret tt
  end.

(** The populated clone of [renderStats] and the reference it keeps to
    the number element. *)
Definition statCard (self : ComponentSystem) (stat : Stat.t) (index : nat)
    : Result (Node * option Path) :=
  card <-r cloneTemplate self "stat-card";
  let numberEl := querySelector ".stat-number" card in
  let labelEl := querySelector ".stat-label" card in
  card <-r setDatasetAt numberEl "target" (Stat.number stat) card;
  card <-r setDatasetAt numberEl "suffix" (JS.orEmpty (Stat.suffix stat)) card;
  card <-r appendChildAt numberEl (createTextNode ("0" +:+ JS.orEmpty (Stat.suffix stat))) card;
  card <-r appendChildAt labelEl (createTextNode (Stat.label stat)) card;
  Ok (setDataset "stagger" (JS.showNat index) card, numberEl).

Definition renderStats (self : ComponentSystem)
    (stats : option (list Stat.t)) (container : option nat) : M Browser unit :=
  match container, stats with
  | Some container, Some stats =>
      first <- childCount container ;;
      fragment <- forEach (fun stat index fragment =>
                    r <- liftR (statCard self stat index) ;;
                    _ <- setTimeout
                           (SetupCounterAnimation container (first + index) (default [] r.2)
                              (Stat.number stat +:+ JS.orEmpty (Stat.suffix stat)))
                           (index * 200) ;;
                    ret (fragment ++ [r.1])) stats [] ;;
      appendToContainer container fragment
  | _, _ => ret tt
  end.

(** [s.padStart(2, '0')]. *)
Definition padStart2 (s : string) : string :=
  match String.length s with
  | 0 => "00"
  | 1 => "0" +:+ s
  | _ => s
  end.

(** [s.toUpperCase()] on the letters a-z. *)
Definition upperChar (c : ascii) : ascii :=
  let n := nat_of_ascii c in
  if ((97 <=? n) && (n <=? 122))%nat then ascii_of_nat (n - 32) else c.

Fixpoint toUpperCase (s : string) : string :=
  match s with
  | EmptyString => EmptyString
  | String c s' => String (upperChar c) (toUpperCase s')
  end.

Section Rendering_dates.
(** What the environment's [Date] gives for a date string:
    [new Date(s).getDate()] ([None] for [NaN]) and
    [new Date(s).toLocaleDateString('en', { month: 'short' })]. *)
Variable getDate : string -> option nat.
Variable monthShort : string -> string.

Definition eventItem (self : ComponentSystem) (event : Event.t) (index : nat) : Result Node :=
  item <-r cloneTemplate self "event-item";
  let typeEl := querySelector ".event-type" item in
  let titleEl := querySelector ".event-title" item in
  let descEl := querySelector ".event-description" item in
  let dayEl := querySelector ".event-day" item in
  let monthEl := querySelector ".event-month" item in
  let day := padStart2 (match getDate (Event.date event) with
                        | Some d => JS.showNat d
                        | None => "NaN"
                        end) in
  let month := toUpperCase (monthShort (Event.date event)) in
  item <-r appendChildAt typeEl (createTextNode (Event.type event)) item;
  item <-r appendChildAt titleEl (createTextNode (Event.title event)) item;
  item <-r appendChildAt descEl (createTextNode (Event.description event)) item;
  item <-r appendChildAt dayEl (createTextNode day) item;
  item <-r appendChildAt monthEl (createTextNode month) item;
  Ok (setDataset "stagger" (JS.showNat index) item).

Definition renderEvents (self : ComponentSystem)
    (events : option (list Event.t)) (container : option nat) : M Browser unit :=
  match container, events with
  | Some container, Some events =>
      fragment <- forEach (fun event index fragment =>
                    item <- liftR (eventItem self event index) ;;
                    ret (fragment ++ [item])) events [] ;;
      appendToContainer container fragment
  | _, _ => ret tt
  end.
End Rendering_dates.

Definition contactItem (self : ComponentSystem) (contact : Contact.t) (index : nat) : Result Node :=
  item <-r cloneTemplate self "contact-item";
  let iconEl := querySelector ".contact-icon" item in
  let titleEl := querySelector "h4" item in
  let valueEl := querySelector ".contact-value" item in
  let descEl := querySelector ".contact-description" item in
  item <-r appendChildAt iconEl (createTextNode (Contact.icon contact)) item;
  item <-r appendChildAt titleEl (createTextNode (Contact.title contact)) item;
  item <-r appendChildAt valueEl (createTextNode (Contact.value contact)) item;
  item <-r appendChildAt descEl (createTextNode (Contact.description contact)) item;
  Ok (setDataset "stagger" (JS.showNat index) item).

Definition renderContactInfo (self : ComponentSystem)
    (contactData : option (list Contact.t)) (container : option nat) : M Browser unit :=
  match container, contactData with
  | Some container, Some contactData =>
      fragment <- forEach (fun contact index fragment =>
                    item <- liftR (contactItem self contact index) ;;
                    ret (fragment ++ [item])) contactData [] ;;
      appendToContainer container fragment
  | _, _ => ret tt
  end.

(** The inner loop of [renderFooterLinks]: one anchor per link. *)
Fixpoint appendLinks (navEl : option Path) (links : list Link.t) (sectionEl : Node) : Result Node :=
  match links with
  | [] => Ok sectionEl
  | link :: links' =>
      let linkEl := createElement "a" "" [] in
      let linkEl := setAttribute "href" (Link.url link) linkEl in
      linkEl <-r appendChild (createTextNode (Link.text link)) linkEl;
      sectionEl <-r appendChildAt navEl linkEl sectionEl;
      appendLinks navEl links' sectionEl
  end.

(** The footer loop does not use its index. *)
Definition footerSection (self : ComponentSystem) (section : FooterSection.t) (index : nat)
    : Result Node :=
  sectionEl <-r cloneTemplate self "footer-section";
  let titleEl := querySelector "h3" sectionEl in
  let navEl := querySelector ".footer-nav" sectionEl in
  sectionEl <-r appendChildAt titleEl (createTextNode (FooterSection.title section)) sectionEl;
  appendLinks navEl (FooterSection.links section) sectionEl.

Definition renderFooterLinks (self : ComponentSystem)
    (footerData : option (list FooterSection.t)) (container : option nat) : M Browser unit :=
  match container, footerData with
  | Some container, Some footerData =>
      fragment <- forEach (fun section index fragment =>
                    sectionEl <- liftR (footerSection self section index) ;;
                    ret (fragment ++ [sectionEl])) footerData [] ;;
      appendToContainer container fragment
  | _, _ => ret tt
  end.

(** The anchors the inner loop of the footer builds, as values. *)
Definition anchors (links : list Link.t) : list Node :=
  map (fun link => Element "a" [] [("href", Link.url link)] [] [Text (Link.text link)]) links.

(** The instance a loop body appends, without the reference it keeps. *)
Definition statInstance (self : ComponentSystem) (stat : Stat.t) (index : nat) : Result Node :=
  r <-r statCard self stat index; Ok r.1.

(** A render call on [records] appended to container [container], in
    input order, one instance per record: the instance of the record at
    position [i] is [instance r i] and its [data-stagger] attribute is
    [stagger i]. *)
Definition appendsInOrder {R : Type} (b b' : Browser) (container : nat) (records : list R)
    (instance : R -> nat -> Result Node) (stagger : nat -> option string) : Prop :=
  exists tag cl attrs st ch cards,
    elements b !! container = Some (Element tag cl attrs st ch)
    /\ elements b' = <[container := Element tag cl attrs st (ch ++ cards)]> (elements b)
    /\ length cards = length records
    /\ forall i r, records !! i = Some r ->
         exists card, cards !! i = Some card
                      /\ instance r i = Ok card
                      /\ dataset "stagger" card = stagger i.

End ComponentSystem.


(** ** AnimationSystem: scroll reveal, counters and one-shot effects *)

Module AnimationSystem.
Import Dom.

(** The callback given to the observer of [setupScrollReveal]. *)
Inductive Callback : Type := revealCallback.

(** The callbacks given to [requestAnimationFrame]. *)
Inductive Frame : Type :=
| fadeInFrame (element : option nat)
| slideUpFrame (element : option nat)
| scaleFrame (element : option nat) (toScale : Q)
| animate (element : option nat) (target suffix : string) (duration startTime : Q)
          (targetNum : option Z).

(** The callbacks given to [setTimeout]. *)
Inductive Timeout : Type :=
| resolve
| pulseEnd (element : option nat).

(** The part of the page the animation system touches: the elements of
    the document by reference, the animation-frame queue, the timers
    registered (callback, delay) and the element helper with its observers. *)
Record Page : Type := {
  elements : gmap nat Node;
  frames : list Frame;
  timeouts : list (Timeout * Z);
  domManager : DOMManager.World Callback
}.

Record AnimationSystem : Type := {
  isReducedMotion : bool;
  isTouch : bool;
  observers : list DOMManager.Handle
}.


(** The page with its elements replaced, everything else as it was. *)
Definition withElements (els : gmap nat Node) (p : Page) : Page :=
  {| elements := els; frames := frames p; timeouts := timeouts p; domManager := domManager p |}.


(** A write through an element reference; [null] (or a reference to
    nothing on the page) throws. *)
Definition onElement (element : option nat) (f : Node -> Node) : M Page unit :=
  fun p =>
    match element with
    | Some el =>
        match elements p !! el with
        | Some _ => (Ok tt, withElements (alter f el (elements p)) p)
        | None => (Throw "TypeError: not an element", p)
        end
    | None => (Throw "TypeError: null element", p)
    end.

(** [domManager.addClass(element, className)]: safe on [null]. *)
Definition addClass (element : option nat) (className : string) : M Page unit :=
  fun p =>
    (Ok tt, {| elements := DOMManager.addClass element className (elements p);
               frames := frames p; timeouts := timeouts p; domManager := domManager p |}).

Definition requestAnimationFrame (f : Frame) : M Page unit :=
  fun p =>
    (Ok tt, {| elements := elements p; frames := frames p ++ [f];
               timeouts := timeouts p; domManager := domManager p |}).

Definition setTimeout (task : Timeout) (delay : Z) : M Page unit :=
  fun p =>
    (Ok tt, {| elements := elements p; frames := frames p;
               timeouts := timeouts p ++ [(task, delay)]; domManager := domManager p |}).

(** *** Scroll reveal *)

Definition revealOptions : DOMManager.Options :=
  {| DOMManager.threshold := Some (1 # 10);
     DOMManager.rootMargin := Some "0px 0px -100px 0px" |}.

(** [setupScrollReveal()]; [now] and [random] are the values of
    [Date.now()] and of the random identifier part at the call. *)
Definition setupScrollReveal (self : AnimationSystem) (now : Z) (random : string)
    (p : Page) : AnimationSystem * Page :=
  if isReducedMotion self then (self, p)
  else
    let (revealObserver, dm) :=
      DOMManager.createIntersectionObserver Callback revealCallback revealOptions
        now random (domManager p) in
    (* Observe all reveal elements *)
    let dm := fold_left (fun dm el => DOMManager.observe Callback revealObserver el dm)
                (DOMManager.querySelectorAllClass "reveal" (elements p)) dm in
    ({| isReducedMotion := isReducedMotion self; isTouch := isTouch self;
        observers := observers self ++ [revealObserver] |},
     {| elements := elements p; frames := frames p; timeouts := timeouts p;
        domManager := dm |}).

(** An entry the browser reports to an observer callback. *)
Record Entry : Type := { target : nat; isIntersecting : bool }.

(** The body of the reveal callback for one entry. *)
Definition revealEntry (els : gmap nat Node) (entry : Entry) : gmap nat Node :=
  if isIntersecting entry then
    let els := DOMManager.addClass (Some (target entry)) "active" els in
    (* Add stagger delay for grouped elements *)
    match els !! target entry with
    | Some el =>
        if JS.truthy (dataset "stagger" el) then
          let delay := (fun k => k * 100)%Z <$> JS.parseInt (default "" (dataset "stagger" el)) in
          alter (setStyle "transitionDelay" (JS.showNumber delay +:+ "ms")) (target entry) els
        else els
    | None => els
    end
  else els.

(** What the reveal callback makes of an intersecting target, as one
    function on the element: the class, then the delay when the element
    has a stagger value. *)
Definition revealNode (el : Node) : Node :=
  let el := classListAdd "active" el in
  if JS.truthy (dataset "stagger" el) then
    let delay := (fun k => k * 100)%Z <$> JS.parseInt (default "" (dataset "stagger" el)) in
    setStyle "transitionDelay" (JS.showNumber delay +:+ "ms") el
  else el.

Definition runCallback (cb : Callback) (entries : list Entry) (els : gmap nat Node)
    : gmap nat Node :=
  match cb with
  | revealCallback => fold_left revealEntry entries els
  end.

(** The browser reports a batch of entries to the observer object
    [observer]: only targets the observer watches are reported. *)
Definition deliver (observer : nat) (entries : list Entry) (p : Page) : Page :=
  match DOMManager.heap Callback (domManager p) !! observer with
  | Some o =>
      let reported :=
        filter (fun e => target e ∈ DOMManager.targets Callback o) entries in
      {| elements := runCallback (DOMManager.callback Callback o) reported (elements p);
         frames := frames p; timeouts := timeouts p; domManager := domManager p |}
  | None => p
  end.

(** A scroll history: batches of entries, each reported to one observer. *)
Definition deliverAll (batches : list (nat * list Entry)) (p : Page) : Page :=
  fold_left (fun p b => deliver b.1 b.2 p) batches p.

(** The browser's root rectangle along the vertical axis, for a viewport
    of height [viewport]: the viewport grown by the top and bottom
    margins of [rootMargin] (top, right, bottom, left; a negative margin
    shrinks it).  Coordinates grow downwards from the top of the viewport. *)
Definition margin (side : nat) (opts : DOMManager.Options) : Z :=
  default 0%Z (tokens (default "" (DOMManager.rootMargin opts)) !! side ≫= JS.parseInt).

Definition rootTop (opts : DOMManager.Options) : Z := (0 - margin 0 opts)%Z.

Definition rootBottom (opts : DOMManager.Options) (viewport : Z) : Z :=
  (viewport + margin 2 opts)%Z.

(** Height of the part of an element (its top edge at [top], [height]
    tall) that lies inside the root rectangle. *)
Definition overlap (opts : DOMManager.Options) (viewport top height : Z) : Z :=
  Z.max 0 (Z.min (top + height) (rootBottom opts viewport) - Z.max top (rootTop opts))%Z.

(** The browser reports the element as intersecting when part of it is
    inside the root rectangle and the visible share reaches the threshold. *)
Definition intersects (opts : DOMManager.Options) (viewport top height : Z) : bool :=
  (0 <? overlap opts viewport top height)%Z
  && Qle_bool (default 0%Q (DOMManager.threshold opts) * inject_Z height)
              (inject_Z (overlap opts viewport top height)).

(** What [setupScrollReveal] establishes, for the page [p] it ran on,
    the page [p'] it left and the observer object [observer] it created:
    the observer is configured with threshold 0.1 and the root margin of
    the source, so that its root rectangle ends 100px above the bottom
    of the viewport and an element is reported only when it has come
    further than that into the viewport; it watches every element that
    had the class [reveal]; a batch that reports a watched element as
    intersecting leaves it active, with a transition delay of 100 ms
    times its stagger index; and an active element stays active through
    every later batch. *)
Definition revealContract (p p' : Page) (observer : nat) : Prop :=
  exists o,
    DOMManager.heap Callback (domManager p') !! observer = Some o
    /\ DOMManager.callback Callback o = revealCallback
    /\ DOMManager.options Callback o = revealOptions
    /\ (forall el node, elements p !! el = Some node -> hasClass "reveal" node = true ->
                        el ∈ DOMManager.targets Callback o)
    /\ (forall viewport,
          rootTop (DOMManager.options Callback o) = 0%Z
          /\ rootBottom (DOMManager.options Callback o) viewport = (viewport - 100)%Z)
    /\ (forall viewport top height,
          intersects (DOMManager.options Callback o) viewport top height = true ->
          (top < viewport - 100)%Z)
    /\ (forall q entries el node,
          domManager q = domManager p' ->
          el ∈ DOMManager.targets Callback o ->
          elements q !! el = Some node ->
          isElement node = true ->
          {| target := el; isIntersecting := true |} ∈ entries ->
          exists node',
            elements (deliver observer entries q) !! el = Some node'
            /\ hasClass "active" node' = true
            /\ forall k, dataset "stagger" node = Some (JS.showNat k) ->
                         getStyle "transitionDelay" node'
                         = Some (JS.showZ (Z.of_nat k * 100) +:+ "ms"))
    /\ (forall q batches el node,
          elements q !! el = Some node ->
          hasClass "active" node = true ->
          exists node',
            elements (deliverAll batches q) !! el = Some node'
            /\ hasClass "active" node' = true).

(** *** Counter *)

(** [animateCounter(element, target, suffix = '', duration = 2000)];
    [now] is the value of [performance.now()] at the call.  Times are
    exact rationals; [duration] is meant positive. *)
Definition animateCounter (self : AnimationSystem) (element : option nat)
    (target suffix : string) (duration : Q) (now : Q) : M Page unit :=
  if isReducedMotion self then
    onElement element (setTextContent (target +:+ suffix))
  else
    let startTime := now in
    let targetNum := JS.parseInt (JS.stripNonDigits target) in
    requestAnimationFrame (animate element target suffix duration startTime targetNum).

(** The number a frame at [currentTime] computes. *)
Definition counterCurrent (targetNum : option Z) (duration startTime currentTime : Q)
    : option Z :=
  let start := 0%Q in
  let elapsed := (currentTime - startTime)%Q in
  let progress := Qmin (elapsed / duration) 1 in
  (* Easing function *)
  let easeOutQuart := (1 - Qpower (1 - progress) 4)%Q in
  (fun T => Qfloor (start + inject_Z T * easeOutQuart)) <$> targetNum.


(** *** One-shot effects *)

Section Effects.
(** How a number is written inside a template string. *)
Variable numberToString : Q -> string.





(** [pulse(element)]. *)
Definition pulse (self : AnimationSystem) (element : option nat) : M Page unit :=
  if isReducedMotion self then ret tt
  else
    _ <- addClass element "pulse" ;;
    setTimeout (pulseEnd element) 600.

End Effects.

End AnimationSystem.

(** ** TeqpodApp: form field validation *)

Module TeqpodApp.
Import Dom.

(** A field value is a sequence of UTF-16 code units. *)
Definition Char : Type := N.

(** The characters [\s] matches and [trim()] removes: white space and
    line terminators. *)
Definition isWhiteSpace (c : Char) : bool :=
  ((9 <=? c) && (c <=? 13) || (c =? 32) || (c =? 160) || (c =? 5760)
   || (8192 <=? c) && (c <=? 8202) || (c =? 8232) || (c =? 8233)
   || (c =? 8239) || (c =? 8287) || (c =? 12288) || (c =? 65279))%N.

Fixpoint trimStart (s : list Char) : list Char :=
  match s with
  | c :: s' => if isWhiteSpace c then trimStart s' else s
  | [] => []
  end.

Definition trim (s : list Char) : list Char := rev (trimStart (rev (trimStart s))).

(** Regular expressions over code units, and matching of a whole string
    by derivatives. *)
Inductive Regex : Type :=
| Void
| Eps
| Chr (p : Char -> bool)
| Cat (r1 r2 : Regex)
| Alt (r1 r2 : Regex)
| Star (r : Regex).

Definition Plus (r : Regex) : Regex := Cat r (Star r).

Fixpoint nullable (r : Regex) : bool :=
  match r with
  | Void => false
  | Eps => true
  | Chr _ => false
  | Cat r1 r2 => nullable r1 && nullable r2
  | Alt r1 r2 => nullable r1 || nullable r2
  | Star _ => true
  end.

Fixpoint derive (c : Char) (r : Regex) : Regex :=
  match r with
  | Void => Void
  | Eps => Void
  | Chr p => if p c then Eps else Void
  | Cat r1 r2 =>
      if nullable r1 then Alt (Cat (derive c r1) r2) (derive c r2)
      else Cat (derive c r1) r2
  | Alt r1 r2 => Alt (derive c r1) (derive c r2)
  | Star r' => Cat (derive c r') (Star r')
  end.

(** [/^r$/.test(s)]. *)
Fixpoint test (r : Regex) (s : list Char) : bool :=
  match s with
  | [] => nullable r
  | c :: s' => test (derive c r) s'
  end.

(** [[^\s@]]. *)
Definition notSpaceNorAt (c : Char) : bool := negb (isWhiteSpace c || (c =? 64)%N).

(** [/^[^\s@]+@[^\s@]+\.[^\s@]+$/]. *)
Definition emailRegex : Regex :=
  Cat (Plus (Chr notSpaceNorAt))
    (Cat (Chr (N.eqb 64))
      (Cat (Plus (Chr notSpaceNorAt))
        (Cat (Chr (N.eqb 46))
          (Plus (Chr notSpaceNorAt))))).

(** The strings a regular expression matches as a whole. *)
Inductive Matches : Regex -> list Char -> Prop :=
| MatchesEps : Matches Eps []
| MatchesChr p c : p c = true -> Matches (Chr p) [c]
| MatchesCat r1 r2 s1 s2 :
    Matches r1 s1 -> Matches r2 s2 -> Matches (Cat r1 r2) (s1 ++ s2)
| MatchesAltL r1 r2 s : Matches r1 s -> Matches (Alt r1 r2) s
| MatchesAltR r1 r2 s : Matches r2 s -> Matches (Alt r1 r2) s
| MatchesStarNil r : Matches (Star r) []
| MatchesStarCons r s1 s2 :
    Matches r s1 -> Matches (Star r) s2 -> Matches (Star r) (s1 ++ s2).

(** The pattern in words: one or more characters that are neither white
    space nor [@], then [@], then one or more such characters, then a
    dot, then one or more such characters. *)
Definition emailShape (v : list Char) : Prop :=
  exists a b c,
    v = a ++ [64%N] ++ b ++ [46%N] ++ c
    /\ a <> [] /\ b <> [] /\ c <> []
    /\ Forall (fun x => notSpaceNorAt x = true) a
    /\ Forall (fun x => notSpaceNorAt x = true) b
    /\ Forall (fun x => notSpaceNorAt x = true) c.

(** A form field: its value, its [type], whether it has the [required]
    attribute, and [closest('.form-group')] ([None] for [null]). *)
Record Field : Type := {
  value : list Char;
  type : string;
  required : bool;
  formGroup : option nat
}.

(** [validateField(field)] on the elements of the page. *)
Definition validateField (field : Field) (elements : gmap nat Node) : bool * gmap nat Node :=
  let value := trim (value field) in
  let fieldType := type field in
  let isValid := true in
  (* Required field check *)
  let isValid := if required field && bool_decide (value = []) then false else isValid in
  (* Email validation *)
  let isValid :=
    if String.eqb fieldType "email" && negb (bool_decide (value = [])) then
      if negb (test emailRegex value) then false else isValid
    else isValid in
  (* Visual feedback *)
  let formGroup := formGroup field in
  if isValid then (isValid, DOMManager.removeClass formGroup "error" elements)
  else (isValid, DOMManager.addClass formGroup "error" elements).

(** [validateForm(form)]: every required input is validated, none is skipped. *)
Definition validateForm (inputs : list Field) (elements : gmap nat Node) : bool * gmap nat Node :=
  fold_left (fun acc input =>
               let (ok, els) := validateField input acc.2 in
               (if ok then acc.1 else false, els))
            inputs (true, elements).

End TeqpodApp.


(** ** The rest of the element helper *)

Module ElementHelper.
Import Dom DOMManager.



Section Template_cache.
Variable Callback : Type.

(** [createTemplate(templateId, createFunction)]: the function runs only
    when the identifier has no template yet; the stored template is
    returned as a clone. *)
Definition createTemplate (templateId : string) (createFunction : unit -> Node)
    (w : World Callback) : Node * World Callback :=
  let w :=
    match templates Callback w !! templateId with
    | Some _ => w
    | None =>
        {| heap := heap Callback w; observers := observers Callback w;
           templates := <[templateId := createFunction tt]> (templates Callback w) |}
    end in
  (cloneNode (default (Text "") (templates Callback w !! templateId)), w).
End Template_cache.



Section Call_patterns.
Variable Args : Type.

(** A burst for a debounced function: calls in time order, the first not
    before time 0, each less than [wait] after the one before. *)
Fixpoint burstFrom (wait : Z) (previous : Z) (calls : list (Z * Args)) : Prop :=
  match calls with
  | [] => True
  | call :: rest =>
      (previous <= call.1 < previous + wait)%Z /\ burstFrom wait call.1 rest
  end.

Definition burst (wait : Z) (calls : list (Z * Args)) : Prop :=
  match calls with
  | [] => True
  | call :: rest => (0 <= call.1)%Z /\ burstFrom wait call.1 rest
  end.
End Call_patterns.

(** A timer queue in firing order: no timer is due before one registered
    ahead of it, and identifiers are distinct. *)
Fixpoint inOrder {T : Type} (l : list (nat * Z * T)) : Prop :=
  match l with
  | [] => True
  | x :: l' => Forall (fun y => (x.1.2 <= y.1.2)%Z /\ y.1.1 <> x.1.1) l' /\ inOrder l'
  end.

End ElementHelper.

(** ** The rest of the animation system *)

Module MotionController.
Import Dom AnimationSystem.


(** *** Smooth scroll *)





(** *** Animation frames *)

Section Frames.
Variable numberToString : Q -> string.


End Frames.

(** States of a page while one counter runs on it, compared with the
    page [base] it started on: [counterRunning] when the callback
    [scheduled] is the only one queued, [counterDone] when nothing is
    queued and the element shows [text]; either way the other elements
    are those of [base]. *)
Definition counterRunning (scheduled : Frame) (element : nat) (base p : Page) : Prop :=
  frames p = [scheduled]
  /\ (exists node, elements p !! element = Some node)
  /\ forall other, other <> element -> elements p !! other = elements base !! other.

Definition counterDone (element : nat) (text : string) (base p : Page) : Prop :=
  frames p = []
  /\ textContent <$> elements p !! element = Some text
  /\ forall other, other <> element -> elements p !! other = elements base !! other.

(** *** Stagger *)

(** The timer callback [() => domManager.addClass(el, className)]. *)
Inductive StaggerTask : Type := addClassLater (el : nat) (className : string).

Definition staggerTarget (task : StaggerTask) : nat :=
  match task with addClassLater el _ => el end.

(** The timers and the elements of the page. *)
Definition Stage : Type := (DOMManager.Timers StaggerTask * gmap nat Node)%type.

Definition runStagger (task : StaggerTask) (s : Stage) : Stage :=
  match task with
  | addClassLater el className => (s.1, DOMManager.addClass (Some el) className s.2)
  end.

(** The loop of the animated branch, from index [index]. *)
Fixpoint staggerFrom (elements : list nat) (index : nat) (className : string) (delay : Z)
    (q : DOMManager.Timers StaggerTask) : DOMManager.Timers StaggerTask :=
  match elements with
  | [] => q
  | el :: rest =>
      staggerFrom rest (S index) className delay
        (DOMManager.setTimeout (addClassLater el className) (Z.of_nat index * delay) q).2
  end.

(** [staggerAnimation(elements, className = 'active', delay = 100)]. *)
Definition staggerAnimation (self : AnimationSystem) (elements : list nat)
    (className : string) (delay : Z) (s : Stage) : Stage :=
  if isReducedMotion self then
    (s.1, fold_left (fun els el => DOMManager.addClass (Some el) className els) elements s.2)
  else
    (staggerFrom elements 0 className delay s.1, s.2).

(** *** Cursor *)

(** The variables shared by the handlers of [setupCursor], the cursor
    element, and the identifier of the frame requested last
    ([this.animationFrameId], [None] for [null]) with the next
    identifier the browser hands out. *)
Record Cursor : Type := {
  mouseX : Q; mouseY : Q;
  cursorX : Q; cursorY : Q;
  cursor : Node;
  animationFrameId : option nat;
  nextFrameId : nat
}.


(** [handleMouseLeave()]. *)
Definition handleMouseLeave (c : Cursor) : Cursor :=
  {| mouseX := mouseX c; mouseY := mouseY c;
     cursorX := cursorX c; cursorY := cursorY c;
     cursor := classListRemove "active" (cursor c);
     animationFrameId := animationFrameId c; nextFrameId := nextFrameId c |}.

Section Cursor_frames.
Variable numberToString : Q -> string.

End Cursor_frames.

End MotionController.

(** ** The rest of the page controller *)

Module PageController.
Import Dom.

(** [siteData]: the parsed JSON; a key may be missing. *)
Record SiteData : Type := {
  stats : option (list Stat.t);
  features : option (list Feature.t);
  events : option (list Event.t);
  contact : option (list Contact.t);
  footer : option (list FooterSection.t)
}.

(** [this.elements] as [cacheElements] fills it: [getElementById] gives
    a reference or [null], [querySelectorAll] a list of references. *)
Record Elements : Type := {
  loadingScreen : option nat;
  navbar : option nat;
  navMenu : option nat;
  mobileToggle : option nat;
  navLinks : list nat;
  statsGrid : option nat;
  featuresGrid : option nat;
  eventsContainer : option nat;
  contactInfo : option nat;
  footerLinks : option nat;
  contactForm : option nat;
  formInputs : list nat;
  sections : list nat
}.

(** The fields of a [TeqpodApp]. *)
Record App : Type := {
  siteData : option SiteData;
  isInitialized : bool;
  elements : Elements;
  currentSection : string
}.

Definition withCurrentSection (sectionId : string) (self : App) : App :=
  {| siteData := siteData self; isInitialized := isInitialized self;
     elements := elements self; currentSection := sectionId |}.

(** *** Rendering *)

Section Rendering.
Variable getDate : string -> option nat.
Variable monthShort : string -> string.

(** The body of the [try] block of [renderContent]. *)
Definition renderAll (self : App) (data : SiteData) : M ComponentSystem.Browser unit :=
  (* Render all components *)
  _ <- ComponentSystem.renderStats ComponentSystem.componentSystem
         (stats data) (statsGrid (elements self)) ;;
  _ <- ComponentSystem.renderFeatures ComponentSystem.componentSystem
         (features data) (featuresGrid (elements self)) ;;
  _ <- ComponentSystem.renderEvents getDate monthShort ComponentSystem.componentSystem
         (events data) (eventsContainer (elements self)) ;;
  _ <- ComponentSystem.renderContactInfo ComponentSystem.componentSystem
         (contact data) (contactInfo (elements self)) ;;
  ComponentSystem.renderFooterLinks ComponentSystem.componentSystem
    (footer data) (footerLinks (elements self)).

(** [renderContent()]: an exception of the block is caught and logged,
    what the block did before it stays. *)
Definition renderContent (self : App) : M ComponentSystem.Browser unit :=
  fun b =>
    match siteData self with
    | None => (Ok tt, b)
    | Some data => (Ok tt, (renderAll self data b).2)
    end.
End Rendering.

(** What one render call of [renderContent] does: it appends the
    instances of the records when both the container and the records are
    there, and leaves the elements alone otherwise. *)
Definition rendersInto {R : Type} (b b' : ComponentSystem.Browser)
    (container : option nat) (records : option (list R))
    (instance : R -> nat -> Result Node) (stagger : nat -> option string) : Prop :=
  match container, records with
  | Some container, Some records =>
      ComponentSystem.appendsInOrder b b' container records instance stagger
  | _, _ => ComponentSystem.elements b' = ComponentSystem.elements b
  end.

(** Every container that [cacheElements] found is an element of the page. *)
Definition containersAttached (self : App) (b : ComponentSystem.Browser) : Prop :=
  forall container,
    Some container ∈ [statsGrid (elements self); featuresGrid (elements self);
                      eventsContainer (elements self); contactInfo (elements self);
                      footerLinks (elements self)] ->
    exists node, ComponentSystem.elements b !! container = Some node /\ isElement node = true.

(** *** Navigation *)












(** What [updateActiveNavigation(sectionId)] makes of one link. *)
Definition markLink (sectionId : string) (link : Node) : Node :=
  let link := classListRemove "active" link in
  if bool_decide (getAttribute "href" link = Some ("#" +:+ sectionId))
  then classListAdd "active" link
  else link.

(** [updateActiveNavigation(sectionId)]. *)
Definition updateActiveNavigation (self : App) (sectionId : string)
    (els : gmap nat Node) : App * gmap nat Node :=
  (withCurrentSection sectionId self,
   fold_left (fun els link =>
                let els := DOMManager.removeClass (Some link) "active" els in
                if bool_decide (els !! link ≫= getAttribute "href" = Some ("#" +:+ sectionId))
                then DOMManager.addClass (Some link) "active" els
                else els)
             (navLinks (elements self)) els).

(** An entry reported to the section observer: the [id] of its target
    and whether it intersects. *)
Record SectionEntry : Type := { targetId : string; isIntersecting : bool }.

(** The callback [setupSectionObserver] gives to its observer. *)
Definition sectionCallback (entries : list SectionEntry) (s : App * gmap nat Node)
    : App * gmap nat Node :=
  fold_left (fun s entry =>
               if isIntersecting entry
               then updateActiveNavigation s.1 (targetId entry) s.2
               else s) entries s.

(** [handleScroll()], with the value of [window.pageYOffset]. *)
Definition handleScroll (self : App) (pageYOffset : Q) (els : gmap nat Node) : gmap nat Node :=
  let scrollY := pageYOffset in
  (* Update navbar appearance *)
  if Qlt_le_dec 100 scrollY
  then DOMManager.addClass (navbar (elements self)) "scrolled" els
  else DOMManager.removeClass (navbar (elements self)) "scrolled" els.

(** *** The contact form *)

(** A form: its inputs in document order with their current values
    (every one a [.form-input]), the value each goes back to on
    [reset()], the elements inside that may be form groups, and what
    [querySelector('button[type="submit"]')] finds. *)
Record Form : Type := {
  inputs : list TeqpodApp.Field;
  defaults : list (list TeqpodApp.Char);
  groups : list nat;
  submitButton : option nat
}.

(** The page around the form: the elements by reference, the elements
    whose [disabled] property is set, and the notifications created so
    far (message, type). *)
Record FormPage : Type := {
  current : Form;
  pageNodes : gmap nat Node;
  disabledNodes : gset nat;
  notifications : list (string * string)
}.

(** [componentSystem.createNotification(message, type)], as far as the
    form handler is concerned. *)
Definition notify (message type : string) (p : FormPage) : FormPage :=
  {| current := current p; pageNodes := pageNodes p; disabledNodes := disabledNodes p;
     notifications := notifications p ++ [(message, type)] |}.

Definition withNodes (els : gmap nat Node) (p : FormPage) : FormPage :=
  {| current := current p; pageNodes := els; disabledNodes := disabledNodes p;
     notifications := notifications p |}.

(** [this.validateForm(form)]: the inputs are those of
    [form.querySelectorAll('.form-input[required]')]. *)
Definition validateFormOf (p : FormPage) : bool * FormPage :=
  let inputs := filter (fun input => TeqpodApp.required input = true) (inputs (current p)) in
  let (isValid, els) := TeqpodApp.validateForm inputs (pageNodes p) in
  (isValid, withNodes els p).

(** [form.reset()]: every input goes back to its default value. *)
Definition resetValues (f : Form) : Form :=
  {| inputs :=
       imap (fun i input =>
               {| TeqpodApp.value := default (TeqpodApp.value input) (defaults f !! i);
                  TeqpodApp.type := TeqpodApp.type input;
                  TeqpodApp.required := TeqpodApp.required input;
                  TeqpodApp.formGroup := TeqpodApp.formGroup input |}) (inputs f);
     defaults := defaults f; groups := groups f; submitButton := submitButton f |}.

(** [form.querySelectorAll('.form-group.c')]. *)
Definition isGroupWith (c : string) (els : gmap nat Node) (g : nat) : bool :=
  match els !! g with
  | Some n => hasClass "form-group" n && hasClass c n
  | None => false
  end.

Definition groupsWith (c : string) (f : Form) (els : gmap nat Node) : list nat :=
  filter (fun g => isGroupWith c els g = true) (groups f).

(** [resetForm(form)]. *)
Definition resetForm (p : FormPage) : FormPage :=
  let f := resetValues (current p) in
  (* Remove focused states *)
  let els := fold_left (fun els group => DOMManager.removeClass (Some group) "focused" els)
               (groupsWith "focused" f (pageNodes p)) (pageNodes p) in
  (* Clear errors *)
  let els := fold_left (fun els group => DOMManager.removeClass (Some group) "error" els)
               (groupsWith "error" f els) els in
  {| current := f; pageNodes := els; disabledNodes := disabledNodes p;
     notifications := notifications p |}.

(** Where a call of [handleFormSubmit] stands when it hands control
    back: it threw (its promise is rejected), it returned, or it waits
    for [submitForm]; its closure then keeps the button and its text. *)
Inductive Submission : Type :=
| rejected (error : string)
| returned
| awaiting (submitBtn : nat) (originalText : string).

(** [handleFormSubmit(e)] up to the [await]. *)
Definition handleFormSubmit (p : FormPage) : Submission * FormPage :=
  match submitButton (current p) ≫= (fun btn => (fun node => (btn, node)) <$> pageNodes p !! btn)
  with
  | None => (rejected "TypeError: null has no textContent", p)
  | Some (submitBtn, node) =>
      let originalText := textContent node in
      (* Validation *)
      let (isValid, p) := validateFormOf p in
      if negb isValid then
        (returned, notify "Please fill in all required fields correctly." "error" p)
      else
        (* Show loading state *)
        let els := alter (setTextContent "Sending...") submitBtn (pageNodes p) in
        let els := DOMManager.addClass (Some submitBtn) "loading" els in
        (awaiting submitBtn originalText,
         {| current := current p; pageNodes := els;
            disabledNodes := {[submitBtn]} ∪ disabledNodes p;
            notifications := notifications p |})
  end.

(** The rest of [handleFormSubmit], run when the timer of [submitForm]
    has fired; [random] is the value of [Math.random()] there: the
    promise is resolved above 0.1 and rejected otherwise. *)
Definition resumeFormSubmit (submitBtn : nat) (originalText : string) (random : Q)
    (p : FormPage) : FormPage :=
  let p :=
    if Qlt_le_dec (1 # 10) random then
      (* Success *)
      resetForm (notify "🚀 Message sent successfully! We'll get back to you soon." "success" p)
    else
      notify "Failed to send message. Please try again." "error" p in
  (* Reset button state *)
  let els := alter (setTextContent originalText) submitBtn (pageNodes p) in
  let els := DOMManager.removeClass (Some submitBtn) "loading" els in
  {| current := current p; pageNodes := els;
     disabledNodes := disabledNodes p ∖ {[submitBtn]};
     notifications := notifications p |}.

End PageController.

(** ** The rest of the template renderer *)

Module TemplateRenderer.
Import Dom DOMManager.

(** The callback [setupCounterAnimation] gives to its observer; its
    closure keeps the element and the target text. *)
Inductive CounterCallback : Type := counterCallback (element : nat) (target : string).

(** The page of the animation system and the observers created for
    counters. *)
Record CounterState : Type := {
  page : AnimationSystem.Page;
  counters : World CounterCallback
}.

Definition onPage {A : Type} (m : M AnimationSystem.Page A) : M CounterState A :=
  fun s =>
    let (r, p) := m (page s) in
    (r, {| page := p; counters := counters s |}).

Definition onCounters (f : World CounterCallback -> World CounterCallback)
    : M CounterState unit :=
  fun s => (Ok tt, {| page := page s; counters := f (counters s) |}).

Definition counterOptions : Options := {| threshold := Some (1 # 2); rootMargin := None |}.

(** [setupCounterAnimation(element, target)]; [now] and [random] are the
    values of [Date.now()] and of the random identifier part. *)
Definition setupCounterAnimation (element : nat) (target : string) (now : Z) (random : string)
    (w : World CounterCallback) : World CounterCallback :=
  let (observer, w) :=
    createIntersectionObserver CounterCallback (counterCallback element target)
      counterOptions now random w in
  observe CounterCallback observer element w.

(** The body of the callback, run for the observer object [observer]
    while [performance.now()] is [now]; the handle the closure keeps
    forwards [unobserve] to that object.  [animateCounter] is called
    with its default suffix and duration. *)
Definition runCounterCallback (self : AnimationSystem.AnimationSystem) (observer : nat)
    (cb : CounterCallback) (now : Q) (entries : list AnimationSystem.Entry)
    : M CounterState unit :=
  match cb with
  | counterCallback element target =>
      forEach (fun entry _ _ =>
                 if AnimationSystem.isIntersecting entry then
                   _ <- onPage (AnimationSystem.animateCounter self (Some element) target
                                  "" 2000 now) ;;
                   onCounters (onHeap CounterCallback
                                 (unobserveObject CounterCallback element) observer)
                 else ret tt) entries tt
  end.

(** The browser reports a batch of entries to the observer object
    [observer] at time [now]: only targets the observer watches are
    reported; an exception of the callback ends it. *)
Definition deliverCounter (self : AnimationSystem.AnimationSystem) (observer : nat)
    (s : CounterState) (batch : Q * list AnimationSystem.Entry) : CounterState :=
  match heap CounterCallback (counters s) !! observer with
  | Some o =>
      let reported :=
        filter (fun e => AnimationSystem.target e ∈ targets CounterCallback o) batch.2 in
      (runCounterCallback self observer (callback CounterCallback o) batch.1 reported s).2
  | None => s
  end.

Definition deliverCounters (self : AnimationSystem.AnimationSystem) (observer : nat)
    (batches : list (Q * list AnimationSystem.Entry)) (s : CounterState) : CounterState :=
  fold_left (deliverCounter self observer) batches s.

(** Number of entries of a batch that report [element] as intersecting. *)
Definition sightings (element : nat) (entries : list AnimationSystem.Entry) : nat :=
  length (filter (fun e => AnimationSystem.isIntersecting e = true
                           /\ AnimationSystem.target e = element) entries).

(** *** Notifications *)

Definition colors : list (string * string) :=
  [("success", "linear-gradient(135deg, #10b981, #059669)");
   ("error", "linear-gradient(135deg, #ef4444, #dc2626)");
   ("warning", "linear-gradient(135deg, #f59e0b, #d97706)");
   ("info", "linear-gradient(135deg, #3b82f6, #1d4ed8)")].

(** [getNotificationBG(type)], for a [type] that does not name a
    property every object inherits. *)
Definition getNotificationBG (type : string) : string :=
  match lookupKey type colors with
  | Some color => color
  | None => default "" (lookupKey "info" colors)
  end.

(** [Object.assign(el.style, styles)]. *)
Definition assignStyles (styles : list (string * string)) (n : Node) : Node :=
  fold_left (fun n kv => setStyle kv.1 kv.2 n) styles n.

(** The element [createNotification(message, type)] builds, as it is
    when it is attached; the close button is reached through the
    content (child 0), where it is child 1. *)
Definition notificationElement (message type : string) : Result Node :=
  let notification := createElement "div" ("notification notification-" +:+ type) [] in
  (* Create content *)
  let content := createElement "div" "notification-content" [] in
  let text := createElement "span" "notification-text" [] in
  let closeBtn := createElement "button" "notification-close" [] in
  text <-r appendChild (createTextNode message) text;
  closeBtn <-r appendChild (createTextNode "×") closeBtn;
  content <-r appendChildren content [text; closeBtn];
  notification <-r appendChild content notification;
  (* Add styles *)
  let notification :=
    assignStyles
      [("position", "fixed"); ("top", "20px"); ("right", "20px");
       ("background", getNotificationBG type); ("color", "white");
       ("padding", "1rem 1.5rem"); ("borderRadius", "12px");
       ("boxShadow", "0 10px 25px rgba(0,0,0,0.2)"); ("zIndex", "10000");
       ("transform", "translateX(400px)"); ("transition", "transform 0.3s ease");
       ("maxWidth", "400px"); ("display", "flex"); ("alignItems", "center");
       ("gap", "1rem")] notification in
  let notification :=
    updateAt [0; 1]%nat
      (assignStyles
         [("background", "none"); ("border", "none"); ("color", "white");
          ("fontSize", "1.2rem"); ("cursor", "pointer"); ("padding", "0");
          ("marginLeft", "auto")]) notification in
  Ok notification.

(** The timer callbacks of a notification: [remove] and
    [() => domManager.removeElement(notification)]. *)
Inductive NotificationTask : Type :=
| remove (notification : nat)
| removeElement (notification : nat).

(** The frame callback of a notification. *)
Inductive NotificationFrame : Type := slideIn (notification : nat).

(** The notification elements created so far, by reference; the
    children of [document.body] among them; the frame callbacks
    requested. *)
Record Screen : Type := {
  created : list Node;
  bodyChildren : list nat;
  slideFrames : list NotificationFrame
}.

Definition Notifications : Type := (Timers NotificationTask * Screen)%type.

(** [createNotification(message, type = 'info')]: the new element is
    returned by reference. *)
Definition createNotification (message type : string) (s : Notifications)
    : Result (nat * Notifications) :=
  element <-r notificationElement message type;
  let notification := length (created s.2) in
  (* Add to DOM *)
  let screen := {| created := created s.2 ++ [element];
                   bodyChildren := bodyChildren s.2 ++ [notification];
                   (* Animate in *)
                   slideFrames := slideFrames s.2 ++ [slideIn notification] |} in
  (* Auto remove *)
  let (_, q) := setTimeout (remove notification) 5000 s.1 in
  Ok (notification, (q, screen)).

(** The body of a timer callback. *)
Definition runNotification (task : NotificationTask) (s : Notifications) : Notifications :=
  match task with
  | remove notification =>
      let screen :=
        {| created := alter (setStyle "transform" "translateX(400px)") notification
                        (created s.2);
           bodyChildren := bodyChildren s.2; slideFrames := slideFrames s.2 |} in
      let (_, q) := setTimeout (removeElement notification) 300 s.1 in
      (q, screen)
  | removeElement notification =>
      (* only an element that has a parent is removed *)
      (s.1, {| created := created s.2;
               bodyChildren := filter (fun child => child ≠ notification) (bodyChildren s.2);
               slideFrames := slideFrames s.2 |})
  end.

(** A click on the close button of a notification. *)
Definition clickClose (notification : nat) (s : Notifications) : Notifications :=
  runNotification (remove notification) s.

(** The clock reaches [time]: the timers due by then fire, [fuel] of
    them at most. *)
Definition elapse (fuel : nat) (time : Z) (s : Notifications) : Notifications :=
  let s := fireDue runNotification fuel time s in
  ({| now := Z.max (now s.1) time; nextId := nextId s.1; pending := pending s.1 |}, s.2).

(** The timer identifiers in use are distinct and below the next one. *)
Definition timersFresh (q : Timers NotificationTask) : Prop :=
  (forall x y, x ∈ pending q -> y ∈ pending q -> x.1.1 = y.1.1 -> x = y)
  /\ Forall (fun t => (t.1.1 < nextId q)%nat) (pending q).

(** The notification a timer callback works on. *)
Definition taskTarget (task : NotificationTask) : nat :=
  match task with
  | remove notification => notification
  | removeElement notification => notification
  end.

(** Every pending timer belongs to a notification that was created. *)
Definition timersKnown (s : Notifications) : Prop :=
  Forall (fun t => (taskTarget t.2 < length (created s.2))%nat) (pending s.1).

(** A bound on the number of timers still to fire: a pending [remove]
    stands for itself and for the timer it registers. *)
Definition taskLoad (task : NotificationTask) : nat :=
  match task with
  | remove _ => 2
  | removeElement _ => 1
  end.

Fixpoint timerLoad (l : list (nat * Z * NotificationTask)) : nat :=
  match l with
  | [] => 0
  | t :: l' => taskLoad t.2 + timerLoad l'
  end.

(** [container.removeChild(container.firstChild)]. *)
Definition removeFirstChild (n : Node) : Node :=
  match n with
  | Element t cl a st (_ :: ch) => Element t cl a st ch
  | _ => n
  end.

(** The loop [while (container.firstChild) ...] with a bound on the
    number of iterations; [None] when the bound is reached. *)
Fixpoint clearLoop (fuel : nat) (n : Node) : option Node :=
  match childNodesOf n with
  | [] => Some n
  | _ :: _ =>
      match fuel with
      | O => None
      | S fuel' => clearLoop fuel' (removeFirstChild n)
      end
  end.

(** [clearContainer(container)]. *)
Definition clearContainer (fuel : nat) (container : option nat)
    (b : ComponentSystem.Browser) : option ComponentSystem.Browser :=
  match container with
  | Some c =>
      match ComponentSystem.elements b !! c with
      | Some n =>
          n' ← clearLoop fuel n;
          Some {| ComponentSystem.elements := <[c := n']> (ComponentSystem.elements b);
                  ComponentSystem.timeouts := ComponentSystem.timeouts b |}
      | None => Some b
      end
  | None => Some b
  end.

(** An element without its children. *)
Definition emptied (n : Node) : Node :=
  match n with
  | Element t cl a st _ => Element t cl a st []
  | Text _ => n
  end.

End TemplateRenderer.


(** * Properties *)

(** ** Template rendering *)

Section Rendering_facts.
Import Dom DOMManager ComponentSystem.

Lemma new_componentSystem self : new = Ok self -> self = componentSystem.
Proof. intros H. unfold componentSystem. now rewrite H. Qed.

Lemma new_succeeds : new = Ok componentSystem.
Proof. vm_compute. reflexivity. Qed.

(** Each loop body succeeds on the cached templates and produces the
    populated clone below. *)
Lemma featureCard_eq feature index :
  featureCard componentSystem feature index =
  Ok (Element "div" ["feature-card"; "reveal"] [("data-stagger", JS.showNat index)] []
        [Element "div" ["feature-icon"] [] [] [Text (Feature.icon feature)];
         Element "h3" ["feature-title"] [] [] [Text (Feature.title feature)];
         Element "p" ["feature-description"] [] [] [Text (Feature.description feature)]]).
Proof. vm_compute. reflexivity. Qed.

Lemma statCard_eq stat index :
  statCard componentSystem stat index =
  Ok (Element "div" ["stat-card"; "reveal"] [("data-stagger", JS.showNat index)] []
        [Element "div" ["stat-number"]
           [("data-target", Stat.number stat);
            ("data-suffix", JS.orEmpty (Stat.suffix stat))] []
           [Text ("0" +:+ JS.orEmpty (Stat.suffix stat))];
         Element "div" ["stat-label"] [] [] [Text (Stat.label stat)]],
      Some [0]).
Proof. destruct stat as [number [suffix|] label]; vm_compute; reflexivity. Qed.

Lemma eventItem_eq getDate monthShort event index :
  eventItem getDate monthShort componentSystem event index =
  Ok (Element "div" ["event-item"; "reveal"] [("data-stagger", JS.showNat index)] []
        [Element "div" ["event-content"] [] []
           [Element "div" ["event-card"] [] []
              [Element "div" ["event-type"] [] [] [Text (Event.type event)];
               Element "h3" ["event-title"] [] [] [Text (Event.title event)];
               Element "p" ["event-description"] [] [] [Text (Event.description event)]]];
         Element "div" ["event-date"] [] []
           [Element "div" ["event-day"] [] []
              [Text (padStart2 (match getDate (Event.date event) with
                                | Some d => JS.showNat d
                                | None => "NaN"
                                end))];
            Element "div" ["event-month"] [] []
              [Text (toUpperCase (monthShort (Event.date event)))]]]).
Proof. reflexivity. Qed.

Lemma contactItem_eq contact index :
  contactItem componentSystem contact index =
  Ok (Element "div" ["contact-item"; "reveal"] [("data-stagger", JS.showNat index)] []
        [Element "div" ["contact-icon"] [] [] [Text (Contact.icon contact)];
         Element "div" ["contact-details"] [] []
           [Element "h4" [] [] [] [Text (Contact.title contact)];
            Element "div" ["contact-value"] [] [] [Text (Contact.value contact)];
            Element "div" ["contact-description"] [] [] [Text (Contact.description contact)]]]).
Proof. vm_compute. reflexivity. Qed.

Lemma appendLinks_eq links : forall title before,
  appendLinks (Some [1]) links
    (Element "div" ["footer-section"] [] []
       [Element "h3" [] [] [] [Text title];
        Element "div" ["footer-nav"] [] [] before]) =
  Ok (Element "div" ["footer-section"] [] []
        [Element "h3" [] [] [] [Text title];
         Element "div" ["footer-nav"] [] [] (before ++ anchors links)]).
Proof.
  induction links as [|link links IH]; intros title before; simpl.
  - now rewrite app_nil_r.
  - rewrite IH. now rewrite <- app_assoc.
Qed.

Lemma footerSection_eq section index :
  footerSection componentSystem section index =
  Ok (Element "div" ["footer-section"] [] []
        [Element "h3" [] [] [] [Text (FooterSection.title section)];
         Element "div" ["footer-nav"] [] [] (anchors (FooterSection.links section))]).
Proof.
  unfold footerSection.
  change (cloneTemplate componentSystem "footer-section")
    with (Ok (Element "div" ["footer-section"] [] []
                [Element "h3" [] [] [] []; Element "div" ["footer-nav"] [] [] []])).
  cbn -[appendLinks]. apply (appendLinks_eq _ _ []).
Qed.

(** The loop of a render function: every body succeeds, so the fragment
    grows by one instance per record, in order, and the page is not
    touched before the fragment is appended. *)
Lemma forEachFrom_instances {St R : Type} (instance : R -> nat -> Result Node) :
  (forall r i, exists card, instance r i = Ok card) ->
  forall (records : list R) (index : nat) (acc : list Node) (s : St),
    forEachFrom (fun r i fragment =>
                   card <- liftR (instance r i) ;; ret (fragment ++ [card]))
                records index acc s
    = (Ok (acc ++ imap (fun i r => match instance r (index + i) with
                                   | Ok card => card
                                   | Throw _ => Text ""
                                   end) records), s).
Proof.
  intros Hok records. induction records as [|r records IH]; intros index acc s.
  - simpl. now rewrite app_nil_r.
  - simpl. unfold bind at 1. unfold liftR at 1. unfold bind at 1.
    destruct (Hok r index) as [card Hcard]. rewrite Hcard. unfold ret at 1.
    rewrite IH. rewrite <- app_assoc. simpl. rewrite Nat.add_0_r, Hcard.
    do 4 f_equal. apply imap_ext. intros i x _. simpl. now rewrite Nat.add_succ_r.
Qed.

Lemma appendToContainer_element b container tag cl attrs st ch fragment :
  elements b !! container = Some (Element tag cl attrs st ch) ->
  appendToContainer container fragment b
  = (Ok tt, {| elements := <[container := Element tag cl attrs st (ch ++ fragment)]> (elements b);
               timeouts := timeouts b |}).
Proof. intros H. unfold appendToContainer. now rewrite H. Qed.

(** The shape shared by [renderFeatures], [renderEvents],
    [renderContactInfo] and [renderFooterLinks]. *)
Lemma render_loop_appends {R : Type} (instance : R -> nat -> Result Node)
    (stagger : nat -> option string) b container node records :
  elements b !! container = Some node ->
  isElement node = true ->
  (forall r i, exists card, instance r i = Ok card /\ dataset "stagger" card = stagger i) ->
  exists b',
    (fragment <- forEach (fun r i fragment =>
                   card <- liftR (instance r i) ;; ret (fragment ++ [card])) records [] ;;
     appendToContainer container fragment) b = (Ok tt, b')
    /\ timeouts b' = timeouts b
    /\ appendsInOrder b b' container records instance stagger.
Proof.
  intros Hc Hel Hok. destruct node as [|tag cl attrs st ch]; [discriminate|].
  assert (Hok' : forall r i, exists card, instance r i = Ok card).
  { intros r i. destruct (Hok r i) as [card [H _]]. eauto. }
  eexists. unfold forEach. unfold bind at 1.
  rewrite (forEachFrom_instances instance Hok').
  rewrite (appendToContainer_element _ _ _ _ _ _ _ _ Hc). simpl.
  split; [reflexivity|]. split; [reflexivity|].
  exists tag, cl, attrs, st, ch. eexists. split; [exact Hc|]. split; [reflexivity|].
  split; [apply length_imap|].
  intros i r Hr. rewrite list_lookup_imap, Hr. simpl.
  destruct (Hok r i) as [card [H1 H2]]. rewrite H1. eauto.
Qed.

(** The loop of [renderStats] also registers one timer per record. *)
Lemma forEachFrom_stats container first (stats : list Stat.t) :
  forall index acc b,
    forEachFrom (fun stat index fragment =>
                   r <- liftR (statCard componentSystem stat index) ;;
                   _ <- setTimeout
                          (SetupCounterAnimation container (first + index) (default [] r.2)
                             (Stat.number stat +:+ JS.orEmpty (Stat.suffix stat)))
                          (index * 200) ;;
                   ret (fragment ++ [r.1]))
                stats index acc b
    = (Ok (acc ++ imap (fun i stat =>
                          match statInstance componentSystem stat (index + i) with
                          | Ok card => card
                          | Throw _ => Text ""
                          end) stats),
       {| elements := elements b;
          timeouts := timeouts b ++
            imap (fun i stat =>
                    (SetupCounterAnimation container (first + (index + i)) [0]
                       (Stat.number stat +:+ JS.orEmpty (Stat.suffix stat)),
                     (index + i) * 200)) stats |}).
Proof.
  induction stats as [|stat stats IH]; intros index acc b.
  - simpl. rewrite !app_nil_r. now destruct b.
  - cbn [forEachFrom]. unfold bind at 1. unfold liftR at 1. rewrite statCard_eq.
    unfold bind at 1. unfold setTimeout at 1. unfold bind at 1. unfold ret at 1.
    rewrite IH. cbn [elements timeouts fst snd default]. rewrite !imap_cons.
    unfold statInstance at 2. rewrite !Nat.add_0_r, statCard_eq.
    cbn [bindR fst]. rewrite <- !app_assoc. cbn [app].
    f_equal; do 3 f_equal; apply imap_ext; intros i x _; unfold compose;
      now replace (S index + i) with (index + S i) by lia.
Qed.

Lemma renderStats_appends b container node stats :
  elements b !! container = Some node ->
  isElement node = true ->
  exists b',
    renderStats componentSystem (Some stats) (Some container) b = (Ok tt, b')
    /\ timeouts b' = timeouts b ++
         imap (fun i stat =>
                 (SetupCounterAnimation container (length (childNodesOf node) + i) [0]
                    (Stat.number stat +:+ JS.orEmpty (Stat.suffix stat)),
                  i * 200)) stats
    /\ appendsInOrder b b' container stats (statInstance componentSystem)
         (fun i => Some (JS.showNat i)).
Proof.
  intros Hc Hel. destruct node as [|tag cl attrs st ch]; [discriminate|].
  eexists. unfold renderStats, forEach. unfold bind at 1. unfold childCount at 1.
  unfold bind at 1. rewrite forEachFrom_stats. unfold appendToContainer. simpl. rewrite Hc. simpl.
  split; [reflexivity|]. split; [reflexivity|].
  exists tag, cl, attrs, st, ch. eexists. split; [exact Hc|]. split; [reflexivity|].
  split; [apply length_imap|].
  intros i r Hr. rewrite list_lookup_imap, Hr. simpl.
  unfold statInstance. rewrite statCard_eq. simpl. eauto.
Qed.

Lemma text_append_empty (s : string) : s +:+ "" = s.
Proof.
  induction s as [|c s IH]; [reflexivity|].
  change (String c s +:+ "") with (String c (s +:+ "")). now rewrite IH.
Qed.

(** C1, as stated, fails for the footer: the section element appended by
    [renderFooterLinks] for the first record carries no [data-stagger]
    attribute at all, where the claim wants the index 0. *)
Lemma footer_instance_without_stagger :
  let section := {| FooterSection.title := "Company";
                    FooterSection.links := [{| Link.text := "About"; Link.url := "#about" |}] |} in
  let b := {| elements := <[0 := Element "div" [] [("id", "footer-links")] [] []]> ∅;
              timeouts := [] |} in
  exists b' instance,
    renderFooterLinks componentSystem (Some [section]) (Some 0) b = (Ok tt, b')
    /\ childNodesOf <$> elements b' !! 0 = Some [instance]
    /\ footerSection componentSystem section 0 = Ok instance
    /\ dataset "stagger" instance = None
    /\ dataset "stagger" instance <> Some (JS.showNat 0).
Proof.
  intros section b. eexists. eexists.
  split; [vm_compute; reflexivity|].
  split; [vm_compute; reflexivity|].
  split; [vm_compute; reflexivity|].
  split; [vm_compute; reflexivity | vm_compute; discriminate].
Qed.

(** C1 (amended): for features, stats, events and contact entries, a
    render call into a present container appends exactly one instance per
    record, in input order, and the instance of the record at position
    [i] carries [data-stagger = i]; for the footer the same holds except
    that the appended sections carry no [data-stagger] attribute. *)
Theorem render_appends_instances_in_order :
  forall self getDate monthShort (b : Browser) container node,
    new = Ok self ->
    elements b !! container = Some node ->
    isElement node = true ->
    (forall features, exists b',
        renderFeatures self (Some features) (Some container) b = (Ok tt, b')
        /\ appendsInOrder b b' container features (featureCard self)
             (fun i => Some (JS.showNat i)))
    /\ (forall stats, exists b',
        renderStats self (Some stats) (Some container) b = (Ok tt, b')
        /\ appendsInOrder b b' container stats (statInstance self)
             (fun i => Some (JS.showNat i)))
    /\ (forall events, exists b',
        renderEvents getDate monthShort self (Some events) (Some container) b = (Ok tt, b')
        /\ appendsInOrder b b' container events (eventItem getDate monthShort self)
             (fun i => Some (JS.showNat i)))
    /\ (forall contactData, exists b',
        renderContactInfo self (Some contactData) (Some container) b = (Ok tt, b')
        /\ appendsInOrder b b' container contactData (contactItem self)
             (fun i => Some (JS.showNat i)))
    /\ (forall footerData, exists b',
        renderFooterLinks self (Some footerData) (Some container) b = (Ok tt, b')
        /\ appendsInOrder b b' container footerData (footerSection self)
             (fun _ => None)).
Proof.
  intros self getDate monthShort b container node Hnew Hc Hel.
  apply new_componentSystem in Hnew. subst self.
  repeat split.
  - intros features.
    destruct (render_loop_appends (featureCard componentSystem)
                (fun i => Some (JS.showNat i)) b container node features Hc Hel)
      as [b' [H1 [_ H2]]]; [|exists b'; split; [exact H1 | exact H2]].
    intros r i. rewrite featureCard_eq. eexists. split; reflexivity.
  - intros stats.
    destruct (renderStats_appends b container node stats Hc Hel) as [b' [H1 [_ H2]]].
    exists b'. split; [exact H1 | exact H2].
  - intros events.
    destruct (render_loop_appends (eventItem getDate monthShort componentSystem)
                (fun i => Some (JS.showNat i)) b container node events Hc Hel)
      as [b' [H1 [_ H2]]]; [|exists b'; split; [exact H1 | exact H2]].
    intros r i. rewrite eventItem_eq. eexists. split; reflexivity.
  - intros contactData.
    destruct (render_loop_appends (contactItem componentSystem)
                (fun i => Some (JS.showNat i)) b container node contactData Hc Hel)
      as [b' [H1 [_ H2]]]; [|exists b'; split; [exact H1 | exact H2]].
    intros r i. rewrite contactItem_eq. eexists. split; reflexivity.
  - intros footerData.
    destruct (render_loop_appends (footerSection componentSystem)
                (fun _ => None) b container node footerData Hc Hel)
      as [b' [H1 [_ H2]]]; [|exists b'; split; [exact H1 | exact H2]].
    intros r i. rewrite footerSection_eq. eexists. split; reflexivity.
Qed.

Lemma render_appends_instances_in_order_witness :
  let b := {| elements := <[0 := Element "div" [] [("id", "features-grid")] [] []]> ∅;
              timeouts := [] |} in
  let features := [ {| Feature.icon := "A"; Feature.title := "Learn"; Feature.description := "x" |};
                    {| Feature.icon := "B"; Feature.title := "Build"; Feature.description := "y" |} ] in
  exists b',
    renderFeatures componentSystem (Some features) (Some 0) b = (Ok tt, b')
    /\ appendsInOrder b b' 0 features (featureCard componentSystem)
         (fun i => Some (JS.showNat i)).
Proof.
  intros b features.
  refine (proj1 (render_appends_instances_in_order componentSystem (fun _ => None) (fun s => s)
                   b 0 (Element "div" [] [("id", "features-grid")] [] []) _ _ _) features).
  - vm_compute. reflexivity.
  - vm_compute. reflexivity.
  - reflexivity.
Defined.

(** C6: a render call whose container is [null] or whose records are
    absent returns normally and leaves the page (every element, every
    timer) as it was. *)
Theorem render_absent_is_noop :
  forall self getDate monthShort (b : Browser),
    (forall records, renderFeatures self records None b = (Ok tt, b))
    /\ (forall container, renderFeatures self None container b = (Ok tt, b))
    /\ (forall records, renderStats self records None b = (Ok tt, b))
    /\ (forall container, renderStats self None container b = (Ok tt, b))
    /\ (forall records, renderEvents getDate monthShort self records None b = (Ok tt, b))
    /\ (forall container, renderEvents getDate monthShort self None container b = (Ok tt, b))
    /\ (forall records, renderContactInfo self records None b = (Ok tt, b))
    /\ (forall container, renderContactInfo self None container b = (Ok tt, b))
    /\ (forall records, renderFooterLinks self records None b = (Ok tt, b))
    /\ (forall container, renderFooterLinks self None container b = (Ok tt, b)).
Proof.
  intros self getDate monthShort b.
  repeat split; intros x; try reflexivity; destruct x; reflexivity.
Qed.

(** C9: every card [renderStats] appends for a stat record has the label
    text in its label slot, the text "0" followed by the suffix (nothing
    for a missing suffix) in its number slot, and the true number in the
    [data-target] attribute of the number slot; the render call also
    registers the timer that later sets up the counter of that number
    element towards number and suffix.  For the record 42 / % / Growth
    the label reads "Growth" and the number slot reads "0%". *)
Theorem stat_card_slots :
  forall self (b : Browser) container node stats,
    new = Ok self ->
    elements b !! container = Some node ->
    isElement node = true ->
    exists b' cards,
      renderStats self (Some stats) (Some container) b = (Ok tt, b')
      /\ childNodesOf <$> elements b' !! container = Some (childNodesOf node ++ cards)
      /\ length cards = length stats
      /\ forall i stat, stats !! i = Some stat ->
           exists card numberEl labelEl number label,
             cards !! i = Some card
             /\ querySelector ".stat-number" card = Some numberEl
             /\ querySelector ".stat-label" card = Some labelEl
             /\ nodeAt numberEl card = Some number
             /\ nodeAt labelEl card = Some label
             /\ childNodesOf label = [Text (Stat.label stat)]
             /\ textContent label = Stat.label stat
             /\ childNodesOf number = [Text ("0" +:+ JS.orEmpty (Stat.suffix stat))]
             /\ textContent number = "0" +:+ JS.orEmpty (Stat.suffix stat)
             /\ dataset "target" number = Some (Stat.number stat)
             /\ dataset "suffix" number = Some (JS.orEmpty (Stat.suffix stat))
             /\ (SetupCounterAnimation container (length (childNodesOf node) + i) numberEl
                   (Stat.number stat +:+ JS.orEmpty (Stat.suffix stat)), i * 200)
                 ∈ timeouts b'
             /\ (stat = {| Stat.number := "42"; Stat.suffix := Some "%";
                           Stat.label := "Growth" |} ->
                 textContent label = "Growth" /\ textContent number = "0%").
Proof.
  intros self b container node stats Hnew Hc Hel.
  apply new_componentSystem in Hnew. subst self.
  destruct (renderStats_appends b container node stats Hc Hel)
    as (b' & Hrun & Htimers & tag & cl & attrs & st & ch & cards & Hc' & Hb' & Hlen & Hcards).
  rewrite Hc in Hc'. injection Hc' as ->.
  exists b', cards. split; [exact Hrun|].
  split; [rewrite Hb', lookup_insert_eq; reflexivity|].
  split; [exact Hlen|].
  intros i stat Hstat. destruct (Hcards i stat Hstat) as (card & Hcard & Hinst & _).
  unfold statInstance in Hinst. rewrite statCard_eq in Hinst. cbn [bindR fst] in Hinst.
  injection Hinst as <-.
  do 5 eexists. split; [exact Hcard|].
  split; [reflexivity|]. split; [reflexivity|].
  split; [reflexivity|]. split; [reflexivity|].
  split; [reflexivity|].
  split; [cbn [textContent fold_right]; apply text_append_empty|].
  split; [reflexivity|].
  split; [cbn [textContent fold_right]; apply text_append_empty|].
  split; [reflexivity|]. split; [reflexivity|].
  split.
  { rewrite Htimers. apply elem_of_app. right. apply list_elem_of_lookup. exists i.
    rewrite list_lookup_imap, Hstat. reflexivity. }
  intros ->. split; reflexivity.
Qed.

Lemma stat_card_slots_witness :
  let stats := [ {| Stat.number := "42"; Stat.suffix := Some "%"; Stat.label := "Growth" |} ] in
  let node := Element "div" [] [("id", "stats-grid")] [] [] in
  let b := {| elements := <[0 := node]> ∅; timeouts := [] |} in
  exists b' cards,
    renderStats componentSystem (Some stats) (Some 0) b = (Ok tt, b')
    /\ childNodesOf <$> elements b' !! 0 = Some (childNodesOf node ++ cards)
    /\ length cards = length stats
    /\ forall i stat, stats !! i = Some stat ->
         exists card numberEl labelEl number label,
           cards !! i = Some card
           /\ querySelector ".stat-number" card = Some numberEl
           /\ querySelector ".stat-label" card = Some labelEl
           /\ nodeAt numberEl card = Some number
           /\ nodeAt labelEl card = Some label
           /\ childNodesOf label = [Text (Stat.label stat)]
           /\ textContent label = Stat.label stat
           /\ childNodesOf number = [Text ("0" +:+ JS.orEmpty (Stat.suffix stat))]
           /\ textContent number = "0" +:+ JS.orEmpty (Stat.suffix stat)
           /\ dataset "target" number = Some (Stat.number stat)
           /\ dataset "suffix" number = Some (JS.orEmpty (Stat.suffix stat))
           /\ (SetupCounterAnimation 0 (length (childNodesOf node) + i) numberEl
                 (Stat.number stat +:+ JS.orEmpty (Stat.suffix stat)), i * 200)
               ∈ timeouts b'
           /\ (stat = {| Stat.number := "42"; Stat.suffix := Some "%";
                         Stat.label := "Growth" |} ->
               textContent label = "Growth" /\ textContent number = "0%").
Proof.
  intros stats node b.
  apply (stat_card_slots componentSystem b 0 node stats).
  - vm_compute. reflexivity.
  - vm_compute. reflexivity.
  - reflexivity.
Defined.

(** The end-to-end example evaluated: one stat record rendered into an
    empty grid. *)
Example stat_growth_rendered :
  let stats := [ {| Stat.number := "42"; Stat.suffix := Some "%"; Stat.label := "Growth" |} ] in
  let b := {| elements := <[0 := Element "div" [] [("id", "stats-grid")] [] []]> ∅;
              timeouts := [] |} in
  let b' := (renderStats componentSystem (Some stats) (Some 0) b).2 in
  elements b' !! 0
  = Some (Element "div" [] [("id", "stats-grid")] []
            [Element "div" ["stat-card"; "reveal"] [("data-stagger", "0")] []
               [Element "div" ["stat-number"]
                  [("data-target", "42"); ("data-suffix", "%")] [] [Text "0%"];
                Element "div" ["stat-label"] [] [] [Text "Growth"]]])
  /\ timeouts b' = [(SetupCounterAnimation 0 0 [0] "42%", 0)].
Proof. vm_compute. split; reflexivity. Qed.

End Rendering_facts.

(** ** Debounce and throttle *)

Section Debounce_facts.
Import DOMManager.
Context {Args : Type}.
Variable wait : Z.

Lemma onePending_fire s t :
  onePending Args s -> earliest (pending s.1) = Some t ->
  pending (fire (runLater Args) t s).1 = [].
Proof.
  intros [Hnil | (i & d & a & Hp & Ht)] He.
  - rewrite Hnil in He. discriminate.
  - rewrite Hp in He. simpl in He. injection He as <-.
    unfold fire, runLater. cbn [fst snd]. rewrite Hp, Ht.
    unfold clearTimeout. cbn [pending fst snd].
    rewrite filter_cons. cbn [fst snd]. destruct (decide (i ≠ i)); [congruence|].
    reflexivity.
Qed.

Lemma onePending_fireDue fuel time s :
  onePending Args s -> onePending Args (fireDue (runLater Args) fuel time s).
Proof.
  revert s. induction fuel as [|fuel IH]; intros s Hs; [exact Hs|].
  simpl. destruct (earliest (pending s.1)) as [t|] eqn:He; [|exact Hs].
  destruct (t.1.2 <=? time)%Z; [|exact Hs].
  apply IH. left. now apply onePending_fire.
Qed.

Lemma onePending_advanceTo time s :
  onePending Args s -> onePending Args (advanceTo (runLater Args) time s).
Proof.
  intros Hs. apply (onePending_fireDue (length (pending s.1)) time) in Hs.
  unfold advanceTo. exact Hs.
Qed.

(** A call leaves exactly one pending timer: its own. *)
Lemma debouncedCall_pending a s :
  onePending Args s ->
  pending (debouncedCall Args wait a s).1
    = [(nextId s.1, (now s.1 + Z.max 0 wait)%Z, later Args a)]
  /\ timeout Args (debouncedCall Args wait a s).2 = Some (nextId s.1)
  /\ debounceCalls Args (debouncedCall Args wait a s).2 = debounceCalls Args s.2.
Proof.
  intros Hs. unfold debouncedCall, setTimeout.
  assert (Hclear : pending (clearTimeout (timeout Args s.2) s.1) = []).
  { destruct Hs as [Hnil | (i & d & a' & Hp & Ht)].
    - unfold clearTimeout. destruct (timeout Args s.2); [|exact Hnil].
      cbn [pending]. now rewrite Hnil.
    - rewrite Ht. unfold clearTimeout. cbn [pending]. rewrite Hp.
      rewrite filter_cons. cbn [fst snd]. destruct (decide (i ≠ i)); [congruence|].
      reflexivity. }
  cbn [fst snd pending]. rewrite Hclear.
  destruct (timeout Args s.2); split; try reflexivity; split; reflexivity.
Qed.

Lemma onePending_debounceAt s call :
  onePending Args s -> onePending Args (debounceAt Args wait s call).
Proof.
  intros Hs. unfold debounceAt. right.
  destruct (debouncedCall_pending call.2 _ (onePending_advanceTo call.1 s Hs)) as [H1 [H2 _]].
  eauto.
Qed.

Lemma onePending_calls calls :
  onePending Args (fold_left (debounceAt Args wait) calls (debounce Args)).
Proof.
  induction calls as [|call calls IH] using rev_ind.
  - left. reflexivity.
  - rewrite fold_left_app. simpl. now apply onePending_debounceAt.
Qed.

(** The fuel given to the event loop is enough: once the clock has
    reached [time], no pending timer is due at or before [time]. *)
Lemma debounce_advanceTo_fires_due time s :
  onePending Args s ->
  Forall (fun t => (time < t.1.2)%Z) (pending (advanceTo (runLater Args) time s).1).
Proof.
  intros Hs. unfold advanceTo. cbn [fst pending].
  destruct Hs as [Hnil | (i & d & a & Hp & Ht)].
  - rewrite Hnil. cbn. rewrite Hnil. constructor.
  - rewrite Hp. cbn [length fireDue]. rewrite Hp. cbn [earliest fst snd].
    destruct (d <=? time)%Z eqn:Hd.
    + rewrite (onePending_fire s (i, d, later Args a)).
      * constructor.
      * right. eauto.
      * now rewrite Hp.
    + rewrite Hp. constructor; [|constructor]. cbn. apply Z.leb_gt in Hd. exact Hd.
Qed.

End Debounce_facts.

(** C7: debounce fires on the trailing edge only, keeps a single pending
    call, and that call carries the arguments of the most recent
    invocation.  After any history of invocations ending with arguments
    [a], [func] was not called by the invocation itself and exactly one
    timer is pending, due one [wait] after the invocation, holding [a];
    and invocations at 0, 50 and 90 with wait 100 make [func] run exactly
    once, at 190, with the arguments given at 90. *)
Theorem debounce_trailing_edge :
  forall (Args : Type),
    (forall wait calls time (a : Args),
        let before := DOMManager.advanceTo (DOMManager.runLater Args) time
                        (fold_left (DOMManager.debounceAt Args wait) calls
                           (DOMManager.debounce Args)) in
        let after := fold_left (DOMManager.debounceAt Args wait) (calls ++ [(time, a)])
                       (DOMManager.debounce Args) in
        DOMManager.debounceCalls Args after.2 = DOMManager.debounceCalls Args before.2
        /\ exists id,
            DOMManager.pending after.1
              = [(id, (DOMManager.now before.1 + Z.max 0 wait)%Z, DOMManager.later Args a)]
            /\ DOMManager.timeout Args after.2 = Some id)
    /\ (forall a0 a50 a90 : Args,
        let calls := [(0%Z, a0); (50%Z, a50); (90%Z, a90)] in
        let s := fold_left (DOMManager.debounceAt Args 100) calls (DOMManager.debounce Args) in
        let final := DOMManager.settle (DOMManager.runLater Args)
                       (length (DOMManager.pending s.1)) s in
        DOMManager.debounceRun Args 100 calls = [(190%Z, a90)]
        /\ DOMManager.debounceCalls Args final.2 = [(190%Z, a90)]
        /\ DOMManager.pending final.1 = []).
Proof.
  intros Args. split.
  - intros wait calls time a before after.
    unfold after. rewrite fold_left_app. cbn [fold_left].
    unfold DOMManager.debounceAt at 1. cbn [fst snd]. fold before.
    destruct (debouncedCall_pending wait a before) as [H1 [H2 H3]].
    { unfold before. apply onePending_advanceTo, onePending_calls. }
    split; [exact H3|]. eauto.
  - intros a0 a50 a90. repeat split; reflexivity.
Qed.

Section Throttle_facts.
Import DOMManager.
Context {Args : Type}.
Variable limit : Z.

Lemma spaced_snoc (log : list (Z * Args)) (call : Z * Args) :
  spaced Args limit log ->
  (forall prev, last log = Some prev -> (prev.1 + Z.max 0 limit <= call.1)%Z) ->
  spaced Args limit (log ++ [call]).
Proof.
  induction log as [|x log IH]; intros Hs Hlast.
  - simpl. auto.
  - destruct log as [|y log].
    + simpl. split; [|auto]. apply Hlast. reflexivity.
    + destruct Hs as [Hxy Hs]. split; [exact Hxy|].
      apply IH; [exact Hs|]. intros prev Hp. apply Hlast. exact Hp.
Qed.

Lemma windowInvariant_fireDue fuel time s :
  windowInvariant Args limit s -> windowInvariant Args limit (fireDue (runReset Args) fuel time s).
Proof.
  revert s. induction fuel as [|fuel IH]; intros s Hs; [exact Hs|].
  simpl. destruct (earliest (pending s.1)) as [t|] eqn:He; [|exact Hs].
  destruct (t.1.2 <=? time)%Z; [|exact Hs].
  apply IH. destruct Hs as [Hsp Hw]. split; [exact Hsp|].
  destruct (inThrottle Args s.2) eqn:Hin.
  - destruct Hw as (i & call & Hlast & Hp). rewrite Hp in He. simpl in He.
    injection He as <-. unfold fire, runReset. cbn [fst snd inThrottle throttleCalls pending now].
    rewrite Hp, filter_cons. cbn [fst snd]. destruct (decide (i ≠ i)); [congruence|].
    split; [reflexivity|]. intros call' Hc. rewrite Hlast in Hc. injection Hc as <-. lia.
  - destruct Hw as [Hp _]. rewrite Hp in He. discriminate.
Qed.

Lemma windowInvariant_advanceTo time s :
  windowInvariant Args limit s -> windowInvariant Args limit (advanceTo (runReset Args) time s).
Proof.
  intros Hs. apply (windowInvariant_fireDue (length (pending s.1)) time) in Hs.
  unfold advanceTo. destruct Hs as [Hsp Hw]. split; [exact Hsp|].
  cbn [fst snd pending now]. destruct (inThrottle Args _); [exact Hw|].
  destruct Hw as [Hp Hl]. split; [exact Hp|]. intros call Hc. specialize (Hl call Hc). lia.
Qed.

Lemma windowInvariant_throttledCall a s :
  windowInvariant Args limit s -> windowInvariant Args limit (throttledCall Args limit a s).
Proof.
  intros [Hsp Hw]. unfold throttledCall.
  destruct (inThrottle Args s.2) eqn:Hin.
  - split; [exact Hsp|]. now rewrite Hin.
  - destruct Hw as [Hp Hl]. unfold setTimeout. cbv zeta. cbn [fst snd inThrottle throttleCalls pending].
    split.
    + apply spaced_snoc; [exact Hsp|]. exact Hl.
    + simpl. exists (nextId s.1), (now s.1, a). rewrite last_snoc, Hp. split; reflexivity.
Qed.

Lemma windowInvariant_calls calls :
  windowInvariant Args limit (fold_left (throttleAt Args limit) calls (throttle Args)).
Proof.
  induction calls as [|call calls IH] using rev_ind.
  - split; [exact I|]. split; [reflexivity|]. intros call H. discriminate.
  - rewrite fold_left_app. simpl. unfold throttleAt at 1.
    now apply windowInvariant_throttledCall, windowInvariant_advanceTo.
Qed.

(** The fuel given to the event loop is enough: once the clock has
    reached [time], no pending timer is due at or before [time]. *)
Lemma throttle_advanceTo_fires_due time s :
  windowInvariant Args limit s ->
  Forall (fun t => (time < t.1.2)%Z) (pending (advanceTo (runReset Args) time s).1).
Proof.
  intros [_ Hw]. unfold advanceTo. cbn [fst pending].
  destruct (inThrottle Args s.2) eqn:Hin.
  - destruct Hw as (i & call & _ & Hp). rewrite Hp. cbn [length fireDue]. rewrite Hp.
    cbn [earliest fst snd].
    destruct (call.1 + Z.max 0 limit <=? time)%Z eqn:Hd.
    + unfold fire, runReset. cbn [fst snd pending]. rewrite Hp, filter_cons. cbn [fst snd].
      destruct (decide (i ≠ i)); [congruence | constructor].
    + rewrite Hp. constructor; [|constructor]. cbn. apply Z.leb_gt in Hd. exact Hd.
  - destruct Hw as [Hp _]. rewrite Hp. cbn. rewrite Hp. constructor.
Qed.

End Throttle_facts.

(** C8: throttle fires on the leading edge, at most once per window, and
    drops the calls made while the window is open.  A call outside the
    window runs [func] at once and opens a window; a call inside it
    changes nothing (no call of [func], no timer); over any history the
    calls of [func] are at least [limit] apart; and invocations at 0, 5
    and 15 with limit 10 run [func] at 0 and at 15, never for the
    invocation at 5. *)
Theorem throttle_leading_edge :
  forall (Args : Type),
    (forall limit (a : Args) s,
        DOMManager.throttledCall Args limit a s
        = if DOMManager.inThrottle Args s.2 then s
          else ({| DOMManager.now := DOMManager.now s.1;
                   DOMManager.nextId := S (DOMManager.nextId s.1);
                   DOMManager.pending :=
                     DOMManager.pending s.1 ++
                     [(DOMManager.nextId s.1,
                       (DOMManager.now s.1 + Z.max 0 limit)%Z, DOMManager.reset)] |},
                {| DOMManager.inThrottle := true;
                   DOMManager.throttleCalls :=
                     DOMManager.throttleCalls Args s.2 ++ [(DOMManager.now s.1, a)] |}))
    /\ (forall limit calls,
        DOMManager.spaced Args limit
          (DOMManager.throttleCalls Args
             (fold_left (DOMManager.throttleAt Args limit) calls (DOMManager.throttle Args)).2))
    /\ (forall a0 a5 a15 : Args,
        let calls := [(0%Z, a0); (5%Z, a5); (15%Z, a15)] in
        let s := fold_left (DOMManager.throttleAt Args 10) calls (DOMManager.throttle Args) in
        let final := DOMManager.settle (DOMManager.runReset Args)
                       (length (DOMManager.pending s.1)) s in
        DOMManager.throttleRun Args 10 calls = [(0%Z, a0); (15%Z, a15)]
        /\ DOMManager.throttleCalls Args final.2 = [(0%Z, a0); (15%Z, a15)]
        /\ DOMManager.pending final.1 = []).
Proof.
  intros Args. split; [|split].
  - intros limit a s. unfold DOMManager.throttledCall.
    destruct (DOMManager.inThrottle Args s.2); reflexivity.
  - intros limit calls. apply (windowInvariant_calls limit calls).
  - intros a0 a5 a15. repeat split; reflexivity.
Qed.

(** ** The observer registry *)

Section Registry_facts.
Import DOMManager.
Context {Callback : Type}.

Local Abbreviation disconnectEach l w :=
  (foldr (fun (entry : string * nat) w => onHeap Callback (disconnectObject Callback) entry.2 w) w l).

Lemma disconnectEach_maps (l : list (string * nat)) (w : World Callback) :
  observers Callback (disconnectEach l w) = observers Callback w
  /\ templates Callback (disconnectEach l w) = templates Callback w.
Proof. induction l as [|x l IH]; [split; reflexivity | exact IH]. Qed.

(** Disconnecting a list of registry entries never re-attaches targets,
    and every observer object named by an entry is disconnected. *)
Lemma disconnectEach_heap (l : list (string * nat)) (w : World Callback) r o :
  heap Callback w !! r = Some o ->
  exists o', heap Callback (disconnectEach l w) !! r = Some o'
             /\ disconnects Callback o <= disconnects Callback o'
             /\ (targets Callback o = [] -> targets Callback o' = [])
             /\ (r ∈ l.*2 -> targets Callback o' = []
                             /\ disconnects Callback o < disconnects Callback o').
Proof.
  intros Ho. induction l as [|x l IH].
  - exists o. simpl. split; [exact Ho|]. split; [lia|]. split; [auto|].
    intros Hin. inversion Hin.
  - destruct IH as (o1 & H1 & Hle & Hnil & Hin).
    cbn [foldr]. unfold onHeap at 1. cbn [heap].
    destruct (decide (x.2 = r)) as [-> | Hne].
    + exists (disconnectObject Callback o1).
      rewrite list_lookup_alter_eq, H1. cbn.
      split; [reflexivity|]. split; [lia|]. split; [auto|]. intros _. split; [reflexivity | lia].
    + exists o1. rewrite list_lookup_alter_ne by exact Hne.
      split; [exact H1|]. split; [exact Hle|]. split; [exact Hnil|].
      intros Hm. rewrite fmap_cons in Hm. apply elem_of_cons in Hm.
      destruct Hm as [Hm | Hm]; [congruence | auto].
Qed.






(** When two calls generate the same identifier the second registration
    replaces the first: the first observer is no longer reachable and
    [cleanup] leaves it connected to its target. *)
Remark colliding_identifiers_leak :
  let w0 := new unit in
  let '(h1, w1) := createIntersectionObserver unit tt {| threshold := None; rootMargin := None |}
                     1700000000000 "k3j9x0q2a" w0 in
  let '(h2, w2) := createIntersectionObserver unit tt {| threshold := None; rootMargin := None |}
                     1700000000000 "k3j9x0q2a" w1 in
  let w3 := observe unit h1 7 w2 in
  observers unit w3 !! id h1 = Some (observer h2)
  /\ observer h1 <> observer h2
  /\ targets unit <$> heap unit (cleanup unit w3) !! observer h1 = Some [7]
  /\ disconnects unit <$> heap unit (cleanup unit w3) !! observer h1 = Some 0.
Proof. vm_compute. repeat split; try reflexivity. discriminate. Qed.

(** A handle disconnected on its own stays disconnected through [cleanup]. *)
Lemma disconnect_then_cleanup (h : Handle) (w : World Callback) o :
  heap Callback w !! observer h = Some o ->
  exists o', heap Callback (cleanup Callback (disconnect Callback h w)) !! observer h = Some o'
             /\ targets Callback o' = []
             /\ disconnects Callback o < disconnects Callback o'.
Proof.
  intros Ho. unfold cleanup. cbn [heap].
  set (w1 := disconnect Callback h w).
  assert (H1 : heap Callback w1 !! observer h = Some (disconnectObject Callback o)).
  { unfold w1, disconnect, onHeap. cbn [heap]. now rewrite list_lookup_alter_eq, Ho. }
  destruct (disconnectEach_heap (map_to_list (observers Callback w1)) w1 _ _ H1)
    as (o' & H2 & Hle & Hnil & _).
  exists o'. split; [exact H2|]. split; [now apply Hnil|]. cbn in Hle. lia.
Qed.

End Registry_facts.



(** ** Field validation *)

Section Validation_facts.
Import Dom TeqpodApp.

Lemma nullable_spec r : nullable r = true <-> Matches r [].
Proof.
  induction r as [| |p|r1 IH1 r2 IH2|r1 IH1 r2 IH2|r IH]; simpl.
  - split; [discriminate | intros H; inversion H].
  - split; [constructor | reflexivity].
  - split; [discriminate | intros H; inversion H].
  - rewrite andb_true_iff, IH1, IH2. split.
    + intros [H1 H2]. apply (MatchesCat _ _ [] [] H1 H2).
    + intros H. inversion H as [| |? ? s1 s2 H1 H2| | | |]; subst.
      match goal with E : _ ++ _ = [] |- _ =>
        apply app_eq_nil in E; destruct E as [-> ->] end. auto.
  - rewrite orb_true_iff, IH1, IH2. split.
    + intros [H|H]; [now apply MatchesAltL | now apply MatchesAltR].
    + intros H. inversion H; subst; auto.
  - split; [constructor | reflexivity].
Qed.

(** A non-empty match of a star starts with a non-empty match of its body. *)
Lemma star_cons_inv r s :
  Matches (Star r) s ->
  forall c s', s = c :: s' ->
    exists s1 s2, s' = s1 ++ s2 /\ Matches r (c :: s1) /\ Matches (Star r) s2.
Proof.
  intros H. remember (Star r) as r0 eqn:Hr.
  induction H as [| | | | | |r' s1 s2 H1 _ H2 IH2]; try discriminate Hr.
  - intros c s' Heq. discriminate Heq.
  - injection Hr as ->. intros c s' Heq. destruct s1 as [|c1 s1].
    + simpl in Heq. now apply IH2.
    + simpl in Heq. injection Heq as -> <-. exists s1, s2. auto.
Qed.

Lemma derive_spec r : forall c s, Matches (derive c r) s <-> Matches r (c :: s).
Proof.
  induction r as [| |p|r1 IH1 r2 IH2|r1 IH1 r2 IH2|r IH]; intros c s; simpl.
  - split; intros H; inversion H.
  - split; intros H; inversion H.
  - destruct (p c) eqn:Hp; split; intros H; inversion H; subst.
    + now constructor.
    + constructor.
    + congruence.
  - assert (Hcat : Matches (Cat (derive c r1) r2) s ->  Matches (Cat r1 r2) (c :: s)).
    { intros H. inversion H as [| |? ? s1 s2 H1 H2| | | |]; subst.
      apply IH1 in H1. apply (MatchesCat _ _ (c :: s1) s2 H1 H2). }
    assert (Hinv : Matches (Cat r1 r2) (c :: s) ->
                   Matches (Cat (derive c r1) r2) s
                   \/ (Matches r1 [] /\ Matches r2 (c :: s))).
    { intros H. inversion H as [| |? ? s1 s2 H1 H2| | | |]; subst.
      match goal with E : _ ++ _ = _ :: _ |- _ => rename E into Heq end.
      destruct s1 as [|c1 s1].
      - simpl in Heq. subst. right. auto.
      - simpl in Heq. injection Heq as -> <-. left. constructor; [now apply IH1 | exact H2]. }
    destruct (nullable r1) eqn:Hn.
    + split.
      * intros H. inversion H; subst; [now apply Hcat|].
        apply (MatchesCat _ _ [] (c :: s)); [now apply nullable_spec | now apply IH2].
      * intros H. destruct (Hinv H) as [H'|[_ H']];
          [now apply MatchesAltL | apply MatchesAltR; now apply IH2].
    + split; [exact Hcat|].
      intros H. destruct (Hinv H) as [H'|[H' _]]; [exact H'|].
      apply nullable_spec in H'. congruence.
  - split.
    + intros H. inversion H; subst;
        [apply MatchesAltL; now apply IH1 | apply MatchesAltR; now apply IH2].
    + intros H. inversion H; subst;
        [apply MatchesAltL; now apply IH1 | apply MatchesAltR; now apply IH2].
  - split.
    + intros H. inversion H as [| |? ? s1 s2 H1 H2| | | |]; subst.
      apply IH in H1. apply (MatchesStarCons _ (c :: s1) s2 H1 H2).
    + intros H. destruct (star_cons_inv _ _ H c s eq_refl) as (s1 & s2 & -> & H1 & H2).
      constructor; [now apply IH | exact H2].
Qed.

(** The matcher decides membership. *)
Lemma test_spec s : forall r, test r s = true <-> Matches r s.
Proof.
  induction s as [|c s IH]; intros r; simpl.
  - apply nullable_spec.
  - rewrite IH. apply derive_spec.
Qed.

Lemma star_chr_spec p s :
  Matches (Star (Chr p)) s <-> Forall (fun x => p x = true) s.
Proof.
  split.
  - intros H. remember (Star (Chr p)) as r eqn:Hr.
    induction H as [| | | | | |r' s1 s2 H1 _ H2 IH2]; try discriminate Hr.
    + constructor.
    + injection Hr as ->. inversion H1; subst. constructor; auto.
  - induction 1 as [|x s Hx _ IH]; [constructor|].
    apply (MatchesStarCons _ [x] s); [now constructor | exact IH].
Qed.

Lemma plus_chr_spec p s :
  Matches (Plus (Chr p)) s <-> s <> [] /\ Forall (fun x => p x = true) s.
Proof.
  unfold Plus. split.
  - intros H. inversion H as [| |? ? s1 s2 H1 H2| | | |]; subst.
    inversion H1; subst. apply star_chr_spec in H2. split; [discriminate|].
    constructor; auto.
  - intros [Hne Hall]. destruct s as [|x s]; [congruence|].
    inversion Hall; subst.
    apply (MatchesCat _ _ [x] s); [now constructor | now apply star_chr_spec].
Qed.

(** The regular expression of the source and the pattern in words agree. *)
Lemma emailRegex_shape v : test emailRegex v = true <-> emailShape v.
Proof.
  rewrite test_spec. unfold emailRegex, emailShape. split.
  - intros H.
    inversion H as [| |? ? a s1 Ha H1| | | |]; subst.
    inversion H1 as [| |? ? at' s2 Hat H2| | | |]; subst.
    inversion H2 as [| |? ? b s3 Hb H3| | | |]; subst.
    inversion H3 as [| |? ? dot c Hdot Hc| | | |]; subst.
    inversion Hat as [|? x Hx| | | | |]; subst. apply N.eqb_eq in Hx. subst x.
    inversion Hdot as [|? y Hy| | | | |]; subst. apply N.eqb_eq in Hy. subst y.
    apply plus_chr_spec in Ha, Hb, Hc.
    exists a, b, c. intuition.
  - intros (a & b & c & -> & Ha & Hb & Hc & Fa & Fb & Fc).
    constructor; [now apply plus_chr_spec|].
    constructor; [now constructor|].
    constructor; [now apply plus_chr_spec|].
    constructor; [now constructor | now apply plus_chr_spec].
Qed.

Lemma hasClass_classListAdd c node :
  isElement node = true -> hasClass c (classListAdd c node) = true.
Proof.
  destruct node as [|t cl a st ch]; [discriminate|]. intros _. simpl.
  apply bool_decide_eq_true. destruct (bool_decide (c ∈ cl)) eqn:Hc.
  - now apply bool_decide_eq_true in Hc.
  - apply elem_of_app. right. apply list_elem_of_singleton. reflexivity.
Qed.

Lemma hasClass_classListRemove c node : hasClass c (classListRemove c node) = false.
Proof.
  destruct node as [|t cl a st ch]; [reflexivity|]. simpl.
  apply bool_decide_eq_false. rewrite list_elem_of_filter. intros [H _]. congruence.
Qed.

End Validation_facts.

(** C10: [validateField] returns a verdict for every field without
    raising.  The verdict is [false] exactly when the field is required
    and its trimmed value is empty, or the field has type email and its
    trimmed value is non-empty and does not have the shape "one or more
    non-space non-[@] characters, [@], one or more such characters, a
    dot, one or more such characters"; an empty email field that is not
    required is valid; and after the call the group of the field carries
    the class [error] exactly when the verdict is [false] (a field
    without a group changes nothing). *)
Theorem validateField_spec :
  forall (field : TeqpodApp.Field) (elements : gmap nat Dom.Node),
    let verdict := (TeqpodApp.validateField field elements).1 in
    let after := (TeqpodApp.validateField field elements).2 in
    let value := TeqpodApp.trim (TeqpodApp.value field) in
    (verdict = false <->
       (TeqpodApp.required field = true /\ value = [])
       \/ (TeqpodApp.type field = "email" /\ value <> [] /\ ~ TeqpodApp.emailShape value))
    /\ (TeqpodApp.required field = false -> TeqpodApp.type field = "email" ->
        value = [] -> verdict = true)
    /\ (forall group node,
          TeqpodApp.formGroup field = Some group ->
          elements !! group = Some node ->
          Dom.isElement node = true ->
          exists node', after !! group = Some node'
                        /\ (Dom.hasClass "error" node' = true <-> verdict = false))
    /\ (TeqpodApp.formGroup field = None -> after = elements).
Proof.
  intros field elements verdict after value.
  assert (Hverdict : verdict = negb (TeqpodApp.required field && bool_decide (value = []))
                     && negb (String.eqb (TeqpodApp.type field) "email"
                              && negb (bool_decide (value = []))
                              && negb (TeqpodApp.test TeqpodApp.emailRegex value))).
  { unfold verdict, TeqpodApp.validateField. fold value.
    destruct (TeqpodApp.required field), (bool_decide (value = [])),
      (String.eqb (TeqpodApp.type field) "email"),
      (TeqpodApp.test TeqpodApp.emailRegex value); reflexivity. }
  assert (Hafter : after = if verdict
                           then DOMManager.removeClass (TeqpodApp.formGroup field) "error" elements
                           else DOMManager.addClass (TeqpodApp.formGroup field) "error" elements).
  { unfold after, verdict, TeqpodApp.validateField. fold value.
    destruct (TeqpodApp.required field), (bool_decide (value = [])),
      (String.eqb (TeqpodApp.type field) "email"),
      (TeqpodApp.test TeqpodApp.emailRegex value); reflexivity. }
  assert (Hfalse : verdict = false <->
            (TeqpodApp.required field = true /\ value = [])
            \/ (TeqpodApp.type field = "email" /\ value <> [] /\ ~ TeqpodApp.emailShape value)).
  { rewrite Hverdict. rewrite andb_false_iff, !negb_false_iff, !andb_true_iff.
    rewrite negb_true_iff, bool_decide_eq_true, bool_decide_eq_false, String.eqb_eq.
    rewrite <- emailRegex_shape, not_true_iff_false, negb_true_iff. tauto. }
  split; [exact Hfalse|]. split.
  - intros Hreq Hty Hv. apply not_false_iff_true. intros E.
    apply Hfalse in E. destruct E as [[E _] | (_ & E & _)]; congruence.
  - split.
    + intros group node Hg Hn Hel. rewrite Hafter, Hg. destruct verdict.
      * cbn [DOMManager.removeClass String.eqb Ascii.eqb Bool.eqb].
        exists (Dom.classListRemove "error" node). rewrite lookup_alter_eq, Hn.
        split; [reflexivity|]. rewrite hasClass_classListRemove. split; congruence.
      * cbn [DOMManager.addClass String.eqb Ascii.eqb Bool.eqb].
        exists (Dom.classListAdd "error" node). rewrite lookup_alter_eq, Hn.
        split; [reflexivity|]. rewrite (hasClass_classListAdd _ _ Hel). split; congruence.
    + intros Hg. rewrite Hafter, Hg. destruct verdict; reflexivity.
Qed.

(** ** Numbers read from text *)

Section Number_facts.




(** On a string of digits [parseInt] reads the digits: there is no
    white space to skip, no sign and no radix prefix. *)
Lemma parseInt_allDigits s :
  JS.allDigits s = true -> JS.parseInt s = JS.parseDigits None s.
Proof.
  destruct s as [|c s]; [reflexivity|]. simpl. intros H.
  apply andb_true_iff in H. destruct H as [Hc Hs].
  destruct c as [[] [] [] [] [] [] [] []]; try discriminate Hc; try reflexivity.
  destruct s as [|c2 s]; [reflexivity|]. simpl in Hs.
  apply andb_true_iff in Hs. destruct Hs as [Hc2 _].
  destruct c2 as [[] [] [] [] [] [] [] []]; try discriminate Hc2; reflexivity.
Qed.


Lemma parseDigits_of_uint_acc d : forall acc,
  JS.parseDigits (Some (Z.pos acc)) (NilEmpty.string_of_uint d)
  = Some (Z.pos (Pos.of_uint_acc d acc)).
Proof.
  induction d as [|d IH|d IH|d IH|d IH|d IH|d IH|d IH|d IH|d IH|d IH]; intros acc;
    [reflexivity|..];
    cbn [NilEmpty.string_of_uint JS.parseDigits Pos.of_uint_acc];
    match goal with |- context [JS.isDigit ?c] => change (JS.isDigit c) with true end;
    cbv iota; rewrite <- IH;
    apply (f_equal (fun a => JS.parseDigits (Some a) (NilEmpty.string_of_uint d)));
    cbn [default from_option id];
    match goal with |- context [JS.digitValue ?c] =>
      let v := eval vm_compute in (JS.digitValue c) in change (JS.digitValue c) with v end;
    lia.
Qed.

Lemma parseDigits_of_uint d :
  JS.parseDigits (Some 0%Z) (NilEmpty.string_of_uint d) = Some (Z.of_N (Pos.of_uint d)).
Proof.
  induction d as [|d IH|d IH|d IH|d IH|d IH|d IH|d IH|d IH|d IH|d IH];
    [reflexivity | exact IH | ..];
    cbn [NilEmpty.string_of_uint JS.parseDigits Pos.of_uint];
    match goal with |- context [JS.isDigit ?c] => change (JS.isDigit c) with true end;
    cbv iota; apply parseDigits_of_uint_acc.
Qed.

Lemma allDigits_string_of_uint d : JS.allDigits (NilEmpty.string_of_uint d) = true.
Proof. induction d; simpl; auto. Qed.

(** Reading back what [String(n)] wrote gives [n]. *)
Lemma parseInt_showN n : JS.parseInt (JS.showN n) = Some (Z.of_N n).
Proof.
  unfold JS.showN. rewrite parseInt_allDigits by apply allDigits_string_of_uint.
  assert (Hnil : N.to_uint n <> Decimal.Nil).
  { destruct n; [discriminate | apply Unsigned.to_uint_nonnil]. }
  transitivity (JS.parseDigits (Some 0%Z) (NilEmpty.string_of_uint (N.to_uint n))).
  - destruct (N.to_uint n); [congruence | reflexivity..].
  - rewrite parseDigits_of_uint. f_equal. f_equal. apply DecimalN.Unsigned.of_to.
Qed.

Lemma parseInt_showNat k : JS.parseInt (JS.showNat k) = Some (Z.of_nat k).
Proof. unfold JS.showNat. rewrite parseInt_showN. f_equal. lia. Qed.

Lemma showNat_truthy k : JS.truthy (Some (JS.showNat k)) = true.
Proof.
  unfold JS.truthy, JS.showNat, JS.showN.
  assert (Hnil : N.to_uint (N.of_nat k) <> Decimal.Nil).
  { destruct (N.of_nat k); [discriminate | apply Unsigned.to_uint_nonnil]. }
  destruct (N.to_uint (N.of_nat k)); [congruence | reflexivity..].
Qed.

End Number_facts.

(** ** The counter animation *)

Section Counter_facts.
Import Dom AnimationSystem.
Local Open Scope Q_scope.






Lemma textContent_setTextContent text node :
  textContent (setTextContent text node) = text.
Proof.
  destruct node as [|t cl a st ch]; [reflexivity|]. simpl.
  destruct (String.eqb text "") eqn:E.
  - apply String.eqb_eq in E. now subst.
  - simpl. apply text_append_empty.
Qed.


End Counter_facts.



(** The same frame evaluated: half-way through, the counter to 42 shows 39. *)
Example counter_half_way :
  AnimationSystem.counterCurrent (Some 42%Z) 2000 500 (500 + 1000) = Some 39%Z.
Proof. vm_compute. reflexivity. Qed.

(** ** Scroll reveal *)

Section Reveal_facts.
Import Dom AnimationSystem.

Lemma lookupKey_assign k v l : lookupKey k (assign k v l) = Some v.
Proof.
  induction l as [|[k' v'] l IH]; simpl.
  - now rewrite String.eqb_refl.
  - destruct (String.eqb k k') eqn:E; simpl; rewrite ?String.eqb_refl, ?E; auto.
Qed.

Lemma assign_assign k v l : assign k v (assign k v l) = assign k v l.
Proof.
  induction l as [|[k' v'] l IH]; simpl.
  - now rewrite String.eqb_refl.
  - destruct (String.eqb k k') eqn:E; simpl; rewrite ?String.eqb_refl, ?E, ?IH; auto.
Qed.

Lemma classListAdd_twice c node : classListAdd c (classListAdd c node) = classListAdd c node.
Proof.
  destruct node as [|t cl a st ch]; [reflexivity|]. simpl. f_equal.
  destruct (bool_decide (c ∈ cl)) eqn:E; [now rewrite E|].
  rewrite bool_decide_eq_true_2; [reflexivity|].
  apply elem_of_app. right. now apply list_elem_of_singleton.
Qed.

Lemma hasClass_classListAdd_mono c c' node :
  hasClass c node = true -> hasClass c (classListAdd c' node) = true.
Proof.
  destruct node as [|t cl a st ch]; [discriminate|]. simpl. intros H.
  apply bool_decide_eq_true in H. apply bool_decide_eq_true.
  destruct (bool_decide (c' ∈ cl)); [exact H|]. apply elem_of_app. now left.
Qed.

(** The node written by the callback: active, the stagger value kept,
    and the delay derived from it. *)
Lemma revealNode_active node :
  isElement node = true -> hasClass "active" (revealNode node) = true.
Proof.
  intros Hel. unfold revealNode. cbv zeta.
  pose proof (hasClass_classListAdd "active" node Hel) as H.
  destruct (JS.truthy _); [|exact H].
  destruct (classListAdd "active" node); [discriminate H | exact H].
Qed.

Lemma revealNode_keeps_active node :
  hasClass "active" node = true -> hasClass "active" (revealNode node) = true.
Proof.
  intros H. apply revealNode_active. destruct node; [discriminate H | reflexivity].
Qed.

Lemma revealNode_delay node k :
  isElement node = true ->
  dataset "stagger" node = Some (JS.showNat k) ->
  getStyle "transitionDelay" (revealNode node)
  = Some (JS.showZ (Z.of_nat k * 100) +:+ "ms").
Proof.
  intros Hel Hst. destruct node as [|t cl a st ch]; [discriminate Hel|].
  unfold revealNode. cbv zeta.
  change (dataset "stagger" (classListAdd "active" (Element t cl a st ch)))
    with (dataset "stagger" (Element t cl a st ch)).
  rewrite Hst, showNat_truthy. cbn [default from_option id].
  rewrite parseInt_showNat. cbn [fmap option_fmap option_map JS.showNumber].
  cbn [classListAdd setStyle getStyle]. apply lookupKey_assign.
Qed.

Lemma revealNode_twice node : revealNode (revealNode node) = revealNode node.
Proof.
  destruct node as [|t cl a st ch]; [reflexivity|].
  unfold revealNode. cbv zeta.
  change (dataset "stagger" (classListAdd "active" (Element t cl a st ch)))
    with (lookupKey "data-stagger" a).
  destruct (JS.truthy (lookupKey "data-stagger" a)) eqn:E.
  - cbn [classListAdd setStyle].
    change (dataset "stagger" (Element t ?cl' a ?st' ch)) with (lookupKey "data-stagger" a).
    cbn [dataset getAttribute setDataset]. 
    replace (bool_decide ("active" ∈ (if bool_decide ("active" ∈ cl) then cl else cl ++ ["active"])))
      with true.
    2:{ symmetry. apply bool_decide_eq_true. destruct (bool_decide ("active" ∈ cl)) eqn:Ec.
        - now apply bool_decide_eq_true in Ec.
        - apply elem_of_app. right. now apply list_elem_of_singleton. }
    unfold dataset, getAttribute. rewrite E. now rewrite assign_assign.
  - rewrite classListAdd_twice.
    change (dataset "stagger" (classListAdd "active" (Element t cl a st ch)))
      with (lookupKey "data-stagger" a).
    now rewrite E.
Qed.

(** One entry of a batch, read at any element of the page. *)
Lemma revealEntry_lookup els entry el :
  revealEntry els entry !! el
  = if isIntersecting entry && bool_decide (target entry = el)
    then revealNode <$> els !! el
    else els !! el.
Proof.
  unfold revealEntry. destruct (isIntersecting entry); [|reflexivity].
  cbn [andb DOMManager.addClass]. change (String.eqb "active" "") with false. cbv iota.
  rewrite lookup_alter_eq.
  destruct (decide (target entry = el)) as [<-|Hne].
  - rewrite bool_decide_eq_true_2 by reflexivity.
    destruct (els !! target entry) as [node|] eqn:Hn; cbn [fmap option_fmap option_map].
    + unfold revealNode. cbv zeta. destruct (JS.truthy _).
      * now rewrite !lookup_alter_eq, Hn.
      * now rewrite lookup_alter_eq, Hn.
    + now rewrite lookup_alter_eq, Hn.
  - rewrite bool_decide_eq_false_2 by exact Hne.
    destruct (els !! target entry) as [node|]; cbn [fmap option_fmap option_map].
    + destruct (JS.truthy _); rewrite ?lookup_alter_ne by exact Hne; reflexivity.
    + now rewrite lookup_alter_ne.
Qed.

(** A whole batch: the element is revealed when some entry reports it
    intersecting, and is left alone otherwise. *)
Lemma runCallback_lookup entries : forall els el,
  runCallback revealCallback entries els !! el
  = if existsb (fun e => isIntersecting e && bool_decide (target e = el)) entries
    then revealNode <$> els !! el
    else els !! el.
Proof.
  unfold runCallback. induction entries as [|entry entries IH]; intros els el; [reflexivity|].
  cbn [fold_left existsb]. rewrite IH, revealEntry_lookup.
  destruct (isIntersecting entry && bool_decide (target entry = el)); cbn [orb]; [|reflexivity].
  destruct (existsb _ entries); [|reflexivity].
  destruct (els !! el) as [node|]; [|reflexivity].
  cbn [fmap option_fmap option_map]. now rewrite revealNode_twice.
Qed.

Lemma deliver_lookup observer entries p el :
  elements (deliver observer entries p) !! el
  = match DOMManager.heap Callback (domManager p) !! observer with
    | Some o =>
        if existsb (fun e => isIntersecting e && bool_decide (target e = el))
             (filter (fun e => target e ∈ DOMManager.targets Callback o) entries)
        then revealNode <$> elements p !! el
        else elements p !! el
    | None => elements p !! el
    end.
Proof.
  unfold deliver. destruct (DOMManager.heap Callback (domManager p) !! observer) as [o|];
    [|reflexivity].
  cbn [elements]. destruct (DOMManager.callback Callback o). apply runCallback_lookup.
Qed.

Lemma deliver_domManager observer entries p :
  domManager (deliver observer entries p) = domManager p.
Proof.
  unfold deliver. now destruct (DOMManager.heap Callback (domManager p) !! observer).
Qed.

(** Once active, an element stays active through any scroll history. *)
Lemma deliverAll_keeps_active batches : forall p el node,
  elements p !! el = Some node ->
  hasClass "active" node = true ->
  exists node', elements (deliverAll batches p) !! el = Some node'
                /\ hasClass "active" node' = true.
Proof.
  unfold deliverAll. induction batches as [|[observer entries] batches IH]; intros p el node Hn Ha.
  - exists node. auto.
  - cbn [fold_left fst snd].
    assert (Hstep : exists node1, elements (deliver observer entries p) !! el = Some node1
                                  /\ hasClass "active" node1 = true).
    { rewrite deliver_lookup, Hn. cbn [fmap option_fmap option_map].
      destruct (DOMManager.heap Callback (domManager p) !! observer) as [o|]; [|eauto].
      destruct (existsb _ _); [|eauto].
      exists (revealNode node). split; [reflexivity | now apply revealNode_keeps_active]. }
    destruct Hstep as (node1 & H1 & H2). exact (IH _ _ _ H1 H2).
Qed.


(** Observing a list of elements keeps the observer object in place and
    puts every element of the list among its targets. *)
Lemma observe_all (h : DOMManager.Handle) (l : list nat) :
  forall (dm : DOMManager.World Callback) o,
    DOMManager.heap Callback dm !! DOMManager.observer h = Some o ->
    exists o',
      DOMManager.heap Callback
        (fold_left (fun dm el => DOMManager.observe Callback h el dm) l dm)
        !! DOMManager.observer h = Some o'
      /\ DOMManager.callback Callback o' = DOMManager.callback Callback o
      /\ DOMManager.options Callback o' = DOMManager.options Callback o
      /\ (forall el, el ∈ DOMManager.targets Callback o -> el ∈ DOMManager.targets Callback o')
      /\ (forall el, el ∈ l -> el ∈ DOMManager.targets Callback o').
Proof.
  induction l as [|x l IH]; intros dm o Ho.
  - exists o. repeat split; auto. intros el Hin. inversion Hin.
  - cbn [fold_left].
    destruct (IH (DOMManager.observe Callback h x dm) (DOMManager.observeObject Callback x o))
      as (o' & H1 & H2 & H3 & H4 & H5).
    { unfold DOMManager.observe, DOMManager.onHeap. cbn [DOMManager.heap].
      now rewrite list_lookup_alter_eq, Ho. }
    assert (Hx : x ∈ DOMManager.targets Callback (DOMManager.observeObject Callback x o)).
    { cbn. destruct (bool_decide (x ∈ DOMManager.targets Callback o)) eqn:E.
      - now apply bool_decide_eq_true in E.
      - apply elem_of_app. right. now apply list_elem_of_singleton. }
    assert (Hkeep : forall el, el ∈ DOMManager.targets Callback o ->
                               el ∈ DOMManager.targets Callback (DOMManager.observeObject Callback x o)).
    { intros el Hel. cbn. destruct (bool_decide (x ∈ DOMManager.targets Callback o));
        [exact Hel | apply elem_of_app; now left]. }
    exists o'. split; [exact H1|]. split; [exact H2|]. split; [exact H3|].
    split; [auto|]. intros el Hin. apply elem_of_cons in Hin.
    destruct Hin as [-> | Hin]; auto.
Qed.

Lemma querySelectorAllClass_spec c (els : gmap nat Node) el :
  el ∈ DOMManager.querySelectorAllClass c els
  <-> exists node, els !! el = Some node /\ hasClass c node = true.
Proof.
  unfold DOMManager.querySelectorAllClass. rewrite list_elem_of_fmap. split.
  - intros [[k node] [-> Hin]]. apply elem_of_map_to_list in Hin.
    apply map_lookup_filter_Some in Hin. destruct Hin as [H1 H2]. eauto.
  - intros (node & H1 & H2). exists (el, node). split; [reflexivity|].
    apply elem_of_map_to_list. apply map_lookup_filter_Some. auto.
Qed.

End Reveal_facts.

(** C4, as stated, fails on the root margin: the observer is not
    triggered 100px before an element enters the viewport.  In a
    viewport 800px high the root rectangle ends at 700px; an element
    200px tall whose top edge is still 50px below the viewport (at 850),
    and one that is already 50px inside it (at 750), are not reported as
    intersecting; the element is reported once it is 150px inside (at 650). *)
Lemma reveal_not_triggered_before_viewport :
  AnimationSystem.rootBottom AnimationSystem.revealOptions 800 = 700%Z
  /\ AnimationSystem.overlap AnimationSystem.revealOptions 800 850 200 = 0%Z
  /\ AnimationSystem.intersects AnimationSystem.revealOptions 800 850 200 = false
  /\ AnimationSystem.intersects AnimationSystem.revealOptions 800 750 200 = false
  /\ AnimationSystem.intersects AnimationSystem.revealOptions 800 650 200 = true.
Proof. vm_compute. repeat split; reflexivity. Qed.

(** C4 (amended): every element flagged for reveal is observed by the
    scroll-reveal observer, configured with threshold 0.1 and a root
    margin that moves the trigger line 100px inside the viewport (the
    element is reported only after it has come more than 100px into the
    viewport, not before it enters); on an intersection the element is
    marked active and, if it carries stagger index k, given a transition
    delay of exactly k * 100 ms; once active it is never un-marked by a
    later intersection event. *)
Theorem reveal_marks_active_once :
  forall (self : AnimationSystem.AnimationSystem) (now : Z) (random : string)
         (p : AnimationSystem.Page),
    AnimationSystem.isReducedMotion self = false ->
    AnimationSystem.revealContract p
      (AnimationSystem.setupScrollReveal self now random p).2
      (length (DOMManager.heap AnimationSystem.Callback (AnimationSystem.domManager p))).
Proof.
  intros self now random p Hmotion.
  unfold AnimationSystem.setupScrollReveal. rewrite Hmotion.
  unfold DOMManager.createIntersectionObserver. cbn [snd AnimationSystem.domManager].
  set (h := {| DOMManager.observer := _; DOMManager.id := _ |}).
  set (dm := {| DOMManager.heap := _; DOMManager.observers := _; DOMManager.templates := _ |}).
  set (object := {| DOMManager.callback := AnimationSystem.revealCallback;
                    DOMManager.options := _; DOMManager.targets := [];
                    DOMManager.disconnects := 0 |}) in dm.
  assert (Hobj : DOMManager.heap AnimationSystem.Callback dm !! DOMManager.observer h
                 = Some object).
  { unfold dm, h. cbn [DOMManager.heap DOMManager.observer].
    rewrite lookup_app_r by lia. now rewrite Nat.sub_diag. }
  destruct (observe_all h
              (DOMManager.querySelectorAllClass "reveal" (AnimationSystem.elements p))
              dm object Hobj) as (o & Ho & Hcb & Hopts & _ & Hall).
  exists o. split; [exact Ho|]. split; [exact Hcb|]. split; [exact Hopts|].
  split.
  { intros el node Hel Hrev. apply Hall. apply querySelectorAllClass_spec. eauto. }
  rewrite Hopts. change (DOMManager.options AnimationSystem.Callback object)
    with AnimationSystem.revealOptions.
  assert (Hbottom : forall viewport,
            AnimationSystem.rootBottom AnimationSystem.revealOptions viewport
            = (viewport - 100)%Z).
  { intros viewport. unfold AnimationSystem.rootBottom.
    change (AnimationSystem.margin 2 AnimationSystem.revealOptions) with (-100)%Z. lia. }
  split; [intros viewport; split; [reflexivity | apply Hbottom]|].
  split.
  { intros viewport top height Hi. unfold AnimationSystem.intersects in Hi.
    apply andb_true_iff in Hi. destruct Hi as [Hi _]. apply Z.ltb_lt in Hi.
    unfold AnimationSystem.overlap in Hi. rewrite Hbottom in Hi.
    change (AnimationSystem.rootTop AnimationSystem.revealOptions) with 0%Z in Hi. lia. }
  split.
  { intros q entries el node Hdm Hwatched Hel Helem Hentry.
    exists (AnimationSystem.revealNode node).
    rewrite deliver_lookup, Hdm. cbn [AnimationSystem.domManager].
    change (DOMManager.observer h) with
      (length (DOMManager.heap AnimationSystem.Callback (AnimationSystem.domManager p))) in Ho.
    rewrite Ho, Hel.
    replace (existsb _ _) with true.
    - split; [reflexivity|]. split; [now apply revealNode_active|].
      intros k Hk. now apply revealNode_delay.
    - symmetry. apply existsb_exists.
      exists {| AnimationSystem.target := el; AnimationSystem.isIntersecting := true |}.
      split.
      + apply list_elem_of_In. apply list_elem_of_filter. split; [exact Hwatched | exact Hentry].
      + cbn. now rewrite bool_decide_eq_true_2. }
  intros q batches el node Hel Hact. exact (deliverAll_keeps_active batches q el node Hel Hact).
Qed.

Lemma reveal_marks_active_once_witness :
  let self := {| AnimationSystem.isReducedMotion := false; AnimationSystem.isTouch := false;
                 AnimationSystem.observers := [] |} in
  let p := {| AnimationSystem.elements :=
                <[7 := Dom.Element "div" ["feature-card"; "reveal"] [("data-stagger", "3")] [] []]> ∅;
              AnimationSystem.frames := []; AnimationSystem.timeouts := [];
              AnimationSystem.domManager := DOMManager.new AnimationSystem.Callback |} in
  AnimationSystem.revealContract p
    (AnimationSystem.setupScrollReveal self 1700000000000 "k3j9x0q2a" p).2 0.
Proof.
  intros self p.
  apply (reveal_marks_active_once self 1700000000000 "k3j9x0q2a" p). reflexivity.
Defined.

(** The callback run on a page: the card with stagger index 3 becomes
    active with a delay of 300ms, and a later batch reporting it out of
    view changes nothing. *)
Example reveal_stagger_3 :
  let self := {| AnimationSystem.isReducedMotion := false; AnimationSystem.isTouch := false;
                 AnimationSystem.observers := [] |} in
  let p := {| AnimationSystem.elements :=
                <[7 := Dom.Element "div" ["feature-card"; "reveal"] [("data-stagger", "3")] [] []]> ∅;
              AnimationSystem.frames := []; AnimationSystem.timeouts := [];
              AnimationSystem.domManager := DOMManager.new AnimationSystem.Callback |} in
  let p' := (AnimationSystem.setupScrollReveal self 1700000000000 "k3j9x0q2a" p).2 in
  let seen := AnimationSystem.deliverAll
                [(0, [{| AnimationSystem.target := 7; AnimationSystem.isIntersecting := true |}]);
                 (0, [{| AnimationSystem.target := 7; AnimationSystem.isIntersecting := false |}])]
                p' in
  AnimationSystem.elements seen !! 7
  = Some (Dom.Element "div" ["feature-card"; "reveal"; "active"] [("data-stagger", "3")]
            [("transitionDelay", "300ms")] []).
Proof. vm_compute. reflexivity. Qed.

(** ** Reduced motion *)




(** * Further properties of the scripts *)

(** ** Easing and smooth scroll *)

Section Easing_facts.
Import MotionController.
Local Open Scope Q_scope.









End Easing_facts.




(** ** The counter over a whole run of frames *)

Section Counter_run_facts.
Import Dom AnimationSystem MotionController.
Local Open Scope Q_scope.





End Counter_run_facts.



Section Counter_frames_facts.
Import Dom AnimationSystem MotionController.
Variable numberToString : Q -> string.
Variables (element : nat) (target suffix : string) (duration startTime : Q).
Variable targetNum : option Z.
Hypothesis Hduration : (0 < duration)%Q.

Let scheduled : Frame := animate (Some element) target suffix duration startTime targetNum.

Let counterRunning := MotionController.counterRunning scheduled element.
Let counterDone := MotionController.counterDone element (target +:+ suffix).







End Counter_frames_facts.



(** ** Debounce and throttle over whole call patterns *)

Section Event_loop_facts.
Import DOMManager.
Context {T V : Type}.
Variable run : T -> Timers T * V -> Timers T * V.

(** With a single pending timer that is not due yet, letting the clock
    reach [time] only moves the clock. *)
Lemma advanceTo_not_due (s : Timers T * V) i d task time :
  pending s.1 = [(i, d, task)] -> (time < d)%Z ->
  advanceTo run time s
  = ({| now := Z.max (now s.1) time; nextId := nextId s.1; pending := pending s.1 |}, s.2).
Proof.
  intros Hp Hd. unfold advanceTo. rewrite Hp. cbn [length fireDue]. rewrite Hp.
  cbn [earliest fst snd]. destruct (Z.leb_spec d time) as [H|H]; [lia|].
  cbn [fst snd]. now rewrite Hp.
Qed.

(** With nothing pending, letting the clock reach [time] only moves the
    clock. *)
Lemma advanceTo_idle (s : Timers T * V) time :
  pending s.1 = [] ->
  advanceTo run time s
  = ({| now := Z.max (now s.1) time; nextId := nextId s.1; pending := [] |}, s.2).
Proof.
  intros Hp. unfold advanceTo. rewrite Hp. cbn [length fireDue fst snd]. now rewrite Hp.
Qed.

End Event_loop_facts.

Section Debounce_pattern_facts.
Import DOMManager ElementHelper.
Context {Args : Type}.
Variable wait : Z.

(** The state after an invocation at [t] with arguments [a]: the clock
    at [t], one timer pending for [a], due one [wait] later. *)
Let armed (s : Debounced Args) (t : Z) (a : Args) : Prop :=
  exists i, pending s.1 = [(i, (t + Z.max 0 wait)%Z, later Args a)]
            /\ timeout Args s.2 = Some i /\ now s.1 = t.

Lemma armed_onePending s t a : armed s t a -> onePending Args s.
Proof. intros (i & Hp & Ht & _). right. eauto. Qed.

Lemma debouncedCall_now a s : now (debouncedCall Args wait a s).1 = now s.1.
Proof.
  unfold debouncedCall, setTimeout, clearTimeout. destruct (timeout Args s.2); reflexivity.
Qed.

Lemma debounceAt_within s prev a t a' :
  armed s prev a -> (prev <= t < prev + wait)%Z ->
  armed (debounceAt Args wait s (t, a')) t a'
  /\ debounceCalls Args (debounceAt Args wait s (t, a')).2 = debounceCalls Args s.2.
Proof.
  intros (i & Hp & Ht & Hn) Hw. unfold debounceAt. cbn [fst snd].
  assert (Hadv : advanceTo (runLater Args) t s
                 = ({| now := t; nextId := nextId s.1; pending := pending s.1 |}, s.2)).
  { rewrite (advanceTo_not_due _ s i _ _ t Hp) by lia. rewrite Hn.
    now replace (Z.max prev t) with t by lia. }
  destruct (debouncedCall_pending wait a' (advanceTo (runLater Args) t s)) as (H1 & H2 & H3).
  { rewrite Hadv. right. cbn [fst snd pending]. eauto. }
  pose proof (debouncedCall_now a' (advanceTo (runLater Args) t s)) as H4.
  rewrite Hadv in H1, H2, H3, H4 |- *. cbn [fst snd now nextId] in H1, H2, H3, H4.
  split; [|exact H3]. exists (nextId s.1). auto.
Qed.

Lemma debounceAt_after s prev a t a' :
  armed s prev a -> (prev + Z.max 0 wait <= t)%Z ->
  armed (debounceAt Args wait s (t, a')) t a'
  /\ debounceCalls Args (debounceAt Args wait s (t, a')).2
     = debounceCalls Args s.2 ++ [((prev + Z.max 0 wait)%Z, a)].
Proof.
  intros (i & Hp & Ht & Hn) Hw. unfold debounceAt. cbn [fst snd].
  assert (Hadv : advanceTo (runLater Args) t s
                 = ({| now := t; nextId := nextId s.1; pending := [] |},
                    {| timeout := Some i;
                       debounceCalls := debounceCalls Args s.2
                                        ++ [((prev + Z.max 0 wait)%Z, a)] |})).
  { unfold advanceTo. rewrite Hp. cbn [length fireDue]. rewrite Hp. cbn [earliest fst snd].
    destruct (Z.leb_spec (prev + Z.max 0 wait) t) as [_|H]; [|lia].
    unfold fire, runLater. cbn [fst snd]. rewrite Hp, Ht, Hn.
    unfold clearTimeout. cbn [pending now nextId fst snd].
    rewrite filter_cons. cbn [fst snd]. destruct (decide (i ≠ i)); [congruence|].
    rewrite !filter_nil. cbn [fst snd now nextId pending].
    f_equal; [f_equal; lia|]. f_equal. f_equal. f_equal. f_equal. lia. }
  destruct (debouncedCall_pending wait a' (advanceTo (runLater Args) t s)) as (H1 & H2 & H3).
  { rewrite Hadv. left. reflexivity. }
  pose proof (debouncedCall_now a' (advanceTo (runLater Args) t s)) as H4.
  rewrite Hadv in H1, H2, H3, H4 |- *.
  cbn [fst snd now nextId debounceCalls] in H1, H2, H3, H4.
  split; [|exact H3]. exists (nextId s.1). auto.
Qed.

Lemma debounceAt_first t a :
  (0 <= t)%Z ->
  armed (debounceAt Args wait (debounce Args) (t, a)) t a
  /\ debounceCalls Args (debounceAt Args wait (debounce Args) (t, a)).2 = [].
Proof.
  intros Ht. unfold debounceAt. cbn [fst snd].
  rewrite (advanceTo_idle _ (debounce Args) t) by reflexivity.
  cbn [debounce fst snd now nextId].
  unfold debouncedCall, clearTimeout, setTimeout. cbn [fst snd timeout now nextId pending].
  split; [|reflexivity]. exists 1%nat. cbn [fst snd pending timeout now app].
  replace (Z.max 0 t) with t by lia. auto.
Qed.

Lemma settle_armed s t a :
  armed s t a ->
  debounceCalls Args (settle (runLater Args) (length (pending s.1)) s).2
  = debounceCalls Args s.2 ++ [((t + Z.max 0 wait)%Z, a)].
Proof.
  intros (i & Hp & Ht & Hn). rewrite Hp. cbn [length settle]. rewrite Hp.
  cbn [earliest]. unfold fire, runLater. cbn [fst snd]. rewrite Hp, Ht, Hn.
  unfold clearTimeout. cbn [pending now nextId fst snd debounceCalls].
  do 3 f_equal. lia.
Qed.

Lemma burst_fold rest : forall s prev a,
  armed s prev a ->
  burstFrom Args wait prev rest ->
  forall t' a', last ((prev, a) :: rest) = Some (t', a') ->
  armed (fold_left (debounceAt Args wait) rest s) t' a'
  /\ debounceCalls Args (fold_left (debounceAt Args wait) rest s).2 = debounceCalls Args s.2.
Proof.
  induction rest as [|[t b] rest IH]; intros s prev a Hs Hb t' a' Hlast.
  - cbn in Hlast. injection Hlast as <- <-. auto.
  - destruct Hb as [Hw Hb]. cbn [fst] in Hw, Hb. cbn [fold_left].
    destruct (debounceAt_within s prev a t b Hs Hw) as [Hs' Hc].
    destruct (IH _ t b Hs' Hb t' a') as [H1 H2].
    { rewrite last_cons_cons in Hlast. exact Hlast. }
    split; [exact H1|]. now rewrite H2.
Qed.

Lemma spaced_fold rest : forall s prev a,
  armed s prev a ->
  spaced Args wait ((prev, a) :: rest) ->
  let s' := fold_left (debounceAt Args wait) rest s in
  debounceCalls Args (settle (runLater Args) (length (pending s'.1)) s').2
  = debounceCalls Args s.2
    ++ map (fun call => ((call.1 + Z.max 0 wait)%Z, call.2)) ((prev, a) :: rest).
Proof.
  induction rest as [|[t b] rest IH]; intros s prev a Hs Hsp.
  - cbn [fold_left map]. apply settle_armed, Hs.
  - destruct Hsp as [Hw Hsp]. cbn [fst] in Hw. cbn [fold_left].
    destruct (debounceAt_after s prev a t b Hs Hw) as [Hs' Hc].
    cbv zeta. rewrite (IH _ t b Hs' Hsp), Hc. cbn [map fst snd].
    now rewrite <- app_assoc.
Qed.

End Debounce_pattern_facts.

(** X5: a burst of invocations of a debounced function (the first not
    before time 0, each less than [wait] after the one before) makes
    [func] run exactly once, one [wait] after the last invocation and
    with the arguments of the last invocation. *)
Theorem debounce_burst_runs_last_once :
  forall (Args : Type) (wait : Z) (calls : list (Z * Args)) (time : Z) (a : Args),
    ElementHelper.burst Args wait (calls ++ [(time, a)]) ->
    DOMManager.debounceRun Args wait (calls ++ [(time, a)]) = [((time + Z.max 0 wait)%Z, a)].
Proof.
  intros Args wait calls time a Hb. unfold DOMManager.debounceRun.
  destruct calls as [|[t0 a0] calls].
  - cbn [app fold_left]. destruct Hb as [H0 _]. cbn [fst] in H0.
    destruct (debounceAt_first wait time a H0) as [Harm Hc].
    rewrite (settle_armed wait _ time a Harm), Hc. reflexivity.
  - cbn [app fold_left]. destruct Hb as [H0 Hb]. cbn [fst] in H0, Hb.
    destruct (debounceAt_first wait t0 a0 H0) as [Harm Hc].
    destruct (burst_fold wait (calls ++ [(time, a)]) _ t0 a0 Harm Hb time a) as [Harm' Hc'].
    { change ((t0, a0) :: calls ++ [(time, a)]) with (((t0, a0) :: calls) ++ [(time, a)]).
      apply last_snoc. }
    rewrite (settle_armed wait _ time a Harm'), Hc', Hc. reflexivity.
Qed.

Lemma debounce_burst_runs_last_once_witness :
  DOMManager.debounceRun string 300 ([(1000%Z, "r"); (1100%Z, "re"); (1399%Z, "res")] ++ [(1698%Z, "resi")])
  = [((1698 + Z.max 0 300)%Z, "resi")].
Proof.
  apply (debounce_burst_runs_last_once string 300
           [(1000%Z, "r"); (1100%Z, "re"); (1399%Z, "res")] 1698 "resi").
  cbn. lia.
Defined.

(** X6: invocations of a debounced function that are each at least one
    [wait] after the one before (the first not before time 0) all reach
    [func]: it runs once per invocation, in order, one [wait] after the
    invocation and with its arguments. *)
Theorem debounce_spaced_runs_each :
  forall (Args : Type) (wait : Z) (calls : list (Z * Args)),
    (forall call, head calls = Some call -> (0 <= call.1)%Z) ->
    DOMManager.spaced Args wait calls ->
    DOMManager.debounceRun Args wait calls
    = map (fun call => ((call.1 + Z.max 0 wait)%Z, call.2)) calls.
Proof.
  intros Args wait calls H0 Hsp. unfold DOMManager.debounceRun.
  destruct calls as [|[t0 a0] calls]; [reflexivity|].
  cbn [fold_left].
  destruct (debounceAt_first wait t0 a0 (H0 _ eq_refl)) as [Harm Hc].
  pose proof (spaced_fold wait calls _ t0 a0 Harm Hsp) as H. cbv zeta in H.
  rewrite H, Hc. reflexivity.
Qed.

Lemma debounce_spaced_runs_each_witness :
  DOMManager.debounceRun string 250 [(0%Z, "a"); (250%Z, "b"); (900%Z, "c")]
  = map (fun call => ((call.1 + Z.max 0 250)%Z, call.2)) [(0%Z, "a"); (250%Z, "b"); (900%Z, "c")].
Proof.
  apply (debounce_spaced_runs_each string 250 [(0%Z, "a"); (250%Z, "b"); (900%Z, "c")]).
  - intros call H. injection H as <-. cbn. lia.
  - cbn. lia.
Defined.

Section Throttle_pattern_facts.
Import DOMManager.
Context {Args : Type}.
Variable limit : Z.

(** The window is open until [due]: one timer pending, the one that
    closes it. *)
Let windowOpen (s : Throttled Args) (due : Z) : Prop :=
  inThrottle Args s.2 = true
  /\ (exists i, pending s.1 = [(i, due, reset)])
  /\ (now s.1 <= due)%Z.

Lemma throttleAt_within s due t a :
  windowOpen s due -> (t < due)%Z ->
  windowOpen (throttleAt Args limit s (t, a)) due
  /\ throttleCalls Args (throttleAt Args limit s (t, a)).2 = throttleCalls Args s.2.
Proof.
  intros (Hin & [i Hp] & Hn) Ht. unfold throttleAt. cbn [fst snd].
  rewrite (advanceTo_not_due _ s i _ _ t Hp Ht).
  unfold throttledCall. cbn [fst snd]. rewrite Hin.
  split; [|reflexivity]. split; [exact Hin|]. cbn [fst snd pending now].
  split; [eauto | lia].
Qed.

Lemma throttleAt_after s due t a :
  windowOpen s due -> (due <= t)%Z ->
  windowOpen (throttleAt Args limit s (t, a)) (t + Z.max 0 limit)
  /\ throttleCalls Args (throttleAt Args limit s (t, a)).2 = throttleCalls Args s.2 ++ [(t, a)].
Proof.
  intros (Hin & [i Hp] & Hn) Ht. unfold throttleAt. cbn [fst snd].
  assert (Hadv : advanceTo (runReset Args) t s
                 = ({| now := t; nextId := nextId s.1; pending := [] |},
                    {| inThrottle := false; throttleCalls := throttleCalls Args s.2 |})).
  { unfold advanceTo. rewrite Hp. cbn [length fireDue]. rewrite Hp. cbn [earliest fst snd].
    destruct (Z.leb_spec due t) as [_|H]; [|lia].
    unfold fire, runReset. cbn [fst snd pending now nextId]. rewrite Hp.
    rewrite filter_cons. cbn [fst snd]. destruct (decide (i ≠ i)); [congruence|].
    rewrite filter_nil. f_equal. f_equal. lia. }
  rewrite Hadv. unfold throttledCall, setTimeout, windowOpen.
  cbn [fst snd inThrottle throttleCalls now nextId pending app].
  split; [|reflexivity]. split; [reflexivity|]. split; [eauto | lia].
Qed.

Lemma throttleAt_first t a :
  (0 <= t)%Z ->
  windowOpen (throttleAt Args limit (throttle Args) (t, a)) (t + Z.max 0 limit)
  /\ throttleCalls Args (throttleAt Args limit (throttle Args) (t, a)).2 = [(t, a)].
Proof.
  intros Ht. unfold throttleAt. cbn [fst snd].
  rewrite (advanceTo_idle _ (throttle Args) t) by reflexivity.
  unfold throttledCall, setTimeout, windowOpen.
  cbn [throttle fst snd inThrottle throttleCalls now nextId pending app].
  replace (Z.max 0 t) with t by lia.
  split; [|reflexivity]. split; [reflexivity|]. split; [eauto | lia].
Qed.

Lemma settle_windowOpen s due :
  windowOpen s due ->
  throttleCalls Args (settle (runReset Args) (length (pending s.1)) s).2
  = throttleCalls Args s.2.
Proof.
  intros (Hin & [i Hp] & Hn). rewrite Hp. cbn [length settle]. rewrite Hp.
  reflexivity.
Qed.

Lemma within_fold rest : forall s due,
  windowOpen s due ->
  Forall (fun call => (call.1 < due)%Z) rest ->
  windowOpen (fold_left (throttleAt Args limit) rest s) due
  /\ throttleCalls Args (fold_left (throttleAt Args limit) rest s).2 = throttleCalls Args s.2.
Proof.
  induction rest as [|[t b] rest IH]; intros s due Hs Hall; [auto|].
  inversion Hall as [|? ? Ht Hrest]; subst. cbn [fst] in Ht. cbn [fold_left].
  destruct (throttleAt_within s due t b Hs Ht) as [Hs' Hc].
  destruct (IH _ due Hs' Hrest) as [H1 H2]. split; [exact H1|]. now rewrite H2.
Qed.

Lemma spaced_throttle_fold rest : forall s prev a,
  windowOpen s (prev + Z.max 0 limit) ->
  spaced Args limit ((prev, a) :: rest) ->
  exists due,
    windowOpen (fold_left (throttleAt Args limit) rest s) due
    /\ throttleCalls Args (fold_left (throttleAt Args limit) rest s).2
       = throttleCalls Args s.2 ++ rest.
Proof.
  induction rest as [|[t b] rest IH]; intros s prev a Hs Hsp.
  - cbn [fold_left]. rewrite app_nil_r. eauto.
  - destruct Hsp as [Hw Hsp]. cbn [fst] in Hw. cbn [fold_left].
    destruct (throttleAt_after s _ t b Hs Hw) as [Hs' Hc].
    destruct (IH _ t b Hs' Hsp) as (due & H1 & H2).
    exists due. split; [exact H1|]. rewrite H2, Hc, <- app_assoc. reflexivity.
Qed.

End Throttle_pattern_facts.

(** X7: invocations of a throttled function that are each at least one
    [limit] after the one before (the first not before time 0) all run
    [func], at the time of the invocation and with its arguments:
    nothing is dropped and nothing is delayed. *)
Theorem throttle_spaced_runs_each :
  forall (Args : Type) (limit : Z) (calls : list (Z * Args)),
    (forall call, head calls = Some call -> (0 <= call.1)%Z) ->
    DOMManager.spaced Args limit calls ->
    DOMManager.throttleRun Args limit calls = calls.
Proof.
  intros Args limit calls H0 Hsp. unfold DOMManager.throttleRun.
  destruct calls as [|[t0 a0] calls]; [reflexivity|].
  cbn [fold_left].
  destruct (throttleAt_first limit t0 a0 (H0 _ eq_refl)) as [Hopen Hc].
  destruct (spaced_throttle_fold limit calls _ t0 a0 Hopen Hsp) as (due & H1 & H2).
  rewrite (settle_windowOpen _ due H1), H2, Hc. reflexivity.
Qed.

Lemma throttle_spaced_runs_each_witness :
  DOMManager.throttleRun string 16 [(0%Z, "a"); (16%Z, "b"); (40%Z, "c")]
  = [(0%Z, "a"); (16%Z, "b"); (40%Z, "c")].
Proof.
  apply (throttle_spaced_runs_each string 16 [(0%Z, "a"); (16%Z, "b"); (40%Z, "c")]).
  - intros call H. injection H as <-. cbn. lia.
  - cbn. lia.
Defined.

(** X8: of the invocations of a throttled function that fall inside one
    window (an invocation not before time 0 and any number of others
    less than [limit] after it), only the first runs [func]; the others
    are dropped for good, also once the window has closed. *)
Theorem throttle_window_runs_first_only :
  forall (Args : Type) (limit : Z) (time : Z) (a : Args) (rest : list (Z * Args)),
    (0 <= time)%Z ->
    Forall (fun call => (call.1 < time + limit)%Z) rest ->
    DOMManager.throttleRun Args limit ((time, a) :: rest) = [(time, a)].
Proof.
  intros Args limit time a rest H0 Hall. unfold DOMManager.throttleRun.
  cbn [fold_left].
  destruct (throttleAt_first limit time a H0) as [Hopen Hc].
  destruct (within_fold limit rest _ _ Hopen) as [H1 H2].
  { eapply Forall_impl; [exact Hall|]. intros call Hlt. cbn beta in Hlt |- *. lia. }
  rewrite (settle_windowOpen _ _ H1), H2, Hc. reflexivity.
Qed.

Lemma throttle_window_runs_first_only_witness :
  DOMManager.throttleRun string 16 ((100%Z, "a") :: [(104%Z, "b"); (115%Z, "c")])
  = [(100%Z, "a")].
Proof.
  apply (throttle_window_runs_first_only string 16 100 "a" [(104%Z, "b"); (115%Z, "c")]).
  - lia.
  - repeat constructor; cbn; lia.
Defined.

(** ** Timers whose callbacks leave the timers alone *)

Section Passive_timers.
Import DOMManager ElementHelper.
Context {T V : Type}.
Variable run : T -> Timers T * V -> Timers T * V.
Variable f : T -> V -> V.
Hypothesis run_passive : forall task s, run task s = (s.1, f task s.2).

Lemma earliest_in (l : list (nat * Z * T)) y : earliest l = Some y -> y ∈ l.
Proof.
  revert y. induction l as [|x l IH]; intros y H; [discriminate|].
  cbn [earliest] in H. destruct (earliest l) as [z|].
  - destruct (z.1.2 <? x.1.2)%Z; injection H as <-.
    + apply elem_of_cons. right. apply IH. reflexivity.
    + apply elem_of_cons. now left.
  - injection H as <-. apply elem_of_cons. now left.
Qed.

Lemma earliest_head (x : nat * Z * T) l :
  Forall (fun y => (x.1.2 <= y.1.2)%Z /\ y.1.1 <> x.1.1) l -> earliest (x :: l) = Some x.
Proof.
  intros Hall. cbn [earliest]. destruct (earliest l) as [z|] eqn:He; [|reflexivity].
  apply earliest_in in He. rewrite Forall_forall in Hall. destruct (Hall z He) as [Hle _].
  destruct (Z.ltb_spec z.1.2 x.1.2); [lia | reflexivity].
Qed.

Lemma filter_others (x : nat * Z * T) l :
  Forall (fun y => (x.1.2 <= y.1.2)%Z /\ y.1.1 <> x.1.1) l ->
  filter (fun t' : nat * Z * T => t'.1.1 ≠ x.1.1) (x :: l) = l.
Proof.
  intros Hall. rewrite filter_cons. destruct (decide (x.1.1 ≠ x.1.1)); [congruence|].
  induction Hall as [|y l [_ Hy] Hall IH]; [reflexivity|].
  rewrite filter_cons. destruct (decide (y.1.1 ≠ x.1.1)); [|contradiction].
  now rewrite IH.
Qed.

Lemma fire_head (s : Timers T * V) x l :
  pending s.1 = x :: l ->
  Forall (fun y => (x.1.2 <= y.1.2)%Z /\ y.1.1 <> x.1.1) l ->
  fire run x s
  = ({| now := Z.max (now s.1) x.1.2; nextId := nextId s.1; pending := l |}, f x.2 s.2).
Proof.
  intros Hp Hall. unfold fire. rewrite run_passive. cbn [fst snd].
  now rewrite Hp, (filter_others x l Hall).
Qed.

(** Letting every timer fire runs the callbacks in queue order. *)
Lemma settle_inOrder l : forall fuel (s : Timers T * V),
  pending s.1 = l -> inOrder l -> (length l <= fuel)%nat ->
  pending (settle run fuel s).1 = []
  /\ (settle run fuel s).2 = fold_left (fun v t => f t.2 v) l s.2.
Proof.
  induction l as [|x l IH]; intros fuel s Hp Hord Hfuel.
  - destruct fuel; cbn [settle]; rewrite ?Hp; auto.
  - destruct fuel as [|fuel]; [cbn in Hfuel; lia|].
    destruct Hord as [Hall Hord]. cbn [settle]. rewrite Hp, (earliest_head x l Hall).
    rewrite (fire_head s x l Hp Hall).
    apply IH; [reflexivity | exact Hord | cbn in Hfuel; lia].
Qed.

(** Letting the clock reach [time] runs, in queue order, the callbacks
    of the timers due by then. *)
Lemma fireDue_inOrder l : forall fuel time (s : Timers T * V),
  pending s.1 = l -> inOrder l -> (length l <= fuel)%nat ->
  (fireDue run fuel time s).2
  = fold_left (fun v t => f t.2 v) (filter (fun t => (t.1.2 <= time)%Z) l) s.2.
Proof.
  induction l as [|x l IH]; intros fuel time s Hp Hord Hfuel.
  - destruct fuel; cbn [fireDue]; rewrite ?Hp; reflexivity.
  - destruct fuel as [|fuel]; [cbn in Hfuel; lia|].
    destruct Hord as [Hall Hord]. cbn [fireDue]. rewrite Hp, (earliest_head x l Hall).
    rewrite filter_cons. destruct (Z.leb_spec x.1.2 time) as [Hdue | Hlate].
    + destruct (decide (x.1.2 <= time)%Z); [|lia].
      rewrite (fire_head s x l Hp Hall).
      rewrite (IH fuel time) by (try reflexivity; try assumption; cbn in Hfuel; lia).
      reflexivity.
    + destruct (decide (x.1.2 <= time)%Z); [lia|].
      assert (Hnone : filter (fun t : nat * Z * T => (t.1.2 <= time)%Z) l = []).
      { clear -Hall Hlate. induction Hall as [|y l [Hy _] Hall IH]; [reflexivity|].
        rewrite filter_cons. destruct (decide (y.1.2 <= time)%Z); [lia | exact IH]. }
      rewrite Hnone. reflexivity.
Qed.

End Passive_timers.

(** ** Stagger *)

Section Stagger_facts.
Import Dom DOMManager MotionController ElementHelper.
Lemma addClass_lookup_eq c el (els : gmap nat Node) :
  DOMManager.addClass (Some el) c els !! el
  = if String.eqb c "" then els !! el else classListAdd c <$> els !! el.
Proof.
  unfold DOMManager.addClass. destruct (String.eqb c ""); [reflexivity|].
  apply lookup_alter_eq.
Qed.

Lemma addClass_lookup_ne c e el (els : gmap nat Node) :
  e <> el -> DOMManager.addClass (Some e) c els !! el = els !! el.
Proof.
  intros Hne. unfold DOMManager.addClass. destruct (String.eqb c ""); [reflexivity|].
  now apply lookup_alter_ne.
Qed.

Lemma addClass_all_lookup c l : forall (els : gmap nat Node) el,
  fold_left (fun els e => DOMManager.addClass (Some e) c els) l els !! el
  = if bool_decide (el ∈ l) then DOMManager.addClass (Some el) c els !! el else els !! el.
Proof.
  induction l as [|e l IH]; intros els el; [reflexivity|].
  cbn [fold_left]. rewrite IH.
  destruct (decide (e = el)) as [-> | Hne].
  - rewrite (bool_decide_eq_true_2 (el ∈ el :: l)) by (apply elem_of_cons; now left).
    assert (Htwice : DOMManager.addClass (Some el) c (DOMManager.addClass (Some el) c els) !! el
                     = DOMManager.addClass (Some el) c els !! el).
    { rewrite !addClass_lookup_eq. destruct (String.eqb c ""); [reflexivity|].
      destruct (els !! el) as [node|]; [|reflexivity]. cbn. now rewrite classListAdd_twice. }
    destruct (bool_decide (el ∈ l)); [exact Htwice | reflexivity].
  - assert (Hiff : bool_decide (el ∈ e :: l) = bool_decide (el ∈ l)).
    { apply bool_decide_ext. rewrite elem_of_cons. intuition congruence. }
    rewrite Hiff. destruct (bool_decide (el ∈ l)).
    + rewrite !addClass_lookup_eq, (addClass_lookup_ne c e el els Hne). reflexivity.
    + now apply addClass_lookup_ne.
Qed.

Variables (className : string) (delay : Z).

Let addTo (task : StaggerTask) (els : gmap nat Node) : gmap nat Node :=
  match task with addClassLater el c => DOMManager.addClass (Some el) c els end.

Let staggerTimer (first : nat) (now : Z) (index : nat) (j : nat) (el : nat)
    : nat * Z * StaggerTask :=
  ((first + j)%nat, (now + Z.max 0 (Z.of_nat (index + j) * delay))%Z,
   addClassLater el className).

Lemma runStagger_passive task (s : Stage) : runStagger task s = (s.1, addTo task s.2).
Proof. destruct task; reflexivity. Qed.

Lemma stagger_fold_targets (L : list (nat * Z * StaggerTask)) : forall els,
  Forall (fun t => t.2 = addClassLater (staggerTarget t.2) className) L ->
  fold_left (fun v t => addTo t.2 v) L els
  = fold_left (fun els e => DOMManager.addClass (Some e) className els)
      ((fun t => staggerTarget t.2) <$> L) els.
Proof.
  induction L as [|t L IH]; intros els Hall; [reflexivity|].
  inversion Hall as [|? ? Ht Hrest]; subst. rewrite fmap_cons. cbn [fold_left].
  rewrite IH by exact Hrest. rewrite Ht at 1. reflexivity.
Qed.

Lemma staggerFrom_eq elements : forall index (q : Timers StaggerTask),
  staggerFrom elements index className delay q
  = {| now := now q; nextId := (nextId q + length elements)%nat;
       pending := pending q ++ imap (staggerTimer (nextId q) (now q) index) elements |}.
Proof.
  induction elements as [|el rest IH]; intros index q.
  - cbn. rewrite Nat.add_0_r, app_nil_r. now destruct q.
  - cbn [staggerFrom]. rewrite IH. unfold setTimeout. cbn [snd now nextId pending length].
    f_equal; [lia|]. rewrite <- app_assoc. f_equal. cbn [app imap]. f_equal.
    + unfold staggerTimer. now rewrite !Nat.add_0_r.
    + apply imap_ext. intros j e _. unfold staggerTimer, compose.
      replace (S (nextId q) + j)%nat with (nextId q + S j)%nat by lia.
      replace (S index + j)%nat with (index + S j)%nat by lia. reflexivity.
Qed.

Lemma staggerTimers_inOrder elements : forall first now index,
  inOrder (imap (staggerTimer first now index) elements).
Proof.
  induction elements as [|el rest IH]; intros first now index; [exact I|].
  cbn [imap inOrder]. split.
  - apply Forall_forall. intros y Hy.
    apply elem_of_lookup_imap in Hy as (j & e & -> & _).
    unfold staggerTimer, compose. cbn [fst snd]. split; [nia | lia].
  - assert (Hext : imap (staggerTimer first now index ∘ S) rest
                   = imap (staggerTimer (S first) now (S index)) rest).
    { apply imap_ext. intros j e _. unfold staggerTimer, compose.
      replace (S first + j)%nat with (first + S j)%nat by lia.
      replace (S index + j)%nat with (index + S j)%nat by lia. reflexivity. }
    rewrite Hext. apply IH.
Qed.

Lemma staggerTimers_tasks elements first now index :
  Forall (fun t : nat * Z * StaggerTask => t.2 = addClassLater (staggerTarget t.2) className)
    (imap (staggerTimer first now index) elements).
Proof.
  apply Forall_forall. intros y Hy.
  apply elem_of_lookup_imap in Hy as (j & e & -> & _). reflexivity.
Qed.

Lemma staggerTimers_targets elements first now index :
  (fun t : nat * Z * StaggerTask => staggerTarget t.2)
    <$> imap (staggerTimer first now index) elements = elements.
Proof.
  revert first index. induction elements as [|el rest IH]; intros first index; [reflexivity|].
  cbn [imap]. rewrite fmap_cons. f_equal.
  assert (Hext : imap (staggerTimer first now index ∘ S) rest
                 = imap (staggerTimer (S first) now (S index)) rest).
  { apply imap_ext. intros j e _. unfold staggerTimer, compose.
    replace (S first + j)%nat with (first + S j)%nat by lia.
    replace (S index + j)%nat with (index + S j)%nat by lia. reflexivity. }
  rewrite Hext. apply IH.
Qed.

Lemma staggerTimers_due elements first now time el :
  el ∈ (fun t : nat * Z * StaggerTask => staggerTarget t.2)
        <$> filter (fun t : nat * Z * StaggerTask => (t.1.2 <= time)%Z)
              (imap (staggerTimer first now 0) elements)
  <-> exists i, elements !! i = Some el /\ (now + Z.max 0 (Z.of_nat i * delay) <= time)%Z.
Proof.
  rewrite list_elem_of_fmap. split.
  - intros (t & -> & Ht). apply list_elem_of_filter in Ht as [Hdue Ht].
    apply elem_of_lookup_imap in Ht as (j & e & -> & Hj).
    exists j. split; [exact Hj|]. exact Hdue.
  - intros (i & Hi & Hdue). exists (staggerTimer first now 0 i el). split; [reflexivity|].
    apply list_elem_of_filter. split; [exact Hdue|].
    apply elem_of_lookup_imap. eauto.
Qed.

End Stagger_facts.

(** X9: [staggerAnimation] on a stage with no timer pending.  Under
    reduced motion every listed element gets the class at once and no
    timer is registered.  Otherwise the call changes no element; the
    element at index [i] gets the class when the clock reaches
    [i * delay] after the call (at once for a negative delay), and not
    before; and when every timer has fired exactly the listed elements
    have got the class.  Elements that are not listed are never changed. *)
Theorem stagger_adds_class_in_turn :
  forall (self : AnimationSystem.AnimationSystem) (elements : list nat)
         (className : string) (delay : Z) (s : MotionController.Stage),
    DOMManager.pending s.1 = [] ->
    let s' := MotionController.staggerAnimation self elements className delay s in
    let due i := (DOMManager.now s.1 + Z.max 0 (Z.of_nat i * delay))%Z in
    let marked el := DOMManager.addClass (Some el) className s.2 !! el in
    (AnimationSystem.isReducedMotion self = true ->
       s'.1 = s.1
       /\ forall el, s'.2 !! el = if bool_decide (el ∈ elements) then marked el else s.2 !! el)
    /\ (AnimationSystem.isReducedMotion self = false ->
        s'.2 = s.2
        /\ (forall time el,
              let shown := (DOMManager.advanceTo MotionController.runStagger time s').2 in
              ((exists i, elements !! i = Some el /\ (due i <= time)%Z) ->
               shown !! el = marked el)
              /\ ((forall i, elements !! i = Some el -> (time < due i)%Z) ->
                  shown !! el = s.2 !! el))
        /\ (let final := DOMManager.settle MotionController.runStagger
                           (length (DOMManager.pending s'.1)) s' in
            DOMManager.pending final.1 = []
            /\ forall el, final.2 !! el
                          = if bool_decide (el ∈ elements) then marked el else s.2 !! el)).
Proof.
  intros self elements className delay s Hidle s' due marked. split.
  - intros Hreduced. unfold s', MotionController.staggerAnimation. rewrite Hreduced.
    split; [reflexivity|]. intros el. cbn [snd]. apply addClass_all_lookup.
  - intros Hmotion.
    assert (Hs' : s' = (MotionController.staggerFrom elements 0 className delay s.1, s.2)).
    { unfold s', MotionController.staggerAnimation. now rewrite Hmotion. }
    pose proof (staggerFrom_eq className delay elements 0 s.1) as Hq.
    rewrite Hidle in Hq. cbn [app] in Hq.
    set (timers := imap (fun j el =>
                     ((DOMManager.nextId s.1 + j)%nat,
                      (DOMManager.now s.1 + Z.max 0 (Z.of_nat (0 + j) * delay))%Z,
                      MotionController.addClassLater el className)) elements) in Hq.
    assert (Hp : DOMManager.pending s'.1 = timers) by (rewrite Hs'; cbn [fst]; now rewrite Hq).
    assert (Hv : s'.2 = s.2) by now rewrite Hs'.
    pose proof (staggerTimers_inOrder className delay elements
                  (DOMManager.nextId s.1) (DOMManager.now s.1) 0) as Hord.
    pose proof (staggerTimers_tasks className delay elements
                  (DOMManager.nextId s.1) (DOMManager.now s.1) 0) as Htasks.
    fold timers in Hord, Htasks.
    split; [exact Hv|]. split.
    + intros time el shown.
      assert (Hshown : shown !! el
                = if bool_decide
                       (el ∈ (fun t : nat * Z * MotionController.StaggerTask =>
                                MotionController.staggerTarget t.2)
                             <$> filter (fun t : nat * Z * MotionController.StaggerTask =>
                                           (t.1.2 <= time)%Z) timers)
                  then marked el else s.2 !! el).
      { unfold shown, DOMManager.advanceTo. cbn [snd].
        rewrite (fireDue_inOrder MotionController.runStagger _
                   (runStagger_passive) timers _ time s' Hp Hord) by (rewrite Hp; lia).
        rewrite stagger_fold_targets with (className := className).
        2:{ apply Forall_forall. intros t Ht. apply list_elem_of_filter in Ht as [_ Ht].
            rewrite Forall_forall in Htasks. now apply Htasks. }
        rewrite addClass_all_lookup, Hv. reflexivity. }
      pose proof (staggerTimers_due className delay elements
                    (DOMManager.nextId s.1) (DOMManager.now s.1) time el) as Hdue.
      fold timers in Hdue.
      split.
      * intros Hex. rewrite Hshown. rewrite bool_decide_eq_true_2; [reflexivity|].
        apply Hdue. exact Hex.
      * intros Hnone. rewrite Hshown. rewrite bool_decide_eq_false_2; [reflexivity|].
        intros Hin. apply Hdue in Hin as (i & Hi & Hlate).
        specialize (Hnone i Hi). unfold due in Hnone. lia.
    + cbv zeta.
      destruct (settle_inOrder MotionController.runStagger _ runStagger_passive timers
                  (length (DOMManager.pending s'.1)) s' Hp Hord) as [Hnil Hfinal].
      { rewrite Hp. lia. }
      split; [exact Hnil|]. intros el. rewrite Hfinal.
      rewrite stagger_fold_targets with (className := className) by exact Htasks.
      rewrite addClass_all_lookup, Hv.
      unfold timers. rewrite (staggerTimers_targets className delay elements). reflexivity.
Qed.

Lemma stagger_adds_class_in_turn_witness :
  let self := {| AnimationSystem.isReducedMotion := false; AnimationSystem.isTouch := false;
                 AnimationSystem.observers := [] |} in
  let card := Dom.Element "div" ["feature-card"] [] [] [] in
  let s : MotionController.Stage :=
    ({| DOMManager.now := 0; DOMManager.nextId := 1; DOMManager.pending := [] |},
     <[1 := card]> (<[2 := card]> (<[3 := card]> ∅))) in
  let s' := MotionController.staggerAnimation self [1; 2; 3]%nat "active" 100 s in
  let due i := (DOMManager.now s.1 + Z.max 0 (Z.of_nat i * 100))%Z in
  let marked el := DOMManager.addClass (Some el) "active" s.2 !! el in
  let shown := (DOMManager.advanceTo MotionController.runStagger 150 s').2 in
  ((exists i, [1; 2; 3]%nat !! i = Some 2%nat /\ (due i <= 150)%Z) -> shown !! 2%nat = marked 2%nat)
  /\ ((forall i, [1; 2; 3]%nat !! i = Some 2%nat -> (150 < due i)%Z) ->
      shown !! 2%nat = s.2 !! 2%nat).
Proof.
  intros self card s s' due marked shown.
  refine (proj1 (proj2 (proj2 (stagger_adds_class_in_turn self [1; 2; 3]%nat "active" 100 s _)
                          _)) 150%Z 2%nat).
  - reflexivity.
  - reflexivity.
Defined.

(** ** The mobile menu *)

Section Class_facts.
Import Dom.


Lemma isElement_classListAdd c node : isElement (classListAdd c node) = isElement node.
Proof. now destruct node. Qed.

Lemma isElement_classListRemove c node : isElement (classListRemove c node) = isElement node.
Proof. now destruct node. Qed.


End Class_facts.

Section Menu_facts.
Import Dom PageController.
Variable self : App.
Variables toggle menu : nat.
Hypothesis Htoggle : mobileToggle (elements self) = Some toggle.
Hypothesis Hmenu : navMenu (elements self) = Some menu.
Hypothesis Hdistinct : toggle <> menu.








End Menu_facts.



(** ** The active navigation link *)

Section Navigation_facts.
Import Dom PageController.

Lemma filter_filter_snoc (c : string) (cl : list string) :
  filter (fun c' => c' ≠ c) (filter (fun c' => c' ≠ c) cl ++ [c])
  = filter (fun c' => c' ≠ c) cl.
Proof.
  rewrite filter_app, filter_cons, filter_nil.
  destruct (decide (c ≠ c)); [congruence|]. rewrite app_nil_r.
  induction cl as [|x cl IH]; [reflexivity|].
  rewrite filter_cons. destruct (decide (x ≠ c)) as [Hx | Hx]; [|exact IH].
  rewrite filter_cons. destruct (decide (x ≠ c)); [|contradiction]. now rewrite IH.
Qed.

Lemma filter_filter_same (c : string) (cl : list string) :
  filter (fun c' => c' ≠ c) (filter (fun c' => c' ≠ c) cl) = filter (fun c' => c' ≠ c) cl.
Proof.
  induction cl as [|x cl IH]; [reflexivity|].
  rewrite filter_cons. destruct (decide (x ≠ c)) as [Hx | Hx]; [|exact IH].
  rewrite filter_cons. destruct (decide (x ≠ c)); [|contradiction]. now rewrite IH.
Qed.

Lemma not_in_filter_ne (c : string) (cl : list string) : c ∉ filter (fun c' => c' ≠ c) cl.
Proof. intros H. apply list_elem_of_filter in H as [H _]. congruence. Qed.

(** Only the last update counts. *)
Lemma markLink_markLink s1 s2 node : markLink s2 (markLink s1 node) = markLink s2 node.
Proof.
  destruct node as [|tag cl attrs st ch]; [reflexivity|].
  unfold markLink. cbn [classListRemove getAttribute].
  destruct (bool_decide (lookupKey "href" attrs = Some ("#" +:+ s1))).
  - cbn [classListAdd classListRemove getAttribute].
    rewrite ?filter_filter_snoc, ?(bool_decide_eq_false_2 _ (not_in_filter_ne "active" cl)).
    rewrite ?filter_filter_snoc, ?(bool_decide_eq_false_2 _ (not_in_filter_ne "active" cl)).
    reflexivity.
  - cbn [classListAdd classListRemove getAttribute].
    rewrite ?filter_filter_same, ?(bool_decide_eq_false_2 _ (not_in_filter_ne "active" cl)).
    reflexivity.
Qed.

Lemma markLink_spec s node :
  isElement node = true ->
  isElement (markLink s node) = true
  /\ (hasClass "active" (markLink s node) = true
      <-> getAttribute "href" node = Some ("#" +:+ s))
  /\ (forall k, getAttribute k (markLink s node) = getAttribute k node)
  /\ (forall c, c <> "active" -> hasClass c (markLink s node) = hasClass c node).
Proof.
  destruct node as [|tag cl attrs st ch]; [discriminate|]. intros _.
  unfold markLink. cbn [classListRemove getAttribute].
  assert (Hother : forall c, c <> "active" ->
            bool_decide (c ∈ filter (fun c' => c' ≠ "active") cl) = bool_decide (c ∈ cl)).
  { intros c Hc. apply bool_decide_ext. rewrite list_elem_of_filter. tauto. }
  destruct (bool_decide (lookupKey "href" attrs = Some ("#" +:+ s))) eqn:Hhref.
  - apply bool_decide_eq_true in Hhref.
    cbn [classListAdd isElement hasClass getAttribute].
    rewrite (bool_decide_eq_false_2 _ (not_in_filter_ne "active" cl)).
    split; [reflexivity|]. split; [|split; [reflexivity|]].
    + split; [intros _; exact Hhref | intros _].
      apply bool_decide_eq_true. apply elem_of_app. right. apply elem_of_cons. now left.
    + intros c Hc. rewrite <- (Hother c Hc). apply bool_decide_ext.
      rewrite elem_of_app, elem_of_cons, elem_of_nil. tauto.
  - apply bool_decide_eq_false in Hhref.
    cbn [isElement hasClass getAttribute].
    split; [reflexivity|]. split; [|split; [reflexivity | exact Hother]].
    rewrite (bool_decide_eq_false_2 _ (not_in_filter_ne "active" cl)).
    split; [discriminate | intros H; contradiction].
Qed.

(** The body of the loop of [updateActiveNavigation] rewrites one link. *)
Lemma updateLink_alter (s : string) (link : nat) (els : gmap nat Node) :
  (let els := DOMManager.removeClass (Some link) "active" els in
   if bool_decide (els !! link ≫= getAttribute "href" = Some ("#" +:+ s))
   then DOMManager.addClass (Some link) "active" els
   else els)
  = alter (markLink s) link els.
Proof.
  cbv zeta. cbn [DOMManager.removeClass DOMManager.addClass String.eqb Ascii.eqb Bool.eqb].
  rewrite lookup_alter_eq. apply map_eq. intros k.
  destruct (decide (k = link)) as [-> | Hne].
  - destruct (els !! link) as [node|] eqn:Hn.
    + cbn [fmap option_fmap option_map mbind option_bind].
      destruct node as [|tag cl attrs st ch].
      * cbn [classListRemove getAttribute].
        rewrite bool_decide_eq_false_2 by discriminate.
        rewrite !lookup_alter_eq, Hn. reflexivity.
      * cbn [classListRemove getAttribute].
        destruct (bool_decide (lookupKey "href" attrs = Some ("#" +:+ s))) eqn:Hhref;
          rewrite !lookup_alter_eq, Hn; cbn [fmap option_fmap option_map];
          unfold markLink; cbn [classListRemove getAttribute]; rewrite Hhref; reflexivity.
    + cbn [fmap option_fmap option_map mbind option_bind].
      rewrite bool_decide_eq_false_2 by discriminate.
      rewrite !lookup_alter_eq, Hn. reflexivity.
  - destruct (bool_decide _); rewrite !lookup_alter_ne by congruence; reflexivity.
Qed.

Lemma updateActiveNavigation_alter self s els :
  updateActiveNavigation self s els
  = (withCurrentSection s self,
     fold_left (fun els link => alter (markLink s) link els) (navLinks (elements self)) els).
Proof.
  unfold updateActiveNavigation. f_equal.
  generalize (navLinks (elements self)) as links. intros links. revert els.
  induction links as [|link links IH]; intros els; [reflexivity|].
  cbn [fold_left]. rewrite <- IH. f_equal. apply updateLink_alter.
Qed.

Lemma markAll_lookup s links : forall (els : gmap nat Node) k,
  fold_left (fun els link => alter (markLink s) link els) links els !! k
  = if bool_decide (k ∈ links) then markLink s <$> els !! k else els !! k.
Proof.
  induction links as [|link links IH]; intros els k; [reflexivity|].
  cbn [fold_left]. rewrite IH.
  destruct (decide (k = link)) as [-> | Hne].
  - rewrite (bool_decide_eq_true_2 (link ∈ link :: links)) by (apply elem_of_cons; now left).
    rewrite lookup_alter_eq.
    destruct (bool_decide (link ∈ links)); [|reflexivity].
    destruct (els !! link) as [node|]; [|reflexivity].
    cbn [fmap option_fmap option_map]. now rewrite markLink_markLink.
  - assert (Hiff : bool_decide (k ∈ link :: links) = bool_decide (k ∈ links)).
    { apply bool_decide_ext. rewrite elem_of_cons. intuition congruence. }
    rewrite Hiff, lookup_alter_ne by congruence. reflexivity.
Qed.

Lemma updateActiveNavigation_twice self s1 s2 els :
  updateActiveNavigation (updateActiveNavigation self s1 els).1 s2
    (updateActiveNavigation self s1 els).2
  = updateActiveNavigation self s2 els.
Proof.
  rewrite !updateActiveNavigation_alter. cbn [fst snd withCurrentSection elements].
  f_equal. apply map_eq. intros k. rewrite !markAll_lookup.
  destruct (bool_decide (k ∈ navLinks (elements self))); [|reflexivity].
  destruct (els !! k) as [node|]; [|reflexivity].
  cbn [fmap option_fmap option_map]. now rewrite markLink_markLink.
Qed.

Lemma sectionCallback_last entries : forall self els,
  sectionCallback entries (self, els)
  = match last (filter (fun entry => isIntersecting entry = true) entries) with
    | Some entry => updateActiveNavigation self (targetId entry) els
    | None => (self, els)
    end.
Proof.
  induction entries as [|entry entries IH] using rev_ind; intros self els; [reflexivity|].
  unfold sectionCallback. rewrite fold_left_app. cbn [fold_left].
  fold (sectionCallback entries (self, els)). rewrite IH.
  rewrite filter_app, filter_cons, filter_nil.
  destruct (isIntersecting entry) eqn:Hi.
  - destruct (decide (true = true)); [|congruence]. rewrite last_snoc.
    destruct (last (filter _ entries)) as [previous|].
    + apply updateActiveNavigation_twice.
    + reflexivity.
  - destruct (decide (false = true)); [discriminate|]. now rewrite app_nil_r.
Qed.

End Navigation_facts.

(** X11: the section observer and the active navigation link.  Of a
    batch of entries only the last intersecting one counts: the callback
    leaves the page as one call of [updateActiveNavigation] with the id
    of that entry's target would (and unchanged when no entry
    intersects).  After [updateActiveNavigation(sectionId)] the current
    section is [sectionId]; a cached navigation link is [active] exactly
    when its [href] is [#sectionId], keeps its attributes and its other
    classes; and elements that are not cached navigation links are
    untouched. *)
Theorem active_link_follows_section :
  forall (self : PageController.App) (els : gmap nat Dom.Node),
    (forall entries,
        PageController.sectionCallback entries (self, els)
        = match last (filter (fun entry => PageController.isIntersecting entry = true) entries)
          with
          | Some entry =>
              PageController.updateActiveNavigation self (PageController.targetId entry) els
          | None => (self, els)
          end)
    /\ (forall sectionId,
          let after := PageController.updateActiveNavigation self sectionId els in
          PageController.currentSection after.1 = sectionId
          /\ PageController.elements after.1 = PageController.elements self
          /\ (forall link node,
                link ∈ PageController.navLinks (PageController.elements self) ->
                els !! link = Some node ->
                Dom.isElement node = true ->
                exists node',
                  after.2 !! link = Some node'
                  /\ (Dom.hasClass "active" node' = true
                      <-> Dom.getAttribute "href" node = Some ("#" +:+ sectionId))
                  /\ (forall k, Dom.getAttribute k node' = Dom.getAttribute k node)
                  /\ (forall c, c <> "active" -> Dom.hasClass c node' = Dom.hasClass c node))
          /\ (forall other,
                other ∉ PageController.navLinks (PageController.elements self) ->
                after.2 !! other = els !! other)).
Proof.
  intros self els. split; [intros entries; apply sectionCallback_last|].
  intros sectionId after. unfold after. rewrite updateActiveNavigation_alter.
  cbn [fst snd PageController.withCurrentSection PageController.currentSection
       PageController.elements].
  split; [reflexivity|]. split; [reflexivity|]. split.
  - intros link node Hin Hn Hel. exists (PageController.markLink sectionId node).
    rewrite markAll_lookup, (bool_decide_eq_true_2 _ Hin), Hn.
    split; [reflexivity|]. apply (markLink_spec sectionId node Hel).
  - intros other Hout. rewrite markAll_lookup. now rewrite (bool_decide_eq_false_2 _ Hout).
Qed.

(** ** Rendering the whole page *)

Section Content_facts.
Import Dom DOMManager ComponentSystem PageController.

Local Abbreviation attachedAt b container :=
  (forall c, container = Some c ->
             exists node, ComponentSystem.elements b !! c = Some node /\ isElement node = true).

Lemma renderStats_into b container (records : option (list Stat.t)) :
  attachedAt b container ->
  exists b',
    renderStats componentSystem records container b = (Ok tt, b')
    /\ rendersInto b b' container records (statInstance componentSystem)
         (fun i => Some (JS.showNat i)).
Proof.
  intros Hat.
  destruct container as [c|]; [|eexists; split; destruct records; reflexivity].
  destruct records as [records|]; [|eexists; split; reflexivity].
  destruct (Hat c eq_refl) as (node & Hc & Hel).
  destruct (renderStats_appends b c node records Hc Hel) as (b' & H1 & _ & H3).
  exists b'. split; assumption.
Qed.

Lemma renderLoop_into {R : Type} (instance : R -> nat -> Result Node)
    (stagger : nat -> option string) b container (records : option (list R))
    (render : option (list R) -> option nat -> M Browser unit) :
  (forall r i, exists card, instance r i = Ok card /\ dataset "stagger" card = stagger i) ->
  (forall b, render None container b = (Ok tt, b)) ->
  (forall records b, render records None b = (Ok tt, b)) ->
  (forall records c,
      render (Some records) (Some c)
      = (fragment <- forEach (fun r i fragment =>
                       card <- liftR (instance r i) ;; ret (fragment ++ [card])) records [] ;;
         appendToContainer c fragment)) ->
  attachedAt b container ->
  exists b',
    render records container b = (Ok tt, b')
    /\ timeouts b' = timeouts b
    /\ rendersInto b b' container records instance stagger.
Proof.
  intros Hok Hnone Hnull Hloop Hat.
  destruct container as [c|].
  - destruct records as [records|].
    + destruct (Hat c eq_refl) as (node & Hc & Hel).
      destruct (render_loop_appends instance stagger b c node records Hc Hel Hok)
        as (b' & H1 & H2 & H3).
      exists b'. rewrite Hloop. auto.
    + exists b. rewrite Hnone. split; [reflexivity|]. split; reflexivity.
  - exists b. rewrite Hnull. split; [reflexivity|]. split; [reflexivity|].
    unfold rendersInto. reflexivity.
Qed.

Lemma rendersInto_attached {R : Type} b b' container (records : option (list R))
    instance stagger c node :
  rendersInto b b' container records instance stagger ->
  ComponentSystem.elements b !! c = Some node -> isElement node = true ->
  exists node', ComponentSystem.elements b' !! c = Some node' /\ isElement node' = true.
Proof.
  intros Hr Hc Hel. unfold rendersInto in Hr.
  destruct container as [k|]; [destruct records as [records|]|]; try (rewrite Hr; eauto).
  destruct Hr as (tag & cl & attrs & st & ch & cards & _ & Hb' & _).
  rewrite Hb'. destruct (decide (k = c)) as [-> | Hne].
  - rewrite lookup_insert_eq. eauto.
  - rewrite lookup_insert_ne by exact Hne. eauto.
Qed.

Lemma containersAttached_step {R : Type} self b b' container (records : option (list R))
    instance stagger :
  containersAttached self b ->
  rendersInto b b' container records instance stagger ->
  containersAttached self b'.
Proof.
  intros Hat Hr c Hin. destruct (Hat c Hin) as (node & Hc & Hel).
  apply (rendersInto_attached b b' container records instance stagger c node Hr Hc Hel).
Qed.

End Content_facts.

(** X12: [renderContent] on a page where every container that
    [cacheElements] found is an element.  Without site data nothing
    happens.  With site data the five render calls all return normally,
    one after the other (nothing is caught): each one appends to its
    container one instance per record, in order, when both the container
    and the records are there, and leaves the elements alone otherwise;
    only the statistics register timers. *)
Theorem renderContent_renders_each_section :
  forall (getDate : string -> option nat) (monthShort : string -> string)
         (self : PageController.App) (b : ComponentSystem.Browser),
    PageController.containersAttached self b ->
    match PageController.siteData self with
    | None => PageController.renderContent getDate monthShort self b = (Ok tt, b)
    | Some data =>
        exists b1 b2 b3 b4 b5,
          PageController.renderContent getDate monthShort self b = (Ok tt, b5)
          /\ PageController.renderAll getDate monthShort self data b = (Ok tt, b5)
          /\ PageController.rendersInto b b1
               (PageController.statsGrid (PageController.elements self))
               (PageController.stats data)
               (ComponentSystem.statInstance ComponentSystem.componentSystem)
               (fun i => Some (JS.showNat i))
          /\ PageController.rendersInto b1 b2
               (PageController.featuresGrid (PageController.elements self))
               (PageController.features data)
               (ComponentSystem.featureCard ComponentSystem.componentSystem)
               (fun i => Some (JS.showNat i))
          /\ PageController.rendersInto b2 b3
               (PageController.eventsContainer (PageController.elements self))
               (PageController.events data)
               (ComponentSystem.eventItem getDate monthShort ComponentSystem.componentSystem)
               (fun i => Some (JS.showNat i))
          /\ PageController.rendersInto b3 b4
               (PageController.contactInfo (PageController.elements self))
               (PageController.contact data)
               (ComponentSystem.contactItem ComponentSystem.componentSystem)
               (fun i => Some (JS.showNat i))
          /\ PageController.rendersInto b4 b5
               (PageController.footerLinks (PageController.elements self))
               (PageController.footer data)
               (ComponentSystem.footerSection ComponentSystem.componentSystem)
               (fun _ => None)
          /\ ComponentSystem.timeouts b5 = ComponentSystem.timeouts b1
    end.
Proof.
  intros getDate monthShort self b Hat.
  destruct (PageController.siteData self) as [data|] eqn:Hdata.
  2:{ unfold PageController.renderContent. now rewrite Hdata. }
  assert (Hpick : forall b0 (container : option nat),
            PageController.containersAttached self b0 ->
            container ∈ [PageController.statsGrid (PageController.elements self);
                         PageController.featuresGrid (PageController.elements self);
                         PageController.eventsContainer (PageController.elements self);
                         PageController.contactInfo (PageController.elements self);
                         PageController.footerLinks (PageController.elements self)] ->
            forall c, container = Some c ->
                      exists node, ComponentSystem.elements b0 !! c = Some node
                                   /\ Dom.isElement node = true).
  { intros b0 container H0 Hin c ->. now apply H0. }
  destruct (renderStats_into b (PageController.statsGrid (PageController.elements self))
              (PageController.stats data)) as (b1 & E1 & R1).
  { apply (Hpick b _ Hat). rewrite !elem_of_cons. auto 10. }
  pose proof (containersAttached_step self b b1 _ _ _ _ Hat R1) as Hat1.
  destruct (renderLoop_into (ComponentSystem.featureCard ComponentSystem.componentSystem)
              (fun i => Some (JS.showNat i)) b1
              (PageController.featuresGrid (PageController.elements self))
              (PageController.features data)
              (ComponentSystem.renderFeatures ComponentSystem.componentSystem))
    as (b2 & E2 & T2 & R2).
  { intros r i. rewrite featureCard_eq. eexists. split; reflexivity. }
  { intros b0. now destruct (PageController.featuresGrid _). }
  { intros records b0. now destruct records. }
  { reflexivity. }
  { apply (Hpick b1 _ Hat1). rewrite !elem_of_cons. auto 10. }
  pose proof (containersAttached_step self b1 b2 _ _ _ _ Hat1 R2) as Hat2.
  destruct (renderLoop_into
              (ComponentSystem.eventItem getDate monthShort ComponentSystem.componentSystem)
              (fun i => Some (JS.showNat i)) b2
              (PageController.eventsContainer (PageController.elements self))
              (PageController.events data)
              (ComponentSystem.renderEvents getDate monthShort ComponentSystem.componentSystem))
    as (b3 & E3 & T3 & R3).
  { intros r i. rewrite eventItem_eq. eexists. split; reflexivity. }
  { intros b0. now destruct (PageController.eventsContainer _). }
  { intros records b0. now destruct records. }
  { reflexivity. }
  { apply (Hpick b2 _ Hat2). rewrite !elem_of_cons. auto 10. }
  pose proof (containersAttached_step self b2 b3 _ _ _ _ Hat2 R3) as Hat3.
  destruct (renderLoop_into (ComponentSystem.contactItem ComponentSystem.componentSystem)
              (fun i => Some (JS.showNat i)) b3
              (PageController.contactInfo (PageController.elements self))
              (PageController.contact data)
              (ComponentSystem.renderContactInfo ComponentSystem.componentSystem))
    as (b4 & E4 & T4 & R4).
  { intros r i. rewrite contactItem_eq. eexists. split; reflexivity. }
  { intros b0. now destruct (PageController.contactInfo _). }
  { intros records b0. now destruct records. }
  { reflexivity. }
  { apply (Hpick b3 _ Hat3). rewrite !elem_of_cons. auto 10. }
  pose proof (containersAttached_step self b3 b4 _ _ _ _ Hat3 R4) as Hat4.
  destruct (renderLoop_into (ComponentSystem.footerSection ComponentSystem.componentSystem)
              (fun _ => None) b4
              (PageController.footerLinks (PageController.elements self))
              (PageController.footer data)
              (ComponentSystem.renderFooterLinks ComponentSystem.componentSystem))
    as (b5 & E5 & T5 & R5).
  { intros r i. rewrite footerSection_eq. eexists. split; reflexivity. }
  { intros b0. now destruct (PageController.footerLinks _). }
  { intros records b0. now destruct records. }
  { reflexivity. }
  { apply (Hpick b4 _ Hat4). rewrite !elem_of_cons. auto 10. }
  assert (Hall : PageController.renderAll getDate monthShort self data b = (Ok tt, b5)).
  { unfold PageController.renderAll.
    unfold bind at 1. rewrite E1. unfold bind at 1. rewrite E2.
    unfold bind at 1. rewrite E3. unfold bind at 1. rewrite E4. exact E5. }
  exists b1, b2, b3, b4, b5.
  split. { unfold PageController.renderContent. now rewrite Hdata, Hall. }
  split; [exact Hall|].
  repeat (split; [assumption|]). congruence.
Qed.

Lemma renderContent_renders_each_section_witness :
  let cached :=
    {| PageController.loadingScreen := None; PageController.navbar := None;
       PageController.navMenu := None; PageController.mobileToggle := None;
       PageController.navLinks := []; PageController.statsGrid := Some 1%nat;
       PageController.featuresGrid := Some 2%nat; PageController.eventsContainer := None;
       PageController.contactInfo := None; PageController.footerLinks := Some 3%nat;
       PageController.contactForm := None; PageController.formInputs := [];
       PageController.sections := [] |} in
  let data :=
    {| PageController.stats :=
         Some [{| Stat.number := "500"; Stat.suffix := Some "+"; Stat.label := "Members" |}];
       PageController.features :=
         Some [{| Feature.icon := "A"; Feature.title := "Learn";
                  Feature.description := "x" |}];
       PageController.events := None;
       PageController.contact := None;
       PageController.footer :=
         Some [{| FooterSection.title := "Company";
                  FooterSection.links := [{| Link.text := "About"; Link.url := "#about" |}] |}]
    |} in
  let self := {| PageController.siteData := Some data; PageController.isInitialized := false;
                 PageController.elements := cached;
                 PageController.currentSection := "home" |} in
  let grid := Dom.Element "div" [] [] [] [] in
  let b := {| ComponentSystem.elements :=
                <[1%nat := grid]> (<[2%nat := grid]> (<[3%nat := grid]> ∅));
              ComponentSystem.timeouts := [] |} in
  match PageController.siteData self with
  | None => PageController.renderContent (fun _ => None) (fun s => s) self b = (Ok tt, b)
  | Some data =>
      exists b1 b2 b3 b4 b5,
        PageController.renderContent (fun _ => None) (fun s => s) self b = (Ok tt, b5)
        /\ PageController.renderAll (fun _ => None) (fun s => s) self data b = (Ok tt, b5)
        /\ PageController.rendersInto b b1
             (PageController.statsGrid (PageController.elements self))
             (PageController.stats data)
             (ComponentSystem.statInstance ComponentSystem.componentSystem)
             (fun i => Some (JS.showNat i))
        /\ PageController.rendersInto b1 b2
             (PageController.featuresGrid (PageController.elements self))
             (PageController.features data)
             (ComponentSystem.featureCard ComponentSystem.componentSystem)
             (fun i => Some (JS.showNat i))
        /\ PageController.rendersInto b2 b3
             (PageController.eventsContainer (PageController.elements self))
             (PageController.events data)
             (ComponentSystem.eventItem (fun _ => None) (fun s => s)
                ComponentSystem.componentSystem)
             (fun i => Some (JS.showNat i))
        /\ PageController.rendersInto b3 b4
             (PageController.contactInfo (PageController.elements self))
             (PageController.contact data)
             (ComponentSystem.contactItem ComponentSystem.componentSystem)
             (fun i => Some (JS.showNat i))
        /\ PageController.rendersInto b4 b5
             (PageController.footerLinks (PageController.elements self))
             (PageController.footer data)
             (ComponentSystem.footerSection ComponentSystem.componentSystem)
             (fun _ => None)
        /\ ComponentSystem.timeouts b5 = ComponentSystem.timeouts b1
  end.
Proof.
  intros cached data self grid b.
  apply (renderContent_renders_each_section (fun _ => None) (fun s => s) self b).
  intros c Hin.
  cbn in Hin.
  repeat (apply elem_of_cons in Hin; destruct Hin as [Hin | Hin];
          [try discriminate Hin;
           try (injection Hin as ->; exists grid; split; reflexivity)|]).
  apply elem_of_nil in Hin. contradiction.
Defined.

(** ** The whole form *)

Section Form_facts.
Import Dom TeqpodApp.

(** The verdict does not depend on the page. *)
Lemma validateField_verdict field (els els' : gmap nat Node) :
  (validateField field els).1 = (validateField field els').1.
Proof.
  unfold validateField.
  destruct (required field && bool_decide (trim (value field) = [])),
    (String.eqb (type field) "email" && negb (bool_decide (trim (value field) = []))),
    (negb (test emailRegex (trim (value field)))); reflexivity.
Qed.

Lemma validateField_elements field (els : gmap nat Node) :
  (validateField field els).2
  = if (validateField field els).1
    then DOMManager.removeClass (formGroup field) "error" els
    else DOMManager.addClass (formGroup field) "error" els.
Proof.
  unfold validateField.
  destruct (required field && bool_decide (trim (value field) = [])),
    (String.eqb (type field) "email" && negb (bool_decide (trim (value field) = []))),
    (negb (test emailRegex (trim (value field)))); reflexivity.
Qed.

Lemma validateField_other field (els : gmap nat Node) group :
  formGroup field <> Some group -> (validateField field els).2 !! group = els !! group.
Proof.
  intros Hne. rewrite validateField_elements.
  destruct (formGroup field) as [g|]; [|destruct (validateField _ _).1; reflexivity].
  assert (g <> group) by congruence.
  destruct (validateField _ _).1;
    cbn [DOMManager.removeClass DOMManager.addClass String.eqb Ascii.eqb Bool.eqb];
    now rewrite lookup_alter_ne.
Qed.

Lemma validateField_keeps_element field (els : gmap nat Node) group node :
  els !! group = Some node -> isElement node = true ->
  exists node', (validateField field els).2 !! group = Some node' /\ isElement node' = true.
Proof.
  intros Hn Hel. destruct (decide (formGroup field = Some group)) as [Hg | Hg].
  - rewrite validateField_elements, Hg.
    destruct (validateField _ _).1;
      cbn [DOMManager.removeClass DOMManager.addClass String.eqb Ascii.eqb Bool.eqb];
      rewrite lookup_alter_eq, Hn; cbn [fmap option_fmap option_map]; eexists;
      (split; [reflexivity|]).
    + now rewrite isElement_classListRemove.
    + now rewrite isElement_classListAdd.
  - rewrite (validateField_other field els group Hg). eauto.
Qed.

Lemma validateField_marks field (els : gmap nat Node) group node :
  formGroup field = Some group -> els !! group = Some node -> isElement node = true ->
  exists node', (validateField field els).2 !! group = Some node'
                /\ (hasClass "error" node' = true <-> (validateField field els).1 = false).
Proof.
  intros Hg Hn Hel. rewrite validateField_elements, Hg.
  destruct (validateField field els).1;
    cbn [DOMManager.removeClass DOMManager.addClass String.eqb Ascii.eqb Bool.eqb];
    rewrite lookup_alter_eq, Hn; cbn [fmap option_fmap option_map]; eexists;
    (split; [reflexivity|]).
  - rewrite hasClass_classListRemove. split; congruence.
  - rewrite (hasClass_classListAdd _ _ Hel). split; congruence.
Qed.

Lemma forallb_verdict inputs (els els' : gmap nat Node) :
  forallb (fun field => (validateField field els).1) inputs
  = forallb (fun field => (validateField field els').1) inputs.
Proof.
  induction inputs as [|field inputs IH]; [reflexivity|].
  cbn [forallb]. now rewrite IH, (validateField_verdict field els els').
Qed.

(** The two components of the loop of [validateForm]. *)
Lemma validateForm_fold inputs : forall (acc : bool) (els : gmap nat Node),
  fold_left (fun acc input =>
               let (ok, els) := validateField input acc.2 in
               (if ok then acc.1 else false, els)) inputs (acc, els)
  = (acc && forallb (fun field => (validateField field els).1) inputs,
     fold_left (fun els field => (validateField field els).2) inputs els).
Proof.
  induction inputs as [|field inputs IH]; intros acc els.
  - cbn. now rewrite andb_true_r.
  - cbn [fold_left forallb fst snd].
    destruct (validateField field els) as [ok els'] eqn:Hv. rewrite IH. cbn [fst snd].
    f_equal. rewrite andb_assoc. f_equal; [now destruct ok, acc|].
    apply forallb_verdict.
Qed.

Lemma validateAll_other inputs : forall (els : gmap nat Node) group,
  Forall (fun field => formGroup field <> Some group) inputs ->
  fold_left (fun els field => (validateField field els).2) inputs els !! group = els !! group.
Proof.
  induction inputs as [|field inputs IH]; intros els group Hall; [reflexivity|].
  inversion Hall as [|? ? Hf Hrest]; subst. cbn [fold_left].
  rewrite (IH _ group Hrest). now apply validateField_other.
Qed.

Lemma validateAll_keeps_element inputs : forall (els : gmap nat Node) group node,
  els !! group = Some node -> isElement node = true ->
  exists node', fold_left (fun els field => (validateField field els).2) inputs els !! group
                = Some node' /\ isElement node' = true.
Proof.
  induction inputs as [|field inputs IH]; intros els group node Hn Hel; [eauto|].
  cbn [fold_left].
  destruct (validateField_keeps_element field els group node Hn Hel) as (node' & Hn' & Hel').
  apply (IH _ group node' Hn' Hel').
Qed.

End Form_facts.

(** X13: [validateForm] validates every input and skips none.  The
    result is true exactly when every input is valid on its own; the
    form group of an input carries the class [error] after the call
    exactly when that input is invalid (for several inputs in one group,
    the last one decides), also when an earlier input has already
    failed; and elements that are no input's form group are untouched. *)
Theorem validateForm_checks_every_field :
  forall (inputs : list TeqpodApp.Field) (elements : gmap nat Dom.Node),
    let verdict field := (TeqpodApp.validateField field elements).1 in
    let result := TeqpodApp.validateForm inputs elements in
    result.1 = forallb verdict inputs
    /\ (forall before field rest group node,
          inputs = before ++ field :: rest ->
          TeqpodApp.formGroup field = Some group ->
          Forall (fun later => TeqpodApp.formGroup later <> Some group) rest ->
          elements !! group = Some node ->
          Dom.isElement node = true ->
          exists node', result.2 !! group = Some node'
                        /\ (Dom.hasClass "error" node' = true <-> verdict field = false))
    /\ (forall other,
          Forall (fun field => TeqpodApp.formGroup field <> Some other) inputs ->
          result.2 !! other = elements !! other).
Proof.
  intros inputs elements verdict result.
  assert (Hresult : result
            = (forallb verdict inputs,
               fold_left (fun els field => (TeqpodApp.validateField field els).2)
                 inputs elements)).
  { unfold result, TeqpodApp.validateForm. rewrite validateForm_fold. reflexivity. }
  rewrite Hresult. cbn [fst snd]. split; [reflexivity|]. split.
  - intros before field rest group node -> Hg Hrest Hn Hel.
    rewrite fold_left_app. cbn [fold_left].
    rewrite (validateAll_other rest _ group Hrest).
    destruct (validateAll_keeps_element before elements group node Hn Hel)
      as (node0 & Hn0 & Hel0).
    destruct (validateField_marks field _ group node0 Hg Hn0 Hel0) as (node' & Hn' & Hmark).
    exists node'. split; [exact Hn'|]. unfold verdict.
    now rewrite (validateField_verdict field elements
                   (fold_left (fun els f => (TeqpodApp.validateField f els).2) before elements)).
  - intros other Hall. now apply validateAll_other.
Qed.

(** ** White space around a field value *)

Section Trim_facts.
Import TeqpodApp.

Local Abbreviation blank l := (Forall (fun c => isWhiteSpace c = true) l).

Lemma trimStart_blank l s : blank l -> trimStart (l ++ s) = trimStart s.
Proof.
  induction 1 as [|c l Hc _ IH]; [reflexivity|].
  cbn [app trimStart]. now rewrite Hc.
Qed.

Lemma trimStart_all_blank l : blank l -> trimStart l = [].
Proof. intros H. rewrite <- (app_nil_r l). now rewrite trimStart_blank. Qed.

Lemma trimStart_app s a : trimStart s <> [] -> trimStart (s ++ a) = trimStart s ++ a.
Proof.
  induction s as [|c s IH]; intros H; [contradiction|].
  cbn [app trimStart] in *. destruct (isWhiteSpace c); [now apply IH | reflexivity].
Qed.

Lemma trimStart_split s : exists l, s = l ++ trimStart s /\ blank l.
Proof.
  induction s as [|c s (l & Hs & Hl)].
  - exists []. split; [reflexivity | constructor].
  - cbn [trimStart]. destruct (isWhiteSpace c) eqn:Hc.
    + exists (c :: l). split; [cbn; now rewrite <- Hs | now constructor].
    + exists []. split; [reflexivity | constructor].
Qed.

Lemma trimStart_head s c : head (trimStart s) = Some c -> isWhiteSpace c = false.
Proof.
  induction s as [|x s IH]; [discriminate|].
  cbn [trimStart]. destruct (isWhiteSpace x) eqn:Hx; [exact IH|].
  cbn. intros H. injection H as <-. exact Hx.
Qed.

Lemma blank_rev l : blank l -> blank (rev l).
Proof. apply Forall_rev. Qed.

Lemma trim_surrounded before v after :
  blank before -> blank after -> trim (before ++ v ++ after) = trim v.
Proof.
  intros Hb Ha. unfold trim. f_equal. rewrite (trimStart_blank before _ Hb).
  destruct (trimStart v) as [|c t] eqn:Hv.
  - destruct (trimStart_split v) as (l & Hl & Hblank). rewrite Hv, app_nil_r in Hl. subst l.
    rewrite (trimStart_all_blank (v ++ after)); [reflexivity|].
    apply Forall_app. split; assumption.
  - rewrite trimStart_app by (rewrite Hv; discriminate). rewrite Hv.
    rewrite rev_app_distr. apply trimStart_blank, blank_rev, Ha.
Qed.

Lemma trim_split v :
  exists before after,
    v = before ++ trim v ++ after /\ blank before /\ blank after.
Proof.
  destruct (trimStart_split v) as (before & Hv & Hb).
  destruct (trimStart_split (rev (trimStart v))) as (l & Hr & Hl).
  exists before, (rev l). split; [|split; [exact Hb | now apply blank_rev]].
  unfold trim. rewrite <- rev_app_distr, <- Hr, rev_involutive. exact Hv.
Qed.

Lemma last_rev_head {A : Type} (l : list A) : last (rev l) = head l.
Proof. destruct l as [|x l]; [reflexivity|]. cbn [rev head]. apply last_snoc. Qed.

Lemma trim_ends v :
  (forall c, head (trim v) = Some c -> isWhiteSpace c = false)
  /\ (forall c, last (trim v) = Some c -> isWhiteSpace c = false).
Proof.
  split; intros c Hc.
  - destruct (trim_split v) as (before & after & Hv & Hb & Ha).
    destruct (trimStart_split v) as (l & Hs & Hl).
    unfold trim in *.
    destruct (trimStart_split (rev (trimStart v))) as (l' & Hr & Hl').
    assert (Ht : trimStart v = rev (trimStart (rev (trimStart v))) ++ rev l').
    { rewrite <- rev_app_distr, <- Hr. now rewrite rev_involutive. }
    apply (trimStart_head v). rewrite Ht.
    destruct (rev (trimStart (rev (trimStart v)))); [discriminate | exact Hc].
  - unfold trim in Hc. rewrite last_rev_head in Hc.
    now apply (trimStart_head (rev (trimStart v))).
Qed.

End Trim_facts.

(** X14: white space around a field value never matters.  A value is
    white space, then its trimmed form, then white space, and the trimmed
    form neither starts nor ends with white space; and wrapping the value
    of a field in any white space leaves the outcome of [validateField]
    (verdict and page) as it is. *)
Theorem validateField_ignores_surrounding_space :
  forall (field : TeqpodApp.Field) (before after : list TeqpodApp.Char)
         (elements : gmap nat Dom.Node),
    Forall (fun c => TeqpodApp.isWhiteSpace c = true) before ->
    Forall (fun c => TeqpodApp.isWhiteSpace c = true) after ->
    let padded := {| TeqpodApp.value := before ++ TeqpodApp.value field ++ after;
                     TeqpodApp.type := TeqpodApp.type field;
                     TeqpodApp.required := TeqpodApp.required field;
                     TeqpodApp.formGroup := TeqpodApp.formGroup field |} in
    TeqpodApp.trim (TeqpodApp.value padded) = TeqpodApp.trim (TeqpodApp.value field)
    /\ TeqpodApp.validateField padded elements = TeqpodApp.validateField field elements
    /\ (exists l r,
          TeqpodApp.value field = l ++ TeqpodApp.trim (TeqpodApp.value field) ++ r
          /\ Forall (fun c => TeqpodApp.isWhiteSpace c = true) l
          /\ Forall (fun c => TeqpodApp.isWhiteSpace c = true) r)
    /\ (forall c, head (TeqpodApp.trim (TeqpodApp.value field)) = Some c ->
                  TeqpodApp.isWhiteSpace c = false)
    /\ (forall c, last (TeqpodApp.trim (TeqpodApp.value field)) = Some c ->
                  TeqpodApp.isWhiteSpace c = false).
Proof.
  intros field before after elements Hb Ha padded.
  pose proof (trim_surrounded before (TeqpodApp.value field) after Hb Ha) as Htrim.
  split; [exact Htrim|]. split.
  - unfold TeqpodApp.validateField, padded.
    cbn [TeqpodApp.value TeqpodApp.type TeqpodApp.required TeqpodApp.formGroup].
    now rewrite Htrim.
  - split; [apply trim_split | apply trim_ends].
Qed.

Lemma validateField_ignores_surrounding_space_witness :
  let field := {| TeqpodApp.value := [97; 64; 98; 46; 99]%N; TeqpodApp.type := "email";
                  TeqpodApp.required := true; TeqpodApp.formGroup := Some 4%nat |} in
  let padded := {| TeqpodApp.value := [32; 9]%N ++ TeqpodApp.value field ++ [10]%N;
                   TeqpodApp.type := TeqpodApp.type field;
                   TeqpodApp.required := TeqpodApp.required field;
                   TeqpodApp.formGroup := TeqpodApp.formGroup field |} in
  let elements : gmap nat Dom.Node := <[4%nat := Dom.Element "div" ["form-group"] [] [] []]> ∅ in
  TeqpodApp.validateField padded elements = TeqpodApp.validateField field elements.
Proof.
  intros field padded elements.
  refine (proj1 (proj2 (validateField_ignores_surrounding_space field [32; 9]%N [10]%N
                          elements _ _))).
  - repeat constructor.
  - repeat constructor.
Defined.

(** ** What the reveal observer never sees *)

Section Reveal_scope_facts.
Import Dom AnimationSystem.

(** Observing a list of elements adds no other target. *)
Lemma observe_all_only (h : DOMManager.Handle) (l : list nat) :
  forall (dm : DOMManager.World Callback) o,
    DOMManager.heap Callback dm !! DOMManager.observer h = Some o ->
    exists o',
      DOMManager.heap Callback
        (fold_left (fun dm el => DOMManager.observe Callback h el dm) l dm)
        !! DOMManager.observer h = Some o'
      /\ forall el, el ∈ DOMManager.targets Callback o' ->
                    el ∈ DOMManager.targets Callback o \/ el ∈ l.
Proof.
  induction l as [|x l IH]; intros dm o Ho.
  - exists o. split; [exact Ho | auto].
  - cbn [fold_left].
    destruct (IH (DOMManager.observe Callback h x dm) (DOMManager.observeObject Callback x o))
      as (o' & H1 & H2).
    { unfold DOMManager.observe, DOMManager.onHeap. cbn [DOMManager.heap].
      now rewrite list_lookup_alter_eq, Ho. }
    exists o'. split; [exact H1|]. intros el Hel.
    destruct (H2 el Hel) as [Hin | Hin].
    + cbn [DOMManager.observeObject DOMManager.targets] in Hin.
      destruct (bool_decide (x ∈ DOMManager.targets Callback o)); [now left|].
      apply elem_of_app in Hin as [Hin | Hin]; [now left|].
      apply list_elem_of_singleton in Hin. subst. right. apply elem_of_cons. now left.
    + right. apply elem_of_cons. now right.
Qed.

(** A batch reported to an observer that does not watch [el] leaves
    [el] alone. *)
Lemma deliver_unwatched observer entries p el :
  (forall o, DOMManager.heap Callback (domManager p) !! observer = Some o ->
             el ∉ DOMManager.targets Callback o) ->
  elements (deliver observer entries p) !! el = elements p !! el.
Proof.
  intros Hout. rewrite deliver_lookup.
  destruct (DOMManager.heap Callback (domManager p) !! observer) as [o|]; [|reflexivity].
  specialize (Hout o eq_refl).
  assert (Hnone : existsb (fun e => isIntersecting e && bool_decide (target e = el))
                    (filter (fun e => target e ∈ DOMManager.targets Callback o) entries)
                  = false).
  { apply not_true_iff_false. intros Hex. apply existsb_exists in Hex as (e & Hin & He).
    apply andb_true_iff in He as [_ He]. apply bool_decide_eq_true in He.
    apply list_elem_of_In, list_elem_of_filter in Hin as [Ht _]. subst. contradiction. }
  now rewrite Hnone.
Qed.

Lemma deliverAll_unwatched observer batches : forall p el,
  (forall o, DOMManager.heap Callback (domManager p) !! observer = Some o ->
             el ∉ DOMManager.targets Callback o) ->
  Forall (fun batch => batch.1 = observer) batches ->
  elements (deliverAll batches p) !! el = elements p !! el.
Proof.
  unfold deliverAll.
  induction batches as [|[k entries] batches IH]; intros p el Hout Hall; [reflexivity|].
  inversion Hall as [|? ? Hk Hrest]; subst. cbn [fst] in *. cbn [fold_left fst snd].
  rewrite IH; [now apply deliver_unwatched | | exact Hrest].
  now rewrite deliver_domManager.
Qed.

End Reveal_scope_facts.

(** X15: the reveal observer only ever touches elements that carried the
    class [reveal] when [setupScrollReveal] ran.  Whatever the page looks
    like later and whatever batches the browser reports to the observer,
    an element that was not there at setup, or was there without the
    class (every card rendered afterwards, for one), is left exactly as
    it is: it never becomes [active]. *)
Theorem reveal_skips_elements_added_later :
  forall (self : AnimationSystem.AnimationSystem) (now : Z) (random : string)
         (p q : AnimationSystem.Page) (batches : list (nat * list AnimationSystem.Entry))
         (el : nat),
    let after := AnimationSystem.setupScrollReveal self now random p in
    let observer := length (DOMManager.heap AnimationSystem.Callback
                              (AnimationSystem.domManager p)) in
    AnimationSystem.domManager q = AnimationSystem.domManager after.2 ->
    Forall (fun batch => batch.1 = observer) batches ->
    (forall node, AnimationSystem.elements p !! el = Some node ->
                  Dom.hasClass "reveal" node = false) ->
    AnimationSystem.elements (AnimationSystem.deliverAll batches q) !! el
    = AnimationSystem.elements q !! el.
Proof.
  intros self now random p q batches el after observer Hdm Hall Hplain.
  apply (deliverAll_unwatched observer); [|exact Hall].
  intros o Ho Hin. rewrite Hdm in Ho. unfold after, AnimationSystem.setupScrollReveal in Ho.
  destruct (AnimationSystem.isReducedMotion self).
  - cbn [snd] in Ho. apply lookup_lt_Some in Ho. unfold observer in Ho. lia.
  - unfold DOMManager.createIntersectionObserver in Ho. cbn [snd AnimationSystem.domManager] in Ho.
    match type of Ho with
    | DOMManager.heap _ (fold_left _ ?l ?dm) !! _ = _ =>
        destruct (observe_all_only
                    {| DOMManager.observer := observer;
                       DOMManager.id := "observer_" +:+ JS.showZ now +:+ "_" +:+ random |}
                    l dm
                    {| DOMManager.callback := AnimationSystem.revealCallback;
                       DOMManager.options :=
                         DOMManager.spread DOMManager.defaultOptions
                           AnimationSystem.revealOptions;
                       DOMManager.targets := []; DOMManager.disconnects := 0 |})
          as (o' & Ho' & Honly)
    end.
    { cbn [DOMManager.heap DOMManager.observer]. unfold observer.
      rewrite lookup_app_r by lia. now rewrite Nat.sub_diag. }
    cbn [DOMManager.observer] in Ho'. unfold observer in Ho, Ho'.
    rewrite Ho' in Ho. injection Ho as <-.
    destruct (Honly el Hin) as [Hnil | Hq].
    + cbn in Hnil. now apply elem_of_nil in Hnil.
    + apply querySelectorAllClass_spec in Hq as (node & Hn & Hc).
      rewrite (Hplain node Hn) in Hc. discriminate.
Qed.

Lemma reveal_skips_elements_added_later_witness :
  let self := {| AnimationSystem.isReducedMotion := false; AnimationSystem.isTouch := false;
                 AnimationSystem.observers := [] |} in
  let hero := Dom.Element "section" ["hero"; "reveal"] [] [] [] in
  let card := Dom.Element "div" ["feature-card"; "reveal"] [("data-stagger", "0")] [] [] in
  let p := {| AnimationSystem.elements := <[1%nat := hero]> ∅; AnimationSystem.frames := [];
              AnimationSystem.timeouts := [];
              AnimationSystem.domManager := DOMManager.new AnimationSystem.Callback |} in
  let after := AnimationSystem.setupScrollReveal self 1700000000000 "k3j9x0a1b" p in
  let q := {| AnimationSystem.elements := <[2%nat := card]> (<[1%nat := hero]> ∅);
              AnimationSystem.frames := []; AnimationSystem.timeouts := [];
              AnimationSystem.domManager := AnimationSystem.domManager after.2 |} in
  let batches := [(0%nat, [{| AnimationSystem.target := 2%nat;
                              AnimationSystem.isIntersecting := true |}])] in
  AnimationSystem.elements (AnimationSystem.deliverAll batches q) !! 2%nat
  = AnimationSystem.elements q !! 2%nat.
Proof.
  intros self hero card p after q batches.
  apply (reveal_skips_elements_added_later self 1700000000000 "k3j9x0a1b" p q batches 2%nat).
  - reflexivity.
  - repeat constructor.
  - intros node Hn. vm_compute in Hn. discriminate Hn.
Defined.

(** ** Counters that start when they come into view *)

Section Counter_observer_facts.
Import Dom DOMManager AnimationSystem TemplateRenderer.
Variable self : AnimationSystem.
Variables (element : nat) (target : string) (observer : nat).

Let start (t : Q) (p : Page) : Page :=
  (animateCounter self (Some element) target "" 2000 t p).2.

Let forget (w : World CounterCallback) : World CounterCallback :=
  onHeap CounterCallback (unobserveObject CounterCallback element) observer w.

Let present (p : Page) : Prop := exists node, elements p !! element = Some node.

Lemma animateCounter_present t p :
  present p ->
  (animateCounter self (Some element) target "" 2000 t p).1 = Ok tt /\ present (start t p).
Proof.
  intros [node Hn]. unfold start, animateCounter.
  destruct (isReducedMotion self).
  - unfold onElement. rewrite Hn. cbn [fst snd withElements]. split; [reflexivity|].
    unfold present. cbn [elements withElements]. rewrite lookup_alter_eq, Hn.
    eexists. reflexivity.
  - cbn [requestAnimationFrame fst snd]. split; [reflexivity|]. exists node. exact Hn.
Qed.

Lemma runCounterCallback_entries t reported : forall index s,
  present (page s) ->
  let k := length (filter (fun e => isIntersecting e = true) reported) in
  forEachFrom (fun entry (_ : nat) (_ : unit) =>
                 if isIntersecting entry then
                   _ <- onPage (animateCounter self (Some element) target "" 2000 t) ;;
                   onCounters (onHeap CounterCallback
                                 (unobserveObject CounterCallback element) observer)
                 else ret tt) reported index tt s
  = (Ok tt, {| page := Nat.iter k (start t) (page s);
               counters := Nat.iter k forget (counters s) |}).
Proof.
  induction reported as [|entry reported IH]; intros index s Hp.
  - cbn. now destruct s.
  - cbn [forEachFrom]. unfold bind at 1. rewrite filter_cons.
    destruct (isIntersecting entry) eqn:Hi.
    + destruct (decide (true = true)); [|congruence].
      destruct (animateCounter_present t (page s) Hp) as [Hok Hp'].
      unfold bind at 1. unfold onPage at 1.
      destruct (animateCounter self (Some element) target "" 2000 t (page s))
        as [r p'] eqn:Hrun.
      cbn [fst] in Hok. subst r. unfold onCounters at 1.
      assert (Hp'' : p' = start t (page s)) by (unfold start; now rewrite Hrun).
      rewrite IH by (cbn [page]; now rewrite Hp'').
      cbn [page counters length]. rewrite !Nat.iter_succ_r. now rewrite Hp''.
    + destruct (decide (false = true)); [discriminate|].
      unfold ret at 1. now apply IH.
Qed.

(** The state of the observer: it watches [watched]. *)
Let watching (s : CounterState) (watched : list nat) : Prop :=
  exists o, heap CounterCallback (counters s) !! observer = Some o
            /\ callback CounterCallback o = counterCallback element target
            /\ options CounterCallback o = spread defaultOptions counterOptions
            /\ targets CounterCallback o = watched.

Lemma forget_watching k : forall s watched,
  watching s watched ->
  watching {| page := page s; counters := Nat.iter k forget (counters s) |}
    (Nat.iter k (filter (fun e => e ≠ element)) watched).
Proof.
  induction k as [|k IH]; intros s watched Hw.
  - cbn. now destruct s.
  - destruct (IH s watched Hw) as (o & Ho & Hcb & Hopt & Ht).
    exists (unobserveObject CounterCallback element o).
    cbn [counters] in *. rewrite !Nat.iter_succ. unfold forget at 1, onHeap. cbn [heap].
    rewrite list_lookup_alter_eq, Ho. cbn [fmap option_fmap option_map].
    split; [reflexivity|]. split; [exact Hcb|]. split; [exact Hopt|].
    cbn [unobserveObject targets]. now rewrite Ht.
Qed.

Lemma sightings_reported entries :
  length (filter (fun e => isIntersecting e = true)
            (filter (fun e : Entry => AnimationSystem.target e ∈ [element]) entries))
  = sightings element entries.
Proof.
  unfold sightings. induction entries as [|e entries IH]; [reflexivity|].
  rewrite !filter_cons.
  destruct (decide (AnimationSystem.target e ∈ [element])) as [Hin | Hout].
  - apply list_elem_of_singleton in Hin. rewrite filter_cons.
    destruct (decide (isIntersecting e = true)) as [Hi | Hi].
    + destruct (decide (isIntersecting e = true /\ AnimationSystem.target e = element));
        [cbn; now rewrite IH | tauto].
    + destruct (decide (isIntersecting e = true /\ AnimationSystem.target e = element));
        [tauto | exact IH].
  - destruct (decide (isIntersecting e = true /\ AnimationSystem.target e = element))
      as [[_ He] | _]; [|exact IH].
    exfalso. apply Hout. now apply list_elem_of_singleton.
Qed.

(** A batch reported while the observer watches the element. *)
Lemma deliverCounter_watching s batch :
  present (page s) -> watching s [element] ->
  let k := sightings element batch.2 in
  let s' := deliverCounter self observer s batch in
  page s' = Nat.iter k (start batch.1) (page s)
  /\ present (page s')
  /\ watching s' (if k is O then [element] else []).
Proof.
  intros Hp Hw. pose proof Hw as (o & Ho & Hcb & Hopt & Ht). cbv zeta.
  unfold deliverCounter. rewrite Ho, Hcb, Ht. cbn [runCounterCallback]. unfold forEach.
  rewrite (runCounterCallback_entries batch.1 _ 0 s Hp). rewrite sightings_reported.
  cbn [snd page]. split; [reflexivity|]. split.
  - clear -Hp. induction (sightings element batch.2) as [|k IH]; [exact Hp|].
    rewrite Nat.iter_succ. now apply (animateCounter_present batch.1).
  - pose proof (forget_watching (sightings element batch.2) s [element] Hw) as Hw'.
    destruct (sightings element batch.2) as [|k]; [exact Hw'|].
    assert (Hnone : Nat.iter (S k) (filter (fun e => e ≠ element)) [element] = []).
    { clear. induction k as [|k IH].
      - rewrite Nat.iter_succ.
        change (Nat.iter 0 (filter (fun e => e ≠ element)) [element]) with [element].
        rewrite filter_cons, filter_nil.
        now destruct (decide (element ≠ element)).
      - rewrite Nat.iter_succ, IH. apply filter_nil. }
    now rewrite Hnone in Hw'.
Qed.

(** A batch reported once the observer watches nothing. *)
Lemma deliverCounter_done s batch :
  watching s [] -> deliverCounter self observer s batch = s.
Proof.
  intros (o & Ho & Hcb & _ & Ht). unfold deliverCounter. rewrite Ho, Hcb, Ht.
  assert (Hnone : filter (fun e : Entry => AnimationSystem.target e ∈ []) batch.2 = []).
  { induction batch.2 as [|e l IH]; [reflexivity|].
    rewrite filter_cons. destruct (decide (AnimationSystem.target e ∈ [])) as [Hin|_];
      [now apply elem_of_nil in Hin | exact IH]. }
  rewrite Hnone. reflexivity.
Qed.

Lemma deliverCounters_done batches : forall s,
  watching s [] -> deliverCounters self observer batches s = s.
Proof.
  unfold deliverCounters. induction batches as [|batch batches IH]; intros s Hw; [reflexivity|].
  cbn [fold_left]. rewrite (deliverCounter_done s batch Hw). now apply IH.
Qed.

Lemma deliverCounters_quiet batches : forall s,
  present (page s) -> watching s [element] ->
  Forall (fun batch => sightings element batch.2 = O) batches ->
  page (deliverCounters self observer batches s) = page s
  /\ present (page (deliverCounters self observer batches s))
  /\ watching (deliverCounters self observer batches s) [element].
Proof.
  unfold deliverCounters.
  induction batches as [|batch batches IH]; intros s Hp Hw Hall; [auto|].
  inversion Hall as [|? ? Hq Hrest]; subst. cbn [fold_left].
  destruct (deliverCounter_watching s batch Hp Hw) as (H1 & H2 & H3).
  rewrite Hq in H1, H3. change (Nat.iter 0 ?f ?x) with x in H1.
  destruct (IH _ H2 H3 Hrest) as (I1 & I2 & I3).
  split; [now rewrite I1|]. split; assumption.
Qed.

End Counter_observer_facts.

(** X16: a counter set up by [setupCounterAnimation] starts in the first
    batch that reports its element as intersecting, and never again.
    The observer is created with threshold 0.5 and the default root
    margin of the element helper.  Batches without such an entry change
    nothing; the first batch with one calls [animateCounter] (empty
    suffix, 2000 ms) once per such entry of that batch and stops
    watching the element; every later batch leaves page and observer as
    they are. *)
Theorem counter_starts_once_in_view :
  forall (self : AnimationSystem.AnimationSystem) (element : nat) (target : string)
         (now : Z) (random : string) (w : DOMManager.World TemplateRenderer.CounterCallback)
         (p : AnimationSystem.Page) (node : Dom.Node)
         (quiet : list (Q * list AnimationSystem.Entry)) (time : Q)
         (entries : list AnimationSystem.Entry)
         (later : list (Q * list AnimationSystem.Entry)),
    AnimationSystem.elements p !! element = Some node ->
    Forall (fun batch => TemplateRenderer.sightings element batch.2 = O) quiet ->
    (0 < TemplateRenderer.sightings element entries)%nat ->
    let observer := length (DOMManager.heap TemplateRenderer.CounterCallback w) in
    let s := {| TemplateRenderer.page := p;
                TemplateRenderer.counters :=
                  TemplateRenderer.setupCounterAnimation element target now random w |} in
    let final := TemplateRenderer.deliverCounters self observer
                   (quiet ++ (time, entries) :: later) s in
    (exists o,
        DOMManager.heap TemplateRenderer.CounterCallback (TemplateRenderer.counters s)
          !! observer = Some o
        /\ DOMManager.targets TemplateRenderer.CounterCallback o = [element]
        /\ DOMManager.options TemplateRenderer.CounterCallback o
           = {| DOMManager.threshold := Some (1 # 2);
                DOMManager.rootMargin := Some "0px 0px -50px 0px" |})
    /\ TemplateRenderer.page (TemplateRenderer.deliverCounters self observer quiet s) = p
    /\ TemplateRenderer.page final
       = Nat.iter (TemplateRenderer.sightings element entries)
           (fun p => (AnimationSystem.animateCounter self (Some element) target "" 2000 time p).2)
           p
    /\ (exists o,
          DOMManager.heap TemplateRenderer.CounterCallback (TemplateRenderer.counters final)
            !! observer = Some o
          /\ DOMManager.targets TemplateRenderer.CounterCallback o = []).
Proof.
  intros self element target now random w p node quiet time entries later
    Hn Hquiet Hseen observer s final.
  assert (Hw : exists o,
             DOMManager.heap TemplateRenderer.CounterCallback (TemplateRenderer.counters s)
               !! observer = Some o
             /\ DOMManager.callback TemplateRenderer.CounterCallback o
                = TemplateRenderer.counterCallback element target
             /\ DOMManager.options TemplateRenderer.CounterCallback o
                = DOMManager.spread DOMManager.defaultOptions TemplateRenderer.counterOptions
             /\ DOMManager.targets TemplateRenderer.CounterCallback o = [element]).
  { unfold s, TemplateRenderer.setupCounterAnimation, DOMManager.createIntersectionObserver,
      DOMManager.observe, DOMManager.onHeap.
    cbn [TemplateRenderer.counters DOMManager.heap DOMManager.observer].
    fold observer. rewrite list_lookup_alter_eq.
    unfold observer. rewrite lookup_app_r by lia. rewrite Nat.sub_diag.
    cbn [lookup list_lookup fmap option_fmap option_map].
    eexists. split; [reflexivity|]. repeat split. }
  assert (Hp : exists node0, AnimationSystem.elements (TemplateRenderer.page s) !! element
                             = Some node0) by (exists node; exact Hn).
  split.
  { destruct Hw as (o & Ho & _ & Hopt & Ht). exists o. split; [exact Ho|].
    split; [exact Ht|]. rewrite Hopt. reflexivity. }
  destruct (deliverCounters_quiet self element target observer quiet s Hp Hw Hquiet)
    as (Q1 & Q2 & Q3).
  split; [exact Q1|].
  unfold final, TemplateRenderer.deliverCounters. rewrite fold_left_app. cbn [fold_left].
  fold (TemplateRenderer.deliverCounters self observer quiet s).
  destruct (deliverCounter_watching self element target observer
              (TemplateRenderer.deliverCounters self observer quiet s) (time, entries) Q2 Q3)
    as (B1 & _ & B3).
  cbn [fst snd] in B1, B3.
  destruct (TemplateRenderer.sightings element entries) as [|k] eqn:Hk; [lia|].
  fold (TemplateRenderer.deliverCounters self observer later
          (TemplateRenderer.deliverCounter self observer
             (TemplateRenderer.deliverCounters self observer quiet s) (time, entries))).
  rewrite (deliverCounters_done self element target observer later _ B3).
  split.
  - rewrite B1, Q1. reflexivity.
  - destruct B3 as (o & Ho & _ & _ & Ht). eauto.
Qed.

Lemma counter_starts_once_in_view_witness :
  let self := {| AnimationSystem.isReducedMotion := false; AnimationSystem.isTouch := false;
                 AnimationSystem.observers := [] |} in
  let number := Dom.Element "div" ["stat-number"] [("data-target", "500")] [] [Dom.Text "0+"] in
  let p := {| AnimationSystem.elements := <[7%nat := number]> ∅; AnimationSystem.frames := [];
              AnimationSystem.timeouts := [];
              AnimationSystem.domManager := DOMManager.new AnimationSystem.Callback |} in
  let away := {| AnimationSystem.target := 7%nat; AnimationSystem.isIntersecting := false |} in
  let seen := {| AnimationSystem.target := 7%nat; AnimationSystem.isIntersecting := true |} in
  let s := {| TemplateRenderer.page := p;
              TemplateRenderer.counters :=
                TemplateRenderer.setupCounterAnimation 7 "500+" 1700000000000 "k3j9x0a1b"
                  (DOMManager.new TemplateRenderer.CounterCallback) |} in
  let final := TemplateRenderer.deliverCounters self 0
                 ([(10%Q, [away])] ++ (250%Q, [seen]) :: [(900%Q, [away]); (1500%Q, [seen])]) s in
  TemplateRenderer.page final
  = Nat.iter (TemplateRenderer.sightings 7 [seen])
      (fun p => (AnimationSystem.animateCounter self (Some 7%nat) "500+" "" 2000 250 p).2) p.
Proof.
  intros self number p away seen s final.
  refine (proj1 (proj2 (proj2
            (counter_starts_once_in_view self 7 "500+" 1700000000000 "k3j9x0a1b"
               (DOMManager.new TemplateRenderer.CounterCallback) p number
               [(10%Q, [away])] 250 [seen] [(900%Q, [away]); (1500%Q, [seen])] _ _ _)))).
  - reflexivity.
  - repeat constructor.
  - vm_compute. lia.
Defined.

(** ** The custom cursor *)

Section Cursor_facts.
Import Dom MotionController.
Variable numberToString : Q -> string.
Local Open Scope Q_scope.



End Cursor_facts.


(** ** The template cache and the life of an observer handle *)

(** X18: [createTemplate] builds a template once per identifier.  The
    first call for an identifier stores what its function builds and
    returns it; a second call ignores its own function and returns the
    stored template again, changing nothing; other identifiers, the
    observers and the heap are not touched; and after [cleanup] the next
    call builds afresh. *)
Theorem createTemplate_builds_once :
  forall (Callback : Type) (templateId : string) (first second : unit -> Dom.Node)
         (w : DOMManager.World Callback),
    DOMManager.templates Callback w !! templateId = None ->
    let r1 := ElementHelper.createTemplate Callback templateId first w in
    let r2 := ElementHelper.createTemplate Callback templateId second r1.2 in
    r1.1 = first tt
    /\ r2.1 = first tt
    /\ r2.2 = r1.2
    /\ DOMManager.templates Callback r1.2
       = <[templateId := first tt]> (DOMManager.templates Callback w)
    /\ DOMManager.observers Callback r1.2 = DOMManager.observers Callback w
    /\ DOMManager.heap Callback r1.2 = DOMManager.heap Callback w
    /\ (ElementHelper.createTemplate Callback templateId second
          (DOMManager.cleanup Callback r1.2)).1 = second tt.
Proof.
  intros Callback templateId first second w Hfresh r1 r2.
  assert (H1 : r1 = (first tt,
                     {| DOMManager.heap := DOMManager.heap Callback w;
                        DOMManager.observers := DOMManager.observers Callback w;
                        DOMManager.templates :=
                          <[templateId := first tt]> (DOMManager.templates Callback w) |})).
  { unfold r1, ElementHelper.createTemplate. rewrite Hfresh.
    cbn [DOMManager.templates]. now rewrite lookup_insert_eq. }
  assert (H2 : r2 = r1).
  { unfold r2, ElementHelper.createTemplate. rewrite H1. cbn [snd DOMManager.templates].
    rewrite lookup_insert_eq. cbn [DOMManager.templates]. rewrite lookup_insert_eq.
    reflexivity. }
  rewrite H2, H1. cbn [fst snd DOMManager.templates DOMManager.observers DOMManager.heap].
  repeat split.
  unfold ElementHelper.createTemplate, DOMManager.cleanup.
  cbn [DOMManager.templates]. rewrite lookup_empty. cbn [DOMManager.templates fst].
  now rewrite lookup_insert_eq.
Qed.

Lemma createTemplate_builds_once_witness :
  let card := Dom.Element "div" ["card"] [] [] [] in
  let other := Dom.Element "span" [] [] [] [] in
  let w := DOMManager.new unit in
  let r1 := ElementHelper.createTemplate unit "card" (fun _ => card) w in
  let r2 := ElementHelper.createTemplate unit "card" (fun _ => other) r1.2 in
  r1.1 = card /\ r2.1 = card /\ r2.2 = r1.2.
Proof.
  intros card other w r1 r2.
  pose proof (createTemplate_builds_once unit "card" (fun _ => card) (fun _ => other) w
                eq_refl) as H.
  cbv zeta in H. destruct H as (H1 & H2 & H3 & _).
  split; [exact H1|]. split; [exact H2 | exact H3].
Defined.

Section Handle_facts.
Import DOMManager.
Context {Callback : Type}.

(** The targets after observing the elements of a list, one by one. *)
Lemma observe_fold_targets (h : Handle) (l : list nat) :
  forall (w : World Callback) o,
    heap Callback w !! observer h = Some o ->
    NoDup (targets Callback o) ->
    exists o',
      heap Callback (fold_left (fun w el => observe Callback h el w) l w) !! observer h
      = Some o'
      /\ callback Callback o' = callback Callback o
      /\ options Callback o' = options Callback o
      /\ disconnects Callback o' = disconnects Callback o
      /\ NoDup (targets Callback o')
      /\ (forall el, el ∈ targets Callback o' <-> el ∈ targets Callback o \/ el ∈ l).
Proof.
  induction l as [|x l IH]; intros w o Ho Hnd.
  - exists o. repeat split; auto. intros [H | H]; [exact H | now apply elem_of_nil in H].
  - cbn [fold_left].
    destruct (IH (observe Callback h x w) (observeObject Callback x o))
      as (o' & H1 & H2 & H3 & H4 & H5 & H6).
    { unfold observe, onHeap. cbn [heap]. now rewrite list_lookup_alter_eq, Ho. }
    { cbn [observeObject targets].
      destruct (bool_decide (x ∈ targets Callback o)) eqn:E; [exact Hnd|].
      apply bool_decide_eq_false in E. apply NoDup_app. split; [exact Hnd|].
      split; [|apply NoDup_singleton].
      intros y Hy Hy'. apply list_elem_of_singleton in Hy'. now subst. }
    exists o'. split; [exact H1|]. split; [exact H2|]. split; [exact H3|].
    split; [exact H4|]. split; [exact H5|].
    intros el. rewrite H6. cbn [observeObject targets]. rewrite elem_of_cons.
    destruct (bool_decide (x ∈ targets Callback o)) eqn:E.
    + apply bool_decide_eq_true in E. split; [tauto|].
      intros [H | [-> | H]]; tauto.
    + rewrite elem_of_app, list_elem_of_singleton. tauto.
Qed.

Lemma observe_fold_heap (h : Handle) (l : list nat) : forall (w : World Callback),
  observers Callback (fold_left (fun w el => observe Callback h el w) l w)
  = observers Callback w
  /\ templates Callback (fold_left (fun w el => observe Callback h el w) l w)
     = templates Callback w
  /\ forall i, i <> observer h ->
       heap Callback (fold_left (fun w el => observe Callback h el w) l w) !! i
       = heap Callback w !! i.
Proof.
  induction l as [|x l IH]; intros w; [auto|].
  cbn [fold_left]. destruct (IH (observe Callback h x w)) as (I1 & I2 & I3).
  rewrite I1, I2. split; [reflexivity|]. split; [reflexivity|].
  intros i Hi. rewrite (I3 i Hi). unfold observe, onHeap. cbn [heap].
  now rewrite list_lookup_alter_ne.
Qed.

End Handle_facts.

(** X19: the life of one observer handle whose identifier is not taken.
    After it has observed a list of elements, one by one, its observer
    watches exactly these elements, each once (observing twice changes
    nothing).  Its own [disconnect] then runs [disconnect] on the
    observer once, leaves it without targets, and puts the registry back
    to what it was before the handle was created; the templates and the
    other observers on the heap are never touched. *)
Theorem handle_disconnect_restores_registry :
  forall (Callback : Type) (cb : Callback) (opts : DOMManager.Options)
         (now : Z) (random : string) (elements : list nat)
         (w : DOMManager.World Callback),
    let created := DOMManager.createIntersectionObserver Callback cb opts now random w in
    let h := created.1 in
    DOMManager.observers Callback w !! DOMManager.id h = None ->
    let watching :=
      fold_left (fun w el => DOMManager.observe Callback h el w) elements created.2 in
    let closed := DOMManager.disconnect Callback h watching in
    (exists o,
        DOMManager.heap Callback watching !! DOMManager.observer h = Some o
        /\ NoDup (DOMManager.targets Callback o)
        /\ (forall el, el ∈ DOMManager.targets Callback o <-> el ∈ elements)
        /\ DOMManager.observers Callback watching !! DOMManager.id h
           = Some (DOMManager.observer h))
    /\ (exists o,
          DOMManager.heap Callback closed !! DOMManager.observer h = Some o
          /\ DOMManager.targets Callback o = []
          /\ DOMManager.disconnects Callback o = 1%nat)
    /\ DOMManager.observers Callback closed = DOMManager.observers Callback w
    /\ DOMManager.templates Callback closed = DOMManager.templates Callback w
    /\ (forall i, i <> DOMManager.observer h ->
          DOMManager.heap Callback closed !! i = DOMManager.heap Callback w !! i).
Proof.
  intros Callback cb opts now random elements w created h Hfresh watching closed.
  set (object := {| DOMManager.callback := cb;
                    DOMManager.options := DOMManager.spread DOMManager.defaultOptions opts;
                    DOMManager.targets := []; DOMManager.disconnects := 0 |}).
  assert (Hobj : DOMManager.heap Callback created.2 !! DOMManager.observer h = Some object).
  { unfold h, created, DOMManager.createIntersectionObserver.
    cbn [fst snd DOMManager.heap DOMManager.observer].
    rewrite lookup_app_r by lia. now rewrite Nat.sub_diag. }
  destruct (observe_fold_targets h elements created.2 object Hobj (NoDup_nil_2))
    as (o & Ho & _ & _ & Hd & Hnd & Hin).
  destruct (observe_fold_heap h elements created.2) as (Hreg & Htpl & Hheap).
  fold watching in Ho, Hreg, Htpl, Hheap.
  assert (Hcreated : DOMManager.observers Callback created.2
                     = <[DOMManager.id h := DOMManager.observer h]>
                         (DOMManager.observers Callback w)) by reflexivity.
  split.
  { exists o. split; [exact Ho|]. split; [exact Hnd|]. split.
    - intros el. rewrite (Hin el). cbn [object DOMManager.targets]. rewrite elem_of_nil. tauto.
    - rewrite Hreg, Hcreated. apply lookup_insert_eq. }
  split.
  { exists (DOMManager.disconnectObject Callback o).
    unfold closed, DOMManager.disconnect, DOMManager.onHeap. cbn [DOMManager.heap].
    rewrite list_lookup_alter_eq, Ho. cbn [fmap option_fmap option_map].
    split; [reflexivity|]. split; [reflexivity|].
    cbn [DOMManager.disconnectObject DOMManager.disconnects]. now rewrite Hd. }
  split.
  { unfold closed, DOMManager.disconnect, DOMManager.onHeap.
    cbn [DOMManager.observers]. rewrite Hreg, Hcreated.
    rewrite delete_insert_eq. now apply delete_id. }
  split.
  { unfold closed, DOMManager.disconnect, DOMManager.onHeap.
    cbn [DOMManager.templates]. now rewrite Htpl. }
  intros i Hi. unfold closed, DOMManager.disconnect, DOMManager.onHeap. cbn [DOMManager.heap].
  rewrite list_lookup_alter_ne by congruence. rewrite (Hheap i Hi).
  unfold created, DOMManager.createIntersectionObserver. cbn [snd DOMManager.heap].
  destruct (decide (i < length (DOMManager.heap Callback w))%nat) as [Hlt | Hge].
  - now rewrite lookup_app_l.
  - assert (Hgt : (length (DOMManager.heap Callback w) < i)%nat).
    { unfold h, created, DOMManager.createIntersectionObserver in Hi.
      cbn [fst DOMManager.observer] in Hi. lia. }
    rewrite lookup_ge_None_2 by (rewrite length_app; cbn; lia).
    symmetry. apply lookup_ge_None_2. lia.
Qed.

Lemma handle_disconnect_restores_registry_witness :
  let w := DOMManager.new unit in
  let created := DOMManager.createIntersectionObserver unit tt
                   {| DOMManager.threshold := Some (1 # 2); DOMManager.rootMargin := None |}
                   1700000000000 "k3j9x0a1b" w in
  let h := created.1 in
  let watching :=
    fold_left (fun w el => DOMManager.observe unit h el w) [4; 5; 4]%nat created.2 in
  let closed := DOMManager.disconnect unit h watching in
  DOMManager.observers unit closed = DOMManager.observers unit w.
Proof.
  intros w created h watching closed.
  refine (proj1 (proj2 (proj2
            (handle_disconnect_restores_registry unit tt
               {| DOMManager.threshold := Some (1 # 2); DOMManager.rootMargin := None |}
               1700000000000 "k3j9x0a1b" [4; 5; 4]%nat w _)))).
  reflexivity.
Defined.

(** ** Clearing a container *)

Section Clear_facts.
Import Dom ComponentSystem TemplateRenderer.

Lemma clearLoop_enough n : forall fuel,
  (length (childNodesOf n) <= fuel)%nat -> clearLoop fuel n = Some (emptied n).
Proof.
  destruct n as [s|t cl a st ch]; [intros [|fuel] _; reflexivity|].
  induction ch as [|c ch IH]; intros fuel Hfuel.
  - destruct fuel; reflexivity.
  - destruct fuel as [|fuel]; [cbn in Hfuel; lia|].
    cbn [clearLoop childNodesOf removeFirstChild]. rewrite IH by (cbn in Hfuel |- *; lia).
    reflexivity.
Qed.

Lemma clearLoop_short n : forall fuel,
  (fuel < length (childNodesOf n))%nat -> clearLoop fuel n = None.
Proof.
  destruct n as [s|t cl a st ch]; [intros fuel H; cbn in H; lia|].
  induction ch as [|c ch IH]; intros fuel Hfuel; [cbn in Hfuel; lia|].
  destruct fuel as [|fuel]; [reflexivity|].
  cbn [clearLoop childNodesOf removeFirstChild]. apply IH. cbn in Hfuel |- *. lia.
Qed.

End Clear_facts.

(** X20: [clearContainer] empties a container in as many iterations as
    it has children: with that many allowed the loop ends and leaves the
    element with its tag, classes, attributes and style but no child and
    the rest of the page as it was, with fewer it is still running;
    a [null] container is left alone.  Rendering features into the
    cleared container then leaves exactly one card per record, in order:
    clearing first is what makes a second render a refresh. *)
Theorem clearContainer_then_render_refreshes :
  forall (b : ComponentSystem.Browser) (container : nat) (node : Dom.Node)
         (features : list Feature.t) (fuel : nat),
    ComponentSystem.elements b !! container = Some node ->
    Dom.isElement node = true ->
    let cleared :=
      {| ComponentSystem.elements :=
           <[container := TemplateRenderer.emptied node]> (ComponentSystem.elements b);
         ComponentSystem.timeouts := ComponentSystem.timeouts b |} in
    ((length (Dom.childNodesOf node) <= fuel)%nat ->
     TemplateRenderer.clearContainer fuel (Some container) b = Some cleared)
    /\ ((fuel < length (Dom.childNodesOf node))%nat ->
        TemplateRenderer.clearContainer fuel (Some container) b = None)
    /\ TemplateRenderer.clearContainer fuel None b = Some b
    /\ Dom.childNodesOf (TemplateRenderer.emptied node) = []
    /\ exists b' cards,
         ComponentSystem.renderFeatures ComponentSystem.componentSystem
           (Some features) (Some container) cleared = (Ok tt, b')
         /\ Dom.childNodesOf <$> ComponentSystem.elements b' !! container = Some cards
         /\ length cards = length features
         /\ forall i feature, features !! i = Some feature ->
              exists card, cards !! i = Some card
                           /\ ComponentSystem.featureCard ComponentSystem.componentSystem
                                feature i = Ok card.
Proof.
  intros b container node features fuel Hn Hel cleared.
  split; [|split; [|split; [reflexivity|split]]].
  - intros Hfuel. unfold TemplateRenderer.clearContainer. rewrite Hn.
    now rewrite (clearLoop_enough node fuel Hfuel).
  - intros Hfuel. unfold TemplateRenderer.clearContainer. rewrite Hn.
    now rewrite (clearLoop_short node fuel Hfuel).
  - now destruct node.
  - assert (Hc : ComponentSystem.elements cleared !! container
                 = Some (TemplateRenderer.emptied node)) by apply lookup_insert_eq.
    assert (Hel' : Dom.isElement (TemplateRenderer.emptied node) = true) by now destruct node.
    destruct (render_loop_appends
                (ComponentSystem.featureCard ComponentSystem.componentSystem)
                (fun i => Some (JS.showNat i)) cleared container _ features Hc Hel')
      as (b' & Hrun & _ & (tag & cl & attrs & st & ch & cards & Hbefore & Hafter & Hlen & Hcards)).
    { intros r i. rewrite featureCard_eq. eexists. split; reflexivity. }
    exists b', cards. split; [exact Hrun|].
    rewrite Hc in Hbefore. injection Hbefore as Hbefore.
    assert (Hch : ch = []).
    { destruct node as [|t0 cl0 a0 st0 ch0]; [discriminate|]. cbn in Hbefore. congruence. }
    subst ch. rewrite Hafter, lookup_insert_eq. cbn [fmap option_fmap option_map Dom.childNodesOf app].
    split; [reflexivity|]. split; [exact Hlen|].
    intros i feature Hi. destruct (Hcards i feature Hi) as (card & H1 & H2 & _). eauto.
Qed.

Lemma clearContainer_then_render_refreshes_witness :
  let old := Dom.Element "div" ["feature-card"] [] [] [Dom.Text "stale"] in
  let grid := Dom.Element "div" [] [("id", "features-grid")] [] [old; old] in
  let b := {| ComponentSystem.elements := <[0%nat := grid]> ∅;
              ComponentSystem.timeouts := [] |} in
  let cleared :=
    {| ComponentSystem.elements :=
         <[0%nat := TemplateRenderer.emptied grid]> (ComponentSystem.elements b);
       ComponentSystem.timeouts := ComponentSystem.timeouts b |} in
  TemplateRenderer.clearContainer 2 (Some 0%nat) b = Some cleared.
Proof.
  intros old grid b cleared.
  refine (proj1 (clearContainer_then_render_refreshes b 0 grid [] 2 _ _) _).
  - reflexivity.
  - reflexivity.
  - cbn. lia.
Defined.

(** ** The viewport test *)


(** ** The date of an event *)

Section Event_date_facts.
Import Dom ComponentSystem.

Lemma padStart2_day d :
  (d <= 31)%nat ->
  padStart2 (JS.showNat d)
  = if (d <? 10)%nat then "0" +:+ JS.showNat d else JS.showNat d.
Proof.
  intros Hd.
  do 32 (destruct d as [|d]; [vm_compute; reflexivity|]). lia.
Qed.

End Event_date_facts.

(** X22: how [renderEvents] shows the date of an event.  The item built
    for an event never fails; its day slot shows the day of the month
    with two digits (a leading zero below 10), its month slot the short
    month name in upper case; and for a date string that cannot be
    parsed the day slot shows the text "NaN". *)
Theorem event_date_slots :
  forall (getDate : string -> option nat) (monthShort : string -> string)
         (event : Event.t) (index : nat),
    (forall d, getDate (Event.date event) = Some d -> (1 <= d <= 31)%nat) ->
    exists item,
      ComponentSystem.eventItem getDate monthShort ComponentSystem.componentSystem event index
      = Ok item
      /\ Dom.textContent <$> (Dom.querySelector ".event-day" item ≫= fun p => Dom.nodeAt p item)
         = Some (match getDate (Event.date event) with
                 | Some d => if (d <? 10)%nat then "0" +:+ JS.showNat d else JS.showNat d
                 | None => "NaN"
                 end)
      /\ Dom.textContent <$> (Dom.querySelector ".event-month" item ≫= fun p => Dom.nodeAt p item)
         = Some (ComponentSystem.toUpperCase (monthShort (Event.date event))).
Proof.
  intros getDate monthShort event index Hday.
  eexists. split; [apply eventItem_eq|].
  cbn [Dom.querySelector].
  split.
  - change (Dom.querySelector ".event-day" ?item) with (Some [1; 0]%nat).
    cbn [mbind option_bind Dom.nodeAt lookup list_lookup fmap option_fmap option_map
         Dom.childNodesOf Dom.textContent fold_right].
    rewrite text_append_empty. f_equal.
    destruct (getDate (Event.date event)) as [d|] eqn:Hd; [|reflexivity].
    apply padStart2_day. destruct (Hday d eq_refl). lia.
  - change (Dom.querySelector ".event-month" ?item) with (Some [1; 1]%nat).
    cbn [mbind option_bind Dom.nodeAt lookup list_lookup fmap option_fmap option_map
         Dom.childNodesOf Dom.textContent fold_right].
    now rewrite text_append_empty.
Qed.

Lemma event_date_slots_witness :
  let event := {| Event.type := "Workshop"; Event.title := "Rust"; Event.description := "x";
                  Event.date := "2025-03-07" |} in
  let getDate := fun _ : string => Some 7%nat in
  let monthShort := fun _ : string => "Mar" in
  exists item,
    ComponentSystem.eventItem getDate monthShort ComponentSystem.componentSystem event 0
    = Ok item
    /\ Dom.textContent <$> (Dom.querySelector ".event-day" item ≫= fun p => Dom.nodeAt p item)
       = Some (match getDate (Event.date event) with
               | Some d => if (d <? 10)%nat then "0" +:+ JS.showNat d else JS.showNat d
               | None => "NaN"
               end)
    /\ Dom.textContent <$> (Dom.querySelector ".event-month" item ≫= fun p => Dom.nodeAt p item)
       = Some (ComponentSystem.toUpperCase (monthShort (Event.date event))).
Proof.
  intros event getDate monthShort.
  apply (event_date_slots getDate monthShort event 0).
  intros d Hd. injection Hd as <-. lia.
Defined.

(** ** Submitting the contact form *)

Section Submit_facts.
Import Dom PageController.

Lemma hasClass_classListRemove_ne c c' node :
  c <> c' -> hasClass c (classListRemove c' node) = hasClass c node.
Proof.
  intros Hne. destruct node as [|tag cl attrs st ch]; [reflexivity|].
  cbn [classListRemove hasClass]. apply bool_decide_ext.
  rewrite list_elem_of_filter. tauto.
Qed.

Lemma hasClass_setTextContent c text node :
  hasClass c (setTextContent text node) = hasClass c node.
Proof. now destruct node. Qed.

Lemma isElement_setTextContent text node :
  isElement (setTextContent text node) = isElement node.
Proof. now destruct node. Qed.

Lemma textContent_classListAdd c node : textContent (classListAdd c node) = textContent node.
Proof. now destruct node. Qed.

Lemma textContent_classListRemove c node :
  textContent (classListRemove c node) = textContent node.
Proof. now destruct node. Qed.

Lemma classListRemove_twice c node :
  classListRemove c (classListRemove c node) = classListRemove c node.
Proof.
  destruct node as [|tag cl attrs st ch]; [reflexivity|].
  cbn [classListRemove]. now rewrite filter_filter_same.
Qed.

(** Removing a class from the elements of a list. *)
Lemma removeAll_lookup c l : forall (els : gmap nat Node) k,
  c <> "" ->
  fold_left (fun els g => DOMManager.removeClass (Some g) c els) l els !! k
  = if bool_decide (k ∈ l) then classListRemove c <$> els !! k else els !! k.
Proof.
  induction l as [|g l IH]; intros els k Hc; [reflexivity|].
  cbn [fold_left]. rewrite IH by exact Hc.
  assert (Hstep : forall j, DOMManager.removeClass (Some g) c els !! j
                            = if decide (j = g) then classListRemove c <$> els !! j
                              else els !! j).
  { intros j. unfold DOMManager.removeClass.
    destruct (String.eqb c "") eqn:E; [apply String.eqb_eq in E; contradiction|].
    destruct (decide (j = g)) as [-> | Hne];
      [apply lookup_alter_eq | now apply lookup_alter_ne]. }
  rewrite Hstep. destruct (decide (k = g)) as [-> | Hne].
  - rewrite (bool_decide_eq_true_2 (g ∈ g :: l)) by (apply elem_of_cons; now left).
    destruct (bool_decide (g ∈ l)); [|reflexivity].
    destruct (els !! g) as [node|]; [|reflexivity].
    cbn [fmap option_fmap option_map]. now rewrite classListRemove_twice.
  - assert (Hiff : bool_decide (k ∈ g :: l) = bool_decide (k ∈ l)).
    { apply bool_decide_ext. rewrite elem_of_cons. intuition congruence. }
    now rewrite Hiff.
Qed.

(** [resetForm] on one element: a form group is left neither focused
    nor in error, and nothing else about the element changes. *)
Lemma resetForm_node p k n :
  pageNodes p !! k = Some n ->
  exists n',
    pageNodes (resetForm p) !! k = Some n'
    /\ isElement n' = isElement n
    /\ textContent n' = textContent n
    /\ (forall c, c <> "focused" -> c <> "error" -> hasClass c n' = hasClass c n)
    /\ (k ∈ groups (current p) -> hasClass "form-group" n = true ->
        hasClass "focused" n' = false /\ hasClass "error" n' = false).
Proof.
  intros Hn. unfold resetForm. cbn [pageNodes].
  set (els1 := fold_left (fun els group => DOMManager.removeClass (Some group) "focused" els)
                 (groupsWith "focused" (resetValues (current p)) (pageNodes p)) (pageNodes p)).
  destruct (bool_decide (k ∈ groupsWith "focused" (resetValues (current p)) (pageNodes p)))
    eqn:EF.
  - (* the element was a focused form group *)
    assert (H1 : els1 !! k = Some (classListRemove "focused" n)).
    { unfold els1. rewrite removeAll_lookup by discriminate. now rewrite EF, Hn. }
    destruct (bool_decide (k ∈ groupsWith "error" (resetValues (current p)) els1)) eqn:EE.
    + exists (classListRemove "error" (classListRemove "focused" n)).
      rewrite removeAll_lookup by discriminate. rewrite EE, H1.
      split; [reflexivity|]. split; [now rewrite !isElement_classListRemove|].
      split; [now rewrite !textContent_classListRemove|]. split.
      * intros c Hf He. now rewrite !hasClass_classListRemove_ne by congruence.
      * intros _ _. split; [|apply hasClass_classListRemove].
        rewrite hasClass_classListRemove_ne by discriminate. apply hasClass_classListRemove.
    + exists (classListRemove "focused" n).
      rewrite removeAll_lookup by discriminate. rewrite EE, H1.
      split; [reflexivity|]. split; [now rewrite !isElement_classListRemove|].
      split; [now rewrite !textContent_classListRemove|]. split.
      * intros c Hf He. now rewrite !hasClass_classListRemove_ne by congruence.
      * intros Hk Hgroup. split; [apply hasClass_classListRemove|].
        apply bool_decide_eq_false in EE. apply not_true_iff_false. intros He. apply EE.
        apply list_elem_of_filter. split; [|exact Hk].
        unfold isGroupWith. rewrite H1, He.
        rewrite hasClass_classListRemove_ne by discriminate. now rewrite Hgroup.
  - assert (H1 : els1 !! k = Some n).
    { unfold els1. rewrite removeAll_lookup by discriminate. now rewrite EF, Hn. }
    assert (Hfocused : k ∈ groups (current p) -> hasClass "form-group" n = true ->
                       hasClass "focused" n = false).
    { intros Hk Hgroup. apply bool_decide_eq_false in EF. apply not_true_iff_false.
      intros Hf. apply EF. apply list_elem_of_filter. split; [|exact Hk].
      unfold isGroupWith. now rewrite Hn, Hgroup, Hf. }
    destruct (bool_decide (k ∈ groupsWith "error" (resetValues (current p)) els1)) eqn:EE.
    + exists (classListRemove "error" n).
      rewrite removeAll_lookup by discriminate. rewrite EE, H1.
      split; [reflexivity|]. split; [now rewrite !isElement_classListRemove|].
      split; [now rewrite !textContent_classListRemove|]. split.
      * intros c Hf He. now rewrite !hasClass_classListRemove_ne by congruence.
      * intros Hk Hgroup. split; [|apply hasClass_classListRemove].
        rewrite hasClass_classListRemove_ne by discriminate. now apply Hfocused.
    + exists n. rewrite removeAll_lookup by discriminate. rewrite EE, H1.
      split; [reflexivity|]. split; [reflexivity|]. split; [reflexivity|]. split.
      * reflexivity.
      * intros Hk Hgroup. split; [now apply Hfocused|].
        apply bool_decide_eq_false in EE. apply not_true_iff_false. intros He. apply EE.
        apply list_elem_of_filter. split; [|exact Hk].
        unfold isGroupWith. now rewrite H1, Hgroup, He.
Qed.

Lemma pageNodes_lookup_total p g :
  (exists n, pageNodes p !! g = Some n) \/ pageNodes p !! g = None.
Proof. destruct (pageNodes p !! g); eauto. Qed.

(** The [finally] block on the button. *)
Lemma restore_button btn orig (els : gmap nat Node) n :
  els !! btn = Some n ->
  let els' := DOMManager.removeClass (Some btn) "loading"
                (alter (setTextContent orig) btn els) in
  (exists r, els' !! btn = Some r
             /\ textContent r = orig
             /\ hasClass "loading" r = false
             /\ forall c, c <> "loading" -> hasClass c r = hasClass c n)
  /\ forall k, k <> btn -> els' !! k = els !! k.
Proof.
  intros Hn. cbv zeta. cbn [DOMManager.removeClass String.eqb Ascii.eqb Bool.eqb]. split.
  - exists (classListRemove "loading" (setTextContent orig n)).
    rewrite !lookup_alter_eq, Hn. split; [reflexivity|].
    split; [now rewrite textContent_classListRemove, textContent_setTextContent|].
    split; [apply hasClass_classListRemove|].
    intros c Hc. now rewrite hasClass_classListRemove_ne, hasClass_setTextContent.
  - intros k Hk. now rewrite !lookup_alter_ne by congruence.
Qed.

End Submit_facts.

(** X23: submitting the contact form, for a form with a submit button.
    Only the required inputs are validated.  If one of them is invalid
    the handler returns after one error notification: nothing is sent
    and the button is not touched.  Otherwise, while the submission is
    under way the button reads "Sending...", is disabled and carries the
    class [loading], and no notification is shown yet.  When the
    submission settles the button gets its text back, is enabled and
    loses [loading], whatever the outcome; on success there is one
    success notification, every input is back to its default value and
    no form group of the form is focused or in error; on failure there
    is one error notification and the values stay. *)
Theorem form_submission_outcomes :
  forall (p : PageController.FormPage) (btn : nat) (node : Dom.Node),
    PageController.submitButton (PageController.current p) = Some btn ->
    PageController.pageNodes p !! btn = Some node ->
    Dom.isElement node = true ->
    let required := filter (fun input => TeqpodApp.required input = true)
                      (PageController.inputs (PageController.current p)) in
    let checked := TeqpodApp.validateForm required (PageController.pageNodes p) in
    let started := PageController.handleFormSubmit p in
    (checked.1 = false ->
       started.1 = PageController.returned
       /\ PageController.notifications started.2
          = PageController.notifications p
            ++ [("Please fill in all required fields correctly.", "error")]
       /\ PageController.current started.2 = PageController.current p
       /\ PageController.disabledNodes started.2 = PageController.disabledNodes p
       /\ PageController.pageNodes started.2 = checked.2)
    /\ (checked.1 = true ->
        started.1 = PageController.awaiting btn (Dom.textContent node)
        /\ PageController.notifications started.2 = PageController.notifications p
        /\ PageController.current started.2 = PageController.current p
        /\ btn ∈ PageController.disabledNodes started.2
        /\ (exists waiting,
              PageController.pageNodes started.2 !! btn = Some waiting
              /\ Dom.textContent waiting = "Sending..."
              /\ Dom.hasClass "loading" waiting = true)
        /\ (forall random,
             let final := PageController.resumeFormSubmit btn (Dom.textContent node) random
                            started.2 in
             (exists restored,
                 PageController.pageNodes final !! btn = Some restored
                 /\ Dom.textContent restored = Dom.textContent node
                 /\ Dom.hasClass "loading" restored = false)
             /\ (btn ∉ PageController.disabledNodes final)
             /\ ((1 # 10 < random)%Q ->
                 PageController.notifications final
                 = PageController.notifications p
                   ++ [("🚀 Message sent successfully! We'll get back to you soon.", "success")]
                 /\ PageController.current final
                    = PageController.resetValues (PageController.current p)
                 /\ forall g n,
                      g ∈ PageController.groups (PageController.current p) ->
                      PageController.pageNodes final !! g = Some n ->
                      Dom.hasClass "form-group" n = true ->
                      Dom.hasClass "focused" n = false /\ Dom.hasClass "error" n = false)
             /\ ((random <= 1 # 10)%Q ->
                 PageController.notifications final
                 = PageController.notifications p
                   ++ [("Failed to send message. Please try again.", "error")]
                 /\ PageController.current final = PageController.current p))).
Proof.
  intros p btn node Hbtn Hnode Hel required checked started.
  assert (Hstart : started
            = let originalText := Dom.textContent node in
              if negb checked.1 then
                (PageController.returned,
                 PageController.notify "Please fill in all required fields correctly." "error"
                   (PageController.withNodes checked.2 p))
              else
                (PageController.awaiting btn originalText,
                 {| PageController.current := PageController.current p;
                    PageController.pageNodes :=
                      DOMManager.addClass (Some btn) "loading"
                        (alter (Dom.setTextContent "Sending...") btn checked.2);
                    PageController.disabledNodes := {[btn]} ∪ PageController.disabledNodes p;
                    PageController.notifications := PageController.notifications p |})).
  { unfold started, PageController.handleFormSubmit. rewrite Hbtn.
    cbn [mbind option_bind]. rewrite Hnode. cbn [fmap option_fmap option_map].
    unfold PageController.validateFormOf. fold required. fold checked.
    destruct checked as [ok els]. cbn [fst snd negb]. destruct ok; reflexivity. }
  cbv zeta in Hstart. split.
  - intros Hinvalid. rewrite Hstart, Hinvalid. cbn [negb fst snd].
    repeat split; reflexivity.
  - intros Hvalid. rewrite Hstart, Hvalid. cbn [negb fst snd PageController.notifications
      PageController.current PageController.disabledNodes PageController.pageNodes].
    split; [reflexivity|]. split; [reflexivity|]. split; [reflexivity|].
    split; [apply elem_of_union_l, elem_of_singleton; reflexivity|].
    (* the button after validation *)
    assert (Hchecked : exists node1, checked.2 !! btn = Some node1
                                     /\ Dom.isElement node1 = true).
    { unfold checked, TeqpodApp.validateForm. rewrite validateForm_fold. cbn [snd].
      apply (validateAll_keeps_element required _ btn node Hnode Hel). }
    destruct Hchecked as (node1 & Hnode1 & Hel1).
    set (waiting := Dom.classListAdd "loading" (Dom.setTextContent "Sending..." node1)).
    set (els := DOMManager.addClass (Some btn) "loading"
                  (alter (Dom.setTextContent "Sending...") btn checked.2)).
    assert (Hwaiting : els !! btn = Some waiting).
    { unfold els. cbn [DOMManager.addClass String.eqb Ascii.eqb Bool.eqb].
      now rewrite !lookup_alter_eq, Hnode1. }
    split.
    { exists waiting. split; [exact Hwaiting|]. split.
      - unfold waiting. now rewrite textContent_classListAdd, textContent_setTextContent.
      - unfold waiting. apply hasClass_classListAdd.
        now rewrite isElement_setTextContent. }
    intros random. unfold PageController.resumeFormSubmit.
    destruct (Qlt_le_dec (1 # 10) random) as [Hok | Hfail].
    + (* resolved *)
      set (p1 := PageController.notify
                   "🚀 Message sent successfully! We'll get back to you soon." "success"
                   {| PageController.current := PageController.current p;
                      PageController.pageNodes := els;
                      PageController.disabledNodes :=
                        {[btn]} ∪ PageController.disabledNodes p;
                      PageController.notifications := PageController.notifications p |}).
      destruct (resetForm_node p1 btn waiting Hwaiting) as (n' & Hn' & _ & _ & _ & _).
      destruct (restore_button btn (Dom.textContent node) _ n' Hn')
        as [(r & Hr & Htext & Hloading & _) Hothers].
      cbn [PageController.pageNodes PageController.disabledNodes
           PageController.notifications PageController.current].
      split; [exists r; auto|]. split.
      { cbn [PageController.resetForm PageController.disabledNodes].
        intros H. apply elem_of_difference in H as [_ H]. apply H.
        now apply elem_of_singleton. }
      split; [|intros Hno; exfalso; lra]. intros _.
      split; [reflexivity|]. split; [reflexivity|].
      intros g n Hg Hfinal Hgroup.
      destruct (pageNodes_lookup_total p1 g) as [[n0 Hn0] | Hnone].
      * destruct (resetForm_node p1 g n0 Hn0) as (m & Hm & _ & _ & Hsame & Hclean).
        destruct (decide (g = btn)) as [-> | Hne].
        -- destruct (restore_button btn (Dom.textContent node) _ m Hm)
             as [(r' & Hr' & _ & _ & Hkeep) _].
           rewrite Hr' in Hfinal. injection Hfinal as <-.
           rewrite !Hkeep in * by discriminate.
           apply Hclean; [exact Hg|]. now rewrite <- (Hsame "form-group") by discriminate.
        -- rewrite (Hothers g Hne), Hm in Hfinal. injection Hfinal as <-.
           apply Hclean; [exact Hg|]. now rewrite <- (Hsame "form-group") by discriminate.
      * exfalso. destruct (decide (g = btn)) as [-> | Hne].
        -- cbn [p1 PageController.notify PageController.pageNodes] in Hnone.
           rewrite Hwaiting in Hnone. discriminate.
        -- rewrite (Hothers g Hne) in Hfinal.
           unfold PageController.resetForm in Hfinal. cbn [PageController.pageNodes] in Hfinal.
           rewrite !removeAll_lookup in Hfinal by discriminate.
           cbn [p1 PageController.notify PageController.pageNodes] in Hnone, Hfinal.
           rewrite Hnone in Hfinal. repeat destruct (bool_decide _) in Hfinal; discriminate.
    + (* rejected *)
      destruct (restore_button btn (Dom.textContent node) els waiting Hwaiting)
        as [(r & Hr & Htext & Hloading & _) _].
      cbn [PageController.notify PageController.pageNodes PageController.disabledNodes
           PageController.notifications PageController.current].
      split; [exists r; auto|]. split.
      { intros H. apply elem_of_difference in H as [_ H]. apply H.
        now apply elem_of_singleton. }
      split; [intros Hyes; exfalso; lra|]. intros _. split; reflexivity.
Qed.

Lemma form_submission_outcomes_witness :
  let name := {| TeqpodApp.value := [65; 100; 97]%N; TeqpodApp.type := "text";
                 TeqpodApp.required := true; TeqpodApp.formGroup := Some 2%nat |} in
  let form := {| PageController.inputs := [name]; PageController.defaults := [[]];
                 PageController.groups := [2%nat];
                 PageController.submitButton := Some 1%nat |} in
  let button := Dom.Element "button" ["submit-btn"] [("type", "submit")] [] [Dom.Text "Send"] in
  let group := Dom.Element "div" ["form-group"; "focused"] [] [] [] in
  let p := {| PageController.current := form;
              PageController.pageNodes := <[1%nat := button]> (<[2%nat := group]> ∅);
              PageController.disabledNodes := ∅;
              PageController.notifications := [] |} in
  (PageController.handleFormSubmit p).1
  = PageController.awaiting 1 (Dom.textContent button).
Proof.
  intros name form button group p.
  refine (proj1 (proj2 (form_submission_outcomes p 1 button _ _ _) _)).
  - reflexivity.
  - reflexivity.
  - reflexivity.
  - vm_compute. reflexivity.
Defined.

(** ** The life of a notification *)

Section Notification_facts.
Import Dom DOMManager TemplateRenderer.

Lemma earliest_some {T : Type} (l : list (nat * Z * T)) :
  l <> [] -> exists e, earliest l = Some e.
Proof.
  destruct l as [|x l]; [congruence|]. intros _. cbn [earliest].
  destruct (earliest l) as [y|]; [|eauto].
  destruct (y.1.2 <? x.1.2)%Z; eauto.
Qed.

Lemma earliest_least {T : Type} (l : list (nat * Z * T)) e :
  earliest l = Some e -> e ∈ l /\ forall y, y ∈ l -> (e.1.2 <= y.1.2)%Z.
Proof.
  revert e. induction l as [|x l IH]; intros e H; [discriminate|].
  cbn [earliest] in H. destruct (earliest l) as [z|] eqn:Hz.
  - destruct (IH z eq_refl) as [Hin Hmin].
    destruct (Z.ltb_spec z.1.2 x.1.2) as [Hlt | Hge]; injection H as <-.
    + split; [apply elem_of_cons; now right|].
      intros y Hy. apply elem_of_cons in Hy as [-> | Hy]; [lia | now apply Hmin].
    + split; [apply elem_of_cons; now left|].
      intros y Hy. apply elem_of_cons in Hy as [-> | Hy]; [lia|].
      specialize (Hmin y Hy). lia.
  - injection H as <-. destruct l as [|y l]; [|destruct (earliest_some (y :: l)); congruence].
    split; [apply elem_of_cons; now left|].
    intros y Hy. apply elem_of_cons in Hy as [-> | Hy]; [lia | now apply elem_of_nil in Hy].
Qed.

(** One timer fires. *)
Lemma fire_notification e (s : Notifications) :
  fire runNotification e s
  = let q := {| now := Z.max (now s.1) e.1.2; nextId := nextId s.1;
                pending := filter (fun t' => t'.1.1 ≠ e.1.1) (pending s.1) |} in
    match e.2 with
    | remove m =>
        ({| now := now q; nextId := S (nextId q);
            pending := pending q ++ [(nextId q, (now q + Z.max 0 300)%Z, removeElement m)] |},
         {| created := alter (setStyle "transform" "translateX(400px)") m (created s.2);
            bodyChildren := bodyChildren s.2; slideFrames := slideFrames s.2 |})
    | removeElement m =>
        (q, {| created := created s.2;
               bodyChildren := filter (fun child => child ≠ m) (bodyChildren s.2);
               slideFrames := slideFrames s.2 |})
    end.
Proof. unfold fire. destruct e.2; reflexivity. Qed.

Lemma timerLoad_app l l' : timerLoad (l ++ l') = (timerLoad l + timerLoad l')%nat.
Proof. induction l as [|t l IH]; [reflexivity|]. cbn [app timerLoad]. rewrite IH. lia. Qed.

Lemma timerLoad_filter (e : nat * Z * NotificationTask) l :
  e ∈ l ->
  (timerLoad (filter (fun t' : nat * Z * NotificationTask => t'.1.1 ≠ e.1.1) l)
   + taskLoad e.2 <= timerLoad l)%nat.
Proof.
  induction l as [|x l IH]; intros Hin; [now apply elem_of_nil in Hin|].
  assert (Hle : forall l0, (timerLoad (filter (fun t' : nat * Z * NotificationTask =>
                                                 t'.1.1 ≠ e.1.1) l0) <= timerLoad l0)%nat).
  { clear. induction l0 as [|y l0 IH]; [reflexivity|].
    rewrite filter_cons. destruct (decide (y.1.1 ≠ e.1.1)); cbn [timerLoad]; lia. }
  rewrite filter_cons. apply elem_of_cons in Hin as [<- | Hin].
  - destruct (decide (e.1.1 ≠ e.1.1)); [congruence|]. cbn [timerLoad].
    specialize (Hle l). lia.
  - specialize (IH Hin). destruct (decide (x.1.1 ≠ e.1.1)); cbn [timerLoad]; lia.
Qed.

Lemma taskLoad_positive task : (1 <= taskLoad task)%nat.
Proof. destruct task; cbn; lia. Qed.

Lemma timerLoad_elem (y : nat * Z * NotificationTask) l :
  y ∈ l -> (taskLoad y.2 <= timerLoad l)%nat.
Proof.
  induction l as [|x l IH]; intros Hin; [now apply elem_of_nil in Hin|].
  apply elem_of_cons in Hin as [<- | Hin]; cbn [timerLoad]; [lia|].
  specialize (IH Hin). lia.
Qed.

(** Firing the earliest timer keeps the identifiers in order and lowers
    the load. *)
Lemma fire_fresh e (s : Notifications) :
  timersFresh s.1 -> e ∈ pending s.1 ->
  timersFresh (fire runNotification e s).1
  /\ (timerLoad (pending (fire runNotification e s).1) < timerLoad (pending s.1))%nat
  /\ (forall y, y ∈ pending s.1 -> y <> e -> y ∈ pending (fire runNotification e s).1)
  /\ (now (fire runNotification e s).1 = Z.max (now s.1) e.1.2).
Proof.
  intros [Hdistinct Hbound] He. rewrite fire_notification. cbv zeta.
  pose proof (timerLoad_filter e (pending s.1) He) as Hload.
  assert (Hkeep : forall y, y ∈ pending s.1 -> y <> e ->
            y ∈ filter (fun t' : nat * Z * NotificationTask => t'.1.1 ≠ e.1.1) (pending s.1)).
  { intros y Hy Hne. apply list_elem_of_filter. split; [|exact Hy].
    intros Hid. apply Hne. now apply Hdistinct. }
  assert (Hsub : forall y,
            y ∈ filter (fun t' : nat * Z * NotificationTask => t'.1.1 ≠ e.1.1) (pending s.1) ->
            y ∈ pending s.1).
  { intros y Hy. now apply list_elem_of_filter in Hy as [_ Hy]. }
  rewrite Forall_forall in Hbound. unfold timersFresh.
  destruct e.2 as [m|m] eqn:Htask; cbn [fst snd now nextId pending].
  - split; [split|split; [|split]].
    + intros x y Hx Hy Hid.
      apply elem_of_app in Hx as [Hx | Hx]; apply elem_of_app in Hy as [Hy | Hy].
      * apply Hdistinct; auto.
      * apply list_elem_of_singleton in Hy. subst y. cbn [fst] in Hid.
        specialize (Hbound x (Hsub x Hx)). lia.
      * apply list_elem_of_singleton in Hx. subst x. cbn [fst] in Hid.
        specialize (Hbound y (Hsub y Hy)). lia.
      * apply list_elem_of_singleton in Hx, Hy. congruence.
    + apply Forall_app. split.
      * apply Forall_forall. intros x Hx. specialize (Hbound x (Hsub x Hx)). lia.
      * constructor; [cbn; lia | constructor].
    + rewrite timerLoad_app. cbn [timerLoad taskLoad snd]. cbn [taskLoad] in Hload. lia.
    + intros y Hy Hne. apply elem_of_app. left. now apply Hkeep.
    + reflexivity.
  - split; [split|split; [|split]].
    + intros x y Hx Hy Hid. apply Hdistinct; auto.
    + apply Forall_forall. intros x Hx. apply Hbound. auto.
    + cbn [taskLoad] in Hload. lia.
    + exact Hkeep.
    + reflexivity.
Qed.

Lemma fire_body e (s : Notifications) :
  bodyChildren (fire runNotification e s).2
  = match e.2 with
    | remove _ => bodyChildren s.2
    | removeElement m => filter (fun child => child ≠ m) (bodyChildren s.2)
    end.
Proof. rewrite fire_notification. cbv zeta. now destruct e.2. Qed.

Variable n : nat.

(** Once it has left the page a notification does not come back. *)
Lemma gone_stays_gone fuel time : forall s : Notifications,
  n ∉ bodyChildren s.2 -> n ∉ bodyChildren (fireDue runNotification fuel time s).2.
Proof.
  induction fuel as [|fuel IH]; intros s Hgone; [exact Hgone|].
  cbn [fireDue]. destruct (earliest (pending s.1)) as [e|]; [|exact Hgone].
  destruct (e.1.2 <=? time)%Z; [|exact Hgone].
  apply IH. rewrite fire_body. destruct e.2; [exact Hgone|].
  intros Hin. apply list_elem_of_filter in Hin as [_ Hin]. contradiction.
Qed.

(** A pending timer that removes the element fires once it is due. *)
Lemma removal_fires fuel time : forall (s : Notifications) y,
  timersFresh s.1 -> y ∈ pending s.1 -> y.2 = removeElement n ->
  (y.1.2 <= time)%Z -> (timerLoad (pending s.1) <= fuel)%nat ->
  n ∉ bodyChildren (fireDue runNotification fuel time s).2.
Proof.
  induction fuel as [|fuel IH]; intros s y Hfresh Hy Htask Hdue Hfuel.
  - pose proof (timerLoad_elem y _ Hy). pose proof (taskLoad_positive y.2). lia.
  - cbn [fireDue].
    destruct (earliest_some (pending s.1)) as [e He].
    { intros Hnil. rewrite Hnil in Hy. now apply elem_of_nil in Hy. }
    rewrite He. destruct (earliest_least _ e He) as [Hin Hleast].
    specialize (Hleast y Hy).
    destruct (Z.leb_spec e.1.2 time) as [_ | Hlate]; [|lia].
    destruct (fire_fresh e s Hfresh Hin) as (Hfresh' & Hload & Hkeep & _).
    assert (Hcases : y = e \/ y <> e).
    { destruct (decide (y.1.1 = e.1.1)) as [Hid | Hid]; [left | right; congruence].
      now apply (proj1 Hfresh). }
    destruct Hcases as [-> | Hne].
    + apply gone_stays_gone. rewrite fire_body, Htask.
      intros Hn. apply list_elem_of_filter in Hn as [Hn _]. congruence.
    + apply (IH _ y Hfresh' (Hkeep y Hy Hne) Htask Hdue). lia.
Qed.

(** A pending [remove] that fires on time leads to the removal. *)
Lemma auto_remove_fires fuel time : forall (s : Notifications) x,
  timersFresh s.1 -> x ∈ pending s.1 -> x.2 = remove n ->
  (now s.1 <= x.1.2)%Z -> (x.1.2 + 300 <= time)%Z ->
  (timerLoad (pending s.1) <= fuel)%nat ->
  n ∉ bodyChildren (fireDue runNotification fuel time s).2.
Proof.
  induction fuel as [|fuel IH]; intros s x Hfresh Hx Htask Hnow Hdue Hfuel.
  - pose proof (timerLoad_elem x _ Hx). pose proof (taskLoad_positive x.2). lia.
  - cbn [fireDue].
    destruct (earliest_some (pending s.1)) as [e He].
    { intros Hnil. rewrite Hnil in Hx. now apply elem_of_nil in Hx. }
    rewrite He. destruct (earliest_least _ e He) as [Hin Hleast].
    specialize (Hleast x Hx).
    destruct (Z.leb_spec e.1.2 time) as [_ | Hlate]; [|lia].
    destruct (fire_fresh e s Hfresh Hin) as (Hfresh' & Hload & Hkeep & Hclock).
    assert (Hcases : x = e \/ x <> e).
    { destruct (decide (x.1.1 = e.1.1)) as [Hid | Hid]; [left | right; congruence].
      now apply (proj1 Hfresh). }
    destruct Hcases as [-> | Hne].
    + apply (removal_fires fuel time _
               (nextId s.1, (Z.max (now s.1) e.1.2 + Z.max 0 300)%Z, removeElement n)
               Hfresh').
      * rewrite fire_notification, Htask. cbv zeta. cbn [fst pending now nextId].
        apply elem_of_app. right. now apply list_elem_of_singleton.
      * reflexivity.
      * cbn [fst snd]. lia.
      * lia.
    + apply (IH _ x Hfresh' (Hkeep x Hx Hne) Htask); [rewrite Hclock; lia | exact Hdue | lia].
Qed.

(** Until [limit] nothing removes the element: it is attached, and the
    timers that would remove it are not due before. *)
Let safeUntil (limit : Z) (s : Notifications) : Prop :=
  n ∈ bodyChildren s.2
  /\ Forall (fun t => (t.2 = removeElement n -> (limit <= t.1.2)%Z)
                      /\ (t.2 = remove n -> (limit <= t.1.2 + 300)%Z)) (pending s.1).

Lemma safe_fireDue limit fuel time : forall s : Notifications,
  (time < limit)%Z -> safeUntil limit s ->
  safeUntil limit (fireDue runNotification fuel time s).
Proof.
  induction fuel as [|fuel IH]; intros s Htime Hsafe; [exact Hsafe|].
  cbn [fireDue]. destruct (earliest (pending s.1)) as [e|] eqn:He; [|exact Hsafe].
  destruct (Z.leb_spec e.1.2 time) as [Hdue | _]; [|exact Hsafe].
  apply IH; [exact Htime|]. destruct Hsafe as [Hbody Htimers].
  destruct (earliest_least _ e He) as [Hin _].
  rewrite Forall_forall in Htimers. destruct (Htimers e Hin) as [Hno Hsoon].
  split.
  - rewrite fire_body. destruct e.2 as [m|m] eqn:Htask; [exact Hbody|].
    apply list_elem_of_filter. split; [|exact Hbody].
    intros ->. specialize (Hno eq_refl). lia.
  - rewrite fire_notification. cbv zeta.
    assert (Hrest : Forall (fun t : nat * Z * NotificationTask =>
                              (t.2 = removeElement n -> (limit <= t.1.2)%Z)
                              /\ (t.2 = remove n -> (limit <= t.1.2 + 300)%Z))
                      (filter (fun t' : nat * Z * NotificationTask => t'.1.1 ≠ e.1.1)
                         (pending s.1))).
    { apply Forall_forall. intros t Ht. apply list_elem_of_filter in Ht as [_ Ht].
      now apply Htimers. }
    destruct e.2 as [m|m] eqn:Htask; cbn [fst pending]; [|exact Hrest].
    apply Forall_app. split; [exact Hrest|].
    repeat constructor; cbn [fst snd]; [|discriminate].
    intros Hm. injection Hm as ->. specialize (Hsoon eq_refl). cbn [now]. lia.
Qed.

Lemma fireDue_fresh fuel time : forall s : Notifications,
  timersFresh s.1 ->
  timersFresh (fireDue runNotification fuel time s).1
  /\ (timerLoad (pending (fireDue runNotification fuel time s).1)
      <= timerLoad (pending s.1))%nat
  /\ (now (fireDue runNotification fuel time s).1 <= Z.max (now s.1) time)%Z.
Proof.
  induction fuel as [|fuel IH]; intros s Hfresh;
    [cbn [fireDue]; split; [exact Hfresh | split; lia]|].
  cbn [fireDue]. destruct (earliest (pending s.1)) as [e|] eqn:He;
    [|split; [exact Hfresh | split; lia]].
  destruct (Z.leb_spec e.1.2 time) as [Hdue | _]; [|split; [exact Hfresh | split; lia]].
  destruct (earliest_least _ e He) as [Hin _].
  destruct (fire_fresh e s Hfresh Hin) as (Hfresh' & Hload & _ & Hclock).
  destruct (IH _ Hfresh') as (I1 & I2 & I3).
  split; [exact I1|]. split; [lia|]. rewrite Hclock in I3. lia.
Qed.

Lemma setTimeout_fresh task delay (q : Timers NotificationTask) :
  timersFresh q -> timersFresh (setTimeout task delay q).2.
Proof.
  intros [Hdistinct Hbound]. rewrite Forall_forall in Hbound.
  unfold timersFresh, setTimeout. cbn [snd pending nextId]. split.
  - intros x y Hx Hy Hid.
    apply elem_of_app in Hx as [Hx | Hx]; apply elem_of_app in Hy as [Hy | Hy].
    + now apply Hdistinct.
    + apply list_elem_of_singleton in Hy. subst y. cbn [fst] in Hid.
      specialize (Hbound x Hx). lia.
    + apply list_elem_of_singleton in Hx. subst x. cbn [fst] in Hid.
      specialize (Hbound y Hy). lia.
    + apply list_elem_of_singleton in Hx, Hy. congruence.
  - apply Forall_app. split.
    + apply Forall_forall. intros x Hx. specialize (Hbound x Hx). lia.
    + constructor; [cbn; lia | constructor].
Qed.

End Notification_facts.

(** X24: the life of a notification, on a page where other notifications
    may be on their way out.  [createNotification] never fails; it
    attaches the new element as the last child of the body.  Left alone,
    the notification is on the page at every time before 5300 ms after
    its creation and off the page at every time from then on.  After a
    click on its close button it is off the page from 300 ms after the
    click, and the automatic removal that still follows does no harm.
    (The timers are given enough turns: two for a pending [remove], one
    for every other pending timer.) *)
Theorem notification_leaves_by_itself :
  forall (message type : string) (s : TemplateRenderer.Notifications),
    TemplateRenderer.timersFresh s.1 ->
    TemplateRenderer.timersKnown s ->
    let notification := length (TemplateRenderer.created s.2) in
    let load := TemplateRenderer.timerLoad (DOMManager.pending s.1) in
    exists element s1,
      TemplateRenderer.createNotification message type s = Ok (notification, s1)
      /\ TemplateRenderer.notificationElement message type = Ok element
      /\ TemplateRenderer.created s1.2 !! notification = Some element
      /\ TemplateRenderer.bodyChildren s1.2
         = TemplateRenderer.bodyChildren s.2 ++ [notification]
      /\ (forall fuel time,
            (time < DOMManager.now s.1 + 5300)%Z ->
            notification ∈ TemplateRenderer.bodyChildren
                             (TemplateRenderer.elapse fuel time s1).2)
      /\ (forall fuel time,
            (DOMManager.now s.1 + 5300 <= time)%Z ->
            (load + 2 <= fuel)%nat ->
            notification ∉ TemplateRenderer.bodyChildren
                             (TemplateRenderer.elapse fuel time s1).2)
      /\ (forall fuel clicked fuel' time,
            (DOMManager.now s.1 <= clicked)%Z ->
            (clicked + 300 <= time)%Z ->
            (load + 3 <= fuel')%nat ->
            notification ∉ TemplateRenderer.bodyChildren
                             (TemplateRenderer.elapse fuel' time
                                (TemplateRenderer.clickClose notification
                                   (TemplateRenderer.elapse fuel clicked s1))).2).
Proof.
  intros message type s Hfresh Hknown notification load.
  set (timer := (DOMManager.nextId s.1, (DOMManager.now s.1 + Z.max 0 5000)%Z,
                 TemplateRenderer.remove notification)).
  set (q1 := {| DOMManager.now := DOMManager.now s.1;
                DOMManager.nextId := S (DOMManager.nextId s.1);
                DOMManager.pending := DOMManager.pending s.1 ++ [timer] |}).
  assert (Helement : exists element,
             TemplateRenderer.notificationElement message type = Ok element).
  { eexists. reflexivity. }
  destruct Helement as [element Helement].
  set (screen1 := {| TemplateRenderer.created := TemplateRenderer.created s.2 ++ [element];
                     TemplateRenderer.bodyChildren :=
                       TemplateRenderer.bodyChildren s.2 ++ [notification];
                     TemplateRenderer.slideFrames :=
                       TemplateRenderer.slideFrames s.2
                       ++ [TemplateRenderer.slideIn notification] |}).
  exists element, (q1, screen1).
  assert (Hfresh1 : TemplateRenderer.timersFresh q1).
  { apply (setTimeout_fresh (TemplateRenderer.remove notification) 5000 s.1 Hfresh). }
  assert (Hload1 : TemplateRenderer.timerLoad (DOMManager.pending q1) = (load + 2)%nat).
  { unfold q1. cbn [DOMManager.pending]. rewrite timerLoad_app. reflexivity. }
  assert (Htimer : timer ∈ DOMManager.pending q1).
  { unfold q1. cbn [DOMManager.pending]. apply elem_of_app. right.
    now apply list_elem_of_singleton. }
  split.
  { unfold TemplateRenderer.createNotification. rewrite Helement. reflexivity. }
  split; [exact Helement|]. split.
  { cbn [snd screen1 TemplateRenderer.created]. unfold notification.
    rewrite lookup_app_r by lia. now rewrite Nat.sub_diag. }
  split; [reflexivity|]. split; [|split].
  - intros fuel time Htime. unfold TemplateRenderer.elapse. cbn [snd].
    apply (safe_fireDue notification (DOMManager.now s.1 + 5300) fuel time (q1, screen1) Htime).
    split.
    + cbn [snd screen1 TemplateRenderer.bodyChildren]. apply elem_of_app. right.
      now apply list_elem_of_singleton.
    + cbn [fst q1 DOMManager.pending]. apply Forall_app. split.
      * unfold TemplateRenderer.timersKnown in Hknown. rewrite Forall_forall in Hknown.
        apply Forall_forall. intros t Ht. specialize (Hknown t Ht).
        split; intros Htask; rewrite Htask in Hknown; cbn in Hknown;
          unfold notification in Hknown; lia.
      * constructor; [|constructor]. cbn [timer fst snd]. split; [discriminate|].
        intros _. lia.
  - intros fuel time Htime Hfuel. unfold TemplateRenderer.elapse. cbn [snd].
    apply (auto_remove_fires notification fuel time (q1, screen1) timer Hfresh1 Htimer).
    + reflexivity.
    + cbn [fst q1 timer snd DOMManager.now]. lia.
    + cbn [timer fst snd]. lia.
    + cbn [fst]. lia.
  - intros fuel clicked fuel' time Hclicked Htime Hfuel.
    destruct (fireDue_fresh fuel clicked (q1, screen1) Hfresh1) as (F1 & F2 & F3).
    cbn [fst q1 DOMManager.now] in F3. fold q1 in F3.
    set (fired := DOMManager.fireDue TemplateRenderer.runNotification fuel clicked
                    (q1, screen1)) in *.
    set (q2 := {| DOMManager.now := Z.max (DOMManager.now fired.1) clicked;
                  DOMManager.nextId := DOMManager.nextId fired.1;
                  DOMManager.pending := DOMManager.pending fired.1 |}).
    assert (Hfresh2 : TemplateRenderer.timersFresh q2) by exact F1.
    unfold TemplateRenderer.elapse at 2. fold fired. fold q2.
    unfold TemplateRenderer.clickClose, TemplateRenderer.runNotification.
    cbn [fst snd DOMManager.setTimeout].
    unfold TemplateRenderer.elapse. cbn [snd].
    match goal with
    | |- _ ∉ TemplateRenderer.bodyChildren (DOMManager.fireDue _ _ _ (?q, ?screen)).2 =>
        apply (removal_fires notification fuel' time (q, screen)
                 (DOMManager.nextId q2, (DOMManager.now q2 + Z.max 0 300)%Z,
                  TemplateRenderer.removeElement notification))
    end.
    + apply (setTimeout_fresh (TemplateRenderer.removeElement notification) 300 q2 Hfresh2).
    + cbn [fst DOMManager.pending]. apply elem_of_app. right.
      now apply list_elem_of_singleton.
    + reflexivity.
    + cbn [fst snd q2 DOMManager.now]. lia.
    + cbn [fst DOMManager.pending]. rewrite timerLoad_app.
      cbn [q2 DOMManager.pending TemplateRenderer.timerLoad TemplateRenderer.taskLoad snd].
      cbn [fst] in F2. lia.
Qed.

Lemma notification_leaves_by_itself_witness :
  let s : TemplateRenderer.Notifications :=
    ({| DOMManager.now := 1000; DOMManager.nextId := 1; DOMManager.pending := [] |},
     {| TemplateRenderer.created := []; TemplateRenderer.bodyChildren := [];
        TemplateRenderer.slideFrames := [] |}) in
  exists element s1,
    TemplateRenderer.createNotification "Saved" "success" s = Ok (0%nat, s1)
    /\ TemplateRenderer.notificationElement "Saved" "success" = Ok element
    /\ TemplateRenderer.created s1.2 !! 0%nat = Some element
    /\ TemplateRenderer.bodyChildren s1.2 = [] ++ [0%nat]
    /\ 0%nat ∈ TemplateRenderer.bodyChildren (TemplateRenderer.elapse 5 6299 s1).2
    /\ 0%nat ∉ TemplateRenderer.bodyChildren (TemplateRenderer.elapse 5 6300 s1).2.
Proof.
  intros s.
  destruct (notification_leaves_by_itself "Saved" "success" s) as
    (element & s1 & H1 & H2 & H3 & H4 & H5 & H6 & _).
  - split; [intros x y Hx; now apply elem_of_nil in Hx | constructor].
  - constructor.
  - exists element, s1. split; [exact H1|]. split; [exact H2|]. split; [exact H3|].
    split; [exact H4|]. split.
    + apply H5. cbn. lia.
    + apply H6; cbn; lia.
Defined.
